(** * Reptar: configuration resolution and render orchestration

    A shallow embedding of [lib/config/index.js] (class [Config] with its
    helpers [valueToFunction], [requireLocalModule], [loadConfigFile]) and of
    [lib/renderer/renderer.js] ([Renderer.renderFileWithPlugins]).

    JavaScript values are an inductive type, objects are association lists in
    insertion order, exceptions are explicit results, and the instance field
    [this._raw] is threaded through a small state-and-event monad.  The
    collaborators that live outside these files (the Joi schema, lodash's
    [defaultsDeep], the module loader, the plugin manager, a file's own
    [render]) are fields of an environment record. *)

From Stdlib Require Import List String Ascii Bool Arith ZArith Lia.
From Stdlib Require Import Permutation Sorted DecimalString.
Import ListNotations.
Open Scope string_scope.
Open Scope list_scope.
Set Warnings "-register-all".

(** ** JavaScript values *)

Module Js.

(** Strings are [string]: the model covers code units below 256. *)
Inductive value : Type :=
| VUndefined
| VNull
| VBool (b : bool)
| VNum (n : Z)
| VStr (s : string)
| VRegExp (source : string)      (* a RegExp object without flags *)
| VFunc (id : nat)               (* a function the model does not look into *)
| VIntrinsic (name : string)     (* a built-in found on Object.prototype *)
| VMatcher (regExp : value)      (* path => path.match(regExp) !== null *)
| VArr (elems : list value)
| VObj (proto : bool) (fields : list (string * value)).
(* [proto] is [true] for an object whose prototype is Object.prototype (an
   object literal) and [false] for one made by Object.create(null). *)

Inductive exn : Type :=
| Error (message : string)       (* throw new Error(message) *)
| TypeError
| SyntaxError
| ModuleNotFound (name basedir : string).

(** The result of running a piece of code: a value, an exception, or
    [Unmodelled] when the code reaches a coercion of the language or of lodash
    that this development does not describe.  Theorems speak about [Ok] and
    [Throw] only. *)
Inductive outcome (A : Type) : Type :=
| Ok (a : A)
| Throw (e : exn)
| Unmodelled.
Arguments Ok {A} a.
Arguments Throw {A} e.
Arguments Unmodelled {A}.

Definition obind {A B} (o : outcome A) (f : A -> outcome B) : outcome B :=
  match o with
  | Ok a => f a
  | Throw e => Throw e
  | Unmodelled => Unmodelled
  end.

Fixpoint omap {A B} (f : A -> outcome B) (l : list A) : outcome (list B) :=
  match l with
  | [] => Ok []
  | x :: r => obind (f x) (fun y => obind (omap f r) (fun ys => Ok (y :: ys)))
  end.

(** [v == null] *)
Definition is_nullish (v : value) : bool :=
  match v with
  | VUndefined | VNull => true
  | _ => false
  end.

(** ToBoolean *)
Definition truthy (v : value) : bool :=
  match v with
  | VUndefined | VNull => false
  | VBool b => b
  | VNum n => negb (Z.eqb n 0)
  | VStr s => negb (String.eqb s "")
  | _ => true
  end.

(** [_.isString], [_.isFunction] *)
Definition isString (v : value) : bool :=
  match v with VStr _ => true | _ => false end.

Definition isFunction (v : value) : bool :=
  match v with
  | VFunc _ | VMatcher _ => true
  | VIntrinsic name => negb (String.eqb name "Object.prototype")
  | _ => false
  end.

(** Own properties. *)
Fixpoint lookup (k : string) (fs : list (string * value)) : option value :=
  match fs with
  | [] => None
  | (k', v) :: r => if String.eqb k k' then Some v else lookup k r
  end.

(** Assignment keeps the position of an existing key and appends a new one. *)
Fixpoint assign (k : string) (v : value) (fs : list (string * value))
  : list (string * value) :=
  match fs with
  | [] => [(k, v)]
  | (k', v') :: r =>
      if String.eqb k k' then (k', v) :: r else (k', v') :: assign k v r
  end.

(** Own enumerable keys, each once. *)
Definition keys (fs : list (string * value)) : list string :=
  nodup string_dec (map fst fs).

(** What a property read finds on Object.prototype. *)
Definition object_prototype (k : string) : value :=
  if String.eqb k "constructor" then VIntrinsic "Object"
  else if String.eqb k "__proto__" then VIntrinsic "Object.prototype"
  else if existsb (String.eqb k)
       ["hasOwnProperty"; "isPrototypeOf"; "propertyIsEnumerable";
        "toLocaleString"; "toString"; "valueOf";
        "__defineGetter__"; "__defineSetter__";
        "__lookupGetter__"; "__lookupSetter__"]
  then VIntrinsic ("Object.prototype." ++ k)%string
  else VUndefined.

(** A canonical array index: ["0"], ["17"], not ["017"]. *)
Definition array_index (k : string) : option nat :=
  match NilZero.uint_of_string k with
  | Some u =>
      let n := Nat.of_uint u in
      if String.eqb (NilZero.string_of_uint (Nat.to_uint n)) k
      then Some n else None
  | None => None
  end.

(** [o[k]] *)
Definition js_get (o : value) (k : string) : outcome value :=
  match o with
  | VUndefined | VNull => Throw TypeError
  | VObj proto fs =>
      match lookup k fs with
      | Some v => Ok v
      | None => Ok (if proto then object_prototype k else VUndefined)
      end
  | VArr xs =>
      if String.eqb k "length" then Ok (VNum (Z.of_nat (List.length xs)))
      else match array_index k with
           | Some i => Ok (nth i xs VUndefined)
           | None => Unmodelled
           end
  | VStr s =>
      if String.eqb k "length" then Ok (VNum (Z.of_nat (String.length s)))
      else Unmodelled
  | _ => Unmodelled
  end.

(** The list with its element at [i] replaced. *)
Fixpoint replace_nth {A} (i : nat) (x : A) (l : list A) : list A :=
  match l, i with
  | [], _ => []
  | _ :: r, O => x :: r
  | y :: r, S j => y :: replace_nth j x r
  end.

(** [o[k] = v] in strict mode; the result is the object after the write. *)
Definition js_set (o : value) (k : string) (v : value) : outcome value :=
  match o with
  | VObj proto fs => Ok (VObj proto (assign k v fs))
  | VUndefined | VNull | VBool _ | VNum _ | VStr _ => Throw TypeError
  | _ => Unmodelled
  end.

End Js.
Import Js.

(** ** Strings *)

(** [s.split(sep)] for a one-character separator: ["a//b"] gives
    ["a"; ""; "b"] at ["/"]. *)
Fixpoint split_on (sep : ascii) (s : string) : list string :=
  match s with
  | EmptyString => [""]
  | String c r =>
      if Ascii.eqb c sep then "" :: split_on sep r
      else match split_on sep r with
           | [] => [String c ""]
           | seg :: segs => String c seg :: segs
           end
  end.

Fixpoint contains_char (c : ascii) (s : string) : bool :=
  match s with
  | EmptyString => false
  | String d r => Ascii.eqb d c || contains_char c r
  end.

(** ** Node's [path] module (POSIX flavour) *)

Module Path.

Definition is_absolute (p : string) : bool :=
  match p with
  | String c _ => Ascii.eqb c "/"
  | EmptyString => false
  end.

Fixpoint ends_with_slash (p : string) : bool :=
  match p with
  | EmptyString => false
  | String c EmptyString => Ascii.eqb c "/"
  | String _ r => ends_with_slash r
  end.

Definition segments (p : string) : list string := split_on "/" p.

(** One step of [normalizeString]: [stack] holds the kept segments, last
    one first. *)
Definition push_segment (allowAboveRoot : bool) (stack : list string)
  (seg : string) : list string :=
  if String.eqb seg "" || String.eqb seg "." then stack
  else if String.eqb seg ".." then
    match stack with
    | top :: rest =>
        if String.eqb top ".."
        then (if allowAboveRoot then ".." :: stack else stack)
        else rest
    | [] => if allowAboveRoot then [".."] else []
    end
  else seg :: stack.

Definition normalizeString (p : string) (allowAboveRoot : bool) : string :=
  String.concat "/"
    (rev (fold_left (push_segment allowAboveRoot) (segments p) [])).

(** [path.normalize] *)
Definition normalize (p : string) : string :=
  if String.eqb p "" then "."
  else
    let isAbsolute := is_absolute p in
    let trailingSeparator := ends_with_slash p in
    let q := normalizeString p (negb isAbsolute) in
    if String.eqb q "" then
      (if isAbsolute then "/" else if trailingSeparator then "./" else ".")
    else
      let q' := if trailingSeparator then (q ++ "/")%string else q in
      if isAbsolute then ("/" ++ q')%string else q'.

(** [path.join] on strings. *)
Definition join (args : list string) : string :=
  match filter (fun a => negb (String.eqb a "")) args with
  | [] => "."
  | parts => normalize (String.concat "/" parts)
  end.

Section Resolve.
Variable cwd : string.   (* process.cwd() *)

(** The loop of [path.resolve], from the last argument to the first and
    then the working directory; an argument is checked to be a string only
    when the loop reaches it. *)
Fixpoint resolve_loop (rargs : list value) (resolvedPath : string)
  : outcome (string * bool) :=
  match rargs with
  | [] =>
      if String.eqb cwd "" then Ok (resolvedPath, false)
      else Ok ((cwd ++ "/" ++ resolvedPath)%string, is_absolute cwd)
  | VStr p :: rest =>
      if String.eqb p "" then resolve_loop rest resolvedPath
      else if is_absolute p then Ok ((p ++ "/" ++ resolvedPath)%string, true)
      else resolve_loop rest (p ++ "/" ++ resolvedPath)%string
  | _ :: _ => Throw TypeError
  end.

Definition resolve (args : list value) : outcome string :=
  obind (resolve_loop (rev args) "") (fun '(resolvedPath, resolvedAbsolute) =>
    let n := normalizeString resolvedPath (negb resolvedAbsolute) in
    if resolvedAbsolute then Ok ("/" ++ n)%string
    else Ok (if String.eqb n "" then "." else n)).
End Resolve.

End Path.

(** ** Regular expressions

    A fragment of the pattern language: literal characters, [.], [^], [$],
    a backslash before a syntax character, and the quantifiers [*], [+], [?]
    with their lazy forms.  Groups, classes, alternation, braces and the other
    escapes are outside the fragment ([PUnsupported]). *)

Module RegExp.

Inductive atom : Type :=
| AChar (c : ascii)
| AAny.                         (* [.]: anything but a line terminator *)

Inductive quant : Type := QOne | QOpt | QStar | QPlus.

Inductive item : Type :=
| IStart                        (* [^] *)
| IEnd                          (* [$] *)
| IAtom (a : atom) (q : quant).

Inductive parsed : Type :=
| Pattern (items : list item)
| PSyntaxError                  (* the RegExp constructor throws *)
| PUnsupported.

(** What the parser has read and may still be quantified. *)
Inductive pending : Type :=
| PendNone
| PendAtom (a : atom)
| PendQuant (a : atom) (q : quant).

Definition flush (p : pending) : list item :=
  match p with
  | PendNone => []
  | PendAtom a => [IAtom a QOne]
  | PendQuant a q => [IAtom a q]
  end.

Definition emit (its : list item) (p : parsed) : parsed :=
  match p with
  | Pattern rest => Pattern (its ++ rest)
  | other => other
  end.

Definition is_quantifier (c : ascii) : bool :=
  Ascii.eqb c "*" || Ascii.eqb c "+" || Ascii.eqb c "?".

Definition quant_of (c : ascii) : quant :=
  if Ascii.eqb c "*" then QStar else if Ascii.eqb c "+" then QPlus else QOpt.

(** ^ $ \ . * + ? ( ) [ ] { } | *)
Definition is_syntax_char (c : ascii) : bool :=
  existsb (Ascii.eqb c)
    ["^"; "$"; "\"; "."; "*"; "+"; "?"; "("; ")"; "["; "]"; "{"; "}"; "|"]%char.

Fixpoint parse (pend : pending) (s : string) : parsed :=
  match s with
  | EmptyString => Pattern (flush pend)
  | String c s' =>
      if is_quantifier c then
        match pend with
        | PendNone => PSyntaxError                       (* nothing to repeat *)
        | PendAtom a => parse (PendQuant a (quant_of c)) s'
        | PendQuant a q =>
            if Ascii.eqb c "?"
            then emit [IAtom a q] (parse PendNone s')    (* lazy form *)
            else PSyntaxError
        end
      else if Ascii.eqb c "^"
      then emit (flush pend ++ [IStart]) (parse PendNone s')
      else if Ascii.eqb c "$"
      then emit (flush pend ++ [IEnd]) (parse PendNone s')
      else if Ascii.eqb c "." then emit (flush pend) (parse (PendAtom AAny) s')
      else if Ascii.eqb c "\" then
        match s' with
        | EmptyString => PSyntaxError              (* \ at end of pattern *)
        | String d s'' =>
            if is_syntax_char d || Ascii.eqb d "/"
            then emit (flush pend) (parse (PendAtom (AChar d)) s'')
            else PUnsupported
        end
      else if is_syntax_char c then PUnsupported
      else emit (flush pend) (parse (PendAtom (AChar c)) s')
  end.

(** [new RegExp(source)] *)
Definition compile (source : string) : parsed := parse PendNone source.

Definition is_line_terminator (c : ascii) : bool :=
  Ascii.eqb c "010" || Ascii.eqb c "013".

Definition atom_matches (a : atom) (c : ascii) : bool :=
  match a with
  | AChar d => Ascii.eqb c d
  | AAny => negb (is_line_terminator c)
  end.

(** Does some prefix of [c] match [items]?  [at_start] tells whether the
    position is the beginning of the input. *)
Fixpoint match_here (items : list item) (at_start : bool) (c : string) : bool :=
  match items with
  | [] => true
  | IStart :: rest => at_start && match_here rest at_start c
  | IEnd :: rest =>
      match c with
      | EmptyString => match_here rest at_start c
      | String _ _ => false
      end
  | IAtom a q :: rest =>
      let star :=
        fix star (at_start : bool) (c : string) : bool :=
          match_here rest at_start c
          || match c with
             | String x c' => atom_matches a x && star false c'
             | EmptyString => false
             end in
      match q with
      | QOne =>
          match c with
          | String x c' => atom_matches a x && match_here rest false c'
          | EmptyString => false
          end
      | QOpt =>
          match_here rest at_start c
          || match c with
             | String x c' => atom_matches a x && match_here rest false c'
             | EmptyString => false
             end
      | QStar => star at_start c
      | QPlus =>
          match c with
          | String x c' => atom_matches a x && star false c'
          | EmptyString => false
          end
      end
  end.

(** A match may begin at any position of the input. *)
Fixpoint search_from (items : list item) (at_start : bool) (c : string)
  : bool :=
  match_here items at_start c
  || match c with
     | String _ c' => search_from items false c'
     | EmptyString => false
     end.

(** [input.match(regExp) !== null] for a RegExp without flags. *)
Definition matches (source input : string) : outcome bool :=
  match compile source with
  | Pattern items => Ok (search_from items true input)
  | PSyntaxError => Throw SyntaxError
  | PUnsupported => Unmodelled
  end.

End RegExp.


(** ** lodash *)

Module Lodash.

(** [castPath]: a property path written with dots.  A string that is itself
    a key of the object is one key; bracket syntax is not modelled. *)
Definition castPath (path : string) (object : value) : outcome (list string) :=
  if contains_char "[" path then Unmodelled
  else if negb (contains_char "." path) then Ok [path]
  else match object with
       | VObj _ fs =>
           match lookup path fs with
           | Some _ => Ok [path]
           | None => Ok (split_on "." path)
           end
       | _ => Ok (split_on "." path)
       end.

(** [baseGet]: walk down while the current value is neither null nor
    undefined; a walk that stops early yields undefined. *)
Fixpoint baseGet (object : value) (path : list string) : outcome value :=
  match path with
  | [] => Ok object
  | k :: rest =>
      if is_nullish object then Ok VUndefined
      else obind (js_get object k) (fun v => baseGet v rest)
  end.

(** [_.get(object, path, defaultValue)] *)
Definition get (object : value) (path : string) (defaultValue : value)
  : outcome value :=
  if is_nullish object then Ok defaultValue
  else
    obind (castPath path object) (fun p =>
    obind (baseGet object p) (fun result =>
    Ok (match result with VUndefined => defaultValue | _ => result end))).

(** [_.flatten]: one level. *)
Definition flatten (xs : list value) : list value :=
  flat_map (fun x => match x with VArr ys => ys | _ => [x] end) xs.

(** An object with a numeric [length] is iterated as an array by
    [_.each] / [_.forEach]; that case is not modelled. *)
Definition isArrayLike (fs : list (string * value)) : bool :=
  match lookup "length" fs with
  | Some (VNum n) => Z.leb 0 n
  | _ => false
  end.

(** [_.sortBy] with two iteratees, the first yielding a number and the
    second a boolean.  As in [baseOrderBy], every element is paired with its
    criteria and its index, and the comparer falls back on the index. *)
Record entry : Type := {
  criteria : nat * bool;
  index : nat;
  element : value
}.

(** [compareMultiple]: the criteria in turn ([compareAscending] on numbers,
    then on booleans with [false] before [true]), then the indices. *)
Definition compareMultiple (object other : entry) : comparison :=
  match Nat.compare (fst (criteria object)) (fst (criteria other)) with
  | Eq =>
      match Bool.compare (snd (criteria object)) (snd (criteria other)) with
      | Eq => Nat.compare (index object) (index other)
      | c => c
      end
  | c => c
  end.

(** [Array.prototype.sort(comparer)]: the comparer is a strict total order
    on entries with distinct indices, so the result does not depend on the
    sorting algorithm; insertion is the one written here. *)
Fixpoint insert (e : entry) (l : list entry) : list entry :=
  match l with
  | [] => [e]
  | x :: r =>
      match compareMultiple e x with
      | Gt => x :: insert e r
      | _ => e :: x :: r
      end
  end.

Definition baseSortBy (l : list entry) : list entry := fold_right insert [] l.

Fixpoint decorate (i : nat) (l : list (nat * bool * value)) : list entry :=
  match l with
  | [] => []
  | (n, b, v) :: r =>
      {| criteria := (n, b); index := i; element := v |} :: decorate (S i) r
  end.

Section SortBy.
Variable iteratee1 : value -> outcome nat.
Variable iteratee2 : value -> outcome bool.

Definition criteria_of (v : value) : outcome (nat * bool * value) :=
  obind (iteratee1 v) (fun n => obind (iteratee2 v) (fun b => Ok (n, b, v))).

(** The sorted entries.  The elements of the result of [_.sortBy] are the
    very objects of the collection; the index that an entry keeps is the
    place of its object there. *)
Definition sortBy_entries (collection : list value) : outcome (list entry) :=
  obind (omap criteria_of collection) (fun l =>
  Ok (baseSortBy (decorate 0 l))).

Definition sortBy (collection : list value) : outcome (list value) :=
  obind (sortBy_entries collection) (fun es => Ok (map element es)).
End SortBy.

End Lodash.

(** ** Effects

    A body of code runs over a piece of state, writes events and ends in an
    [outcome]: the state goes in and comes out, the events are only written,
    and an exception keeps the state reached so far. *)

Module Eff.

Section Monad.
Context {S E : Type}.

Definition M (A : Type) : Type := S -> S * list E * outcome A.

Definition ret {A} (a : A) : M A := fun s => (s, [], Ok a).

Definition bind {A B} (m : M A) (f : A -> M B) : M B :=
  fun s =>
    match m s with
    | (s1, evs1, Ok a) =>
        match f a s1 with
        | (s2, evs2, r) => (s2, evs1 ++ evs2, r)
        end
    | (s1, evs1, Throw e) => (s1, evs1, Throw e)
    | (s1, evs1, Unmodelled) => (s1, evs1, Unmodelled)
    end.

Definition lift {A} (o : outcome A) : M A := fun s => (s, [], o).
Definition throw {A} (e : exn) : M A := lift (Throw e).
Definition get : M S := fun s => (s, [], Ok s).
Definition put (s : S) : M unit := fun _ => (s, [], Ok tt).
Definition tell (e : E) : M unit := fun s => (s, [e], Ok tt).
End Monad.
Arguments M : clear implicits.

Declare Scope eff_scope.
Delimit Scope eff_scope with eff.
Notation "x <- m ;; k" := (bind m (fun x => k))
  (at level 61, m at next level, right associativity) : eff_scope.
Notation "m ;; k" := (bind m (fun _ => k))
  (at level 61, right associativity) : eff_scope.
Open Scope eff_scope.

Fixpoint mapM {S E A B} (f : A -> M S E B) (l : list A) : M S E (list B) :=
  match l with
  | [] => ret []
  | x :: r => y <- f x ;; ys <- mapM f r ;; ret (y :: ys)
  end.

Fixpoint forM_ {S E A} (l : list A) (f : A -> M S E unit) : M S E unit :=
  match l with
  | [] => ret tt
  | x :: r => f x ;; forM_ r f
  end.

End Eff.
Import Eff.
Open Scope eff_scope.

(** ** lib/config/index.js *)

Module Config.

(** The [error] of a Joi validation result. *)
Record ValidationError : Type := {
  message : string;
  annotate : string
}.

(** What [update()] leaves behind besides [this._raw]. *)
Inductive event : Type :=
| LogError (text : string)                   (* log.error(text) *)
| Required (moduleName basedir : string).    (* requireLocalModule(...) *)

(** The collaborators of this file.  [schema_validate] is
    [schema.validate] of ./config-schema; it hands back a converted copy of
    the tree, so the export that [require] caches stays the tree it was. *)
Record Env : Type := {
  ConfigFilename : string;                     (* Constants.ConfigFilename *)
  cwd : string;                                      (* process.cwd() *)
  require : string -> option value;                  (* require(file) *)
  call : nat -> list value -> outcome value;         (* calling [VFunc id] *)
  schema_validate : value -> option ValidationError * value;
  defaultsDeep : value -> value -> value;            (* _.defaultsDeep *)
  resolve_sync : string -> string -> option value;   (* resolve.sync, require *)
  browserify : value;                                (* ../assets/browserify *)
  less : value;                                      (* ../assets/less *)
  sass : value                                       (* ../assets/sass *)
}.

(** Modelled from the spec: the constant [Constants.SourceKey] of
    ../constants, which is not among the sources.  The spec names the entry
    [path.source], and [update] itself reads [this._raw.path.source]. *)
Definition SourceKey : string := "source".

Definition dquote : string := String "034"%char "".

(** [valueToFunction] (lines 66-80): a string becomes the RegExp
    [^string], and whatever is not a function becomes a closure over it. *)
Definition valueToFunction (value : value) : outcome Js.value :=
  obind
    (match value with
     | VStr s =>
         match RegExp.compile ("^" ++ s) with
         | RegExp.Pattern _ => Ok (VRegExp ("^" ++ s))
         | RegExp.PSyntaxError => Throw SyntaxError
         | RegExp.PUnsupported => Unmodelled
         end
     | _ => Ok value
     end)
    (fun functionValue =>
       if negb (isFunction functionValue)
       then Ok (VMatcher functionValue)
       else Ok functionValue).

(** A method body runs over [this._raw]. *)
Definition M (A : Type) : Type := Eff.M value event A.
Definition get_raw : M value := Eff.get.
Definition set_raw (v : value) : M unit := Eff.put v.

(** [array.map(f)]; a value without a [map] method cannot be called. *)
Definition array_map (f : value -> M value) (arr : value) : M value :=
  match arr with
  | VArr xs => ys <- mapM f xs ;; ret (VArr ys)
  | VObj _ fs =>
      match lookup "map" fs with
      | None => throw TypeError
      | Some _ => lift Unmodelled
      end
  | _ => throw TypeError
  end.

(** [this._raw[k] = v] and [this._raw[a][k] = v] *)
Definition assign_raw (k : string) (v : value) : M unit :=
  raw <- get_raw ;;
  raw' <- lift (js_set raw k v) ;;
  set_raw raw'.

Definition assign_in (a k : string) (v : value) : M unit :=
  raw <- get_raw ;;
  o <- lift (js_get raw a) ;;
  o' <- lift (js_set o k v) ;;
  raw' <- lift (js_set raw a o') ;;
  set_raw raw'.

(** The two iteratees handed to [_.sortBy]. *)
Definition scope_path_length (defaultObj : value) : outcome nat :=
  obind (Lodash.get defaultObj "scope.path" (VStr "")) (fun p =>
    match p with
    | VStr s => Ok (String.length s)
    | VNull => Throw TypeError
    | _ => Unmodelled
    end).

Definition scope_has_metadata (defaultObj : value) : outcome bool :=
  obind (js_get defaultObj "scope") (fun scope =>
  obind (js_get scope "metadata") (fun metadata =>
  Ok (negb (is_nullish metadata)))).

(** [_.sortBy(this._raw.file.defaults, [...])] (lines 143-146), first with
    the place that every rule has in [file.defaults], then as the array
    that the code holds. *)
Definition sortedDefaults_entries (defaults : value)
  : outcome (list Lodash.entry) :=
  match defaults with
  | VArr xs => Lodash.sortBy_entries scope_path_length scope_has_metadata xs
  | VUndefined | VNull => Ok []
  | _ => Unmodelled
  end.

Definition sortedDefaults (defaults : value) : outcome (list value) :=
  obind (sortedDefaults_entries defaults) (fun es =>
  Ok (map Lodash.element es)).

Section WithEnv.
Variable env : Env.

(** Calling a function value. *)
Definition apply (f : value) (args : list value) : outcome value :=
  match f with
  | VFunc id => call env id args
  | VMatcher regExp =>
      match args with
      | VStr filePath :: _ =>
          match regExp with
          | VRegExp source =>
              obind (RegExp.matches source filePath) (fun b => Ok (VBool b))
          | _ => Unmodelled
          end
      | [] | VUndefined :: _ | VNull :: _ => Throw TypeError
      | _ => Unmodelled
      end
  | VIntrinsic _ => Unmodelled
  | _ => Throw TypeError
  end.

Definition assetProcessors : value :=
  VObj true [("browserify", browserify env);
             ("less", less env);
             ("sass", sass env)].

Definition requireLocalModule (moduleName basedir : string) : M value :=
  tell (Required moduleName basedir) ;;
  match resolve_sync env moduleName basedir with
  | Some m => ret m
  | None => throw (ModuleNotFound moduleName basedir)
  end.

Definition loadConfigFile (root : string) : outcome value :=
  let file := Path.join [root; ConfigFilename env] in
  match require env file with
  | Some exported => Ok exported
  | None => Throw (ModuleNotFound file "")
  end.

Section Update.
Variable root : string.   (* this.root *)

(** Calculate absolute path of 'paths' keys (lines 124-134): first the
    source, then every other key of [this._raw.path]. *)
Definition resolve_source : M unit :=
  raw <- get_raw ;;
  paths <- lift (js_get raw "path") ;;
  configured <- lift (js_get paths SourceKey) ;;
  resolved <- lift (Path.resolve (cwd env) [VStr root; configured]) ;;
  assign_in "path" SourceKey (VStr resolved).

Definition resolve_path_key (key : string) : M unit :=
  if negb (String.eqb key SourceKey) then
    raw <- get_raw ;;
    paths <- lift (js_get raw "path") ;;
    source <- lift (js_get paths "source") ;;
    configured <- lift (js_get paths key) ;;
    resolved <- lift (Path.resolve (cwd env) [source; configured]) ;;
    assign_in "path" key (VStr resolved)
  else ret tt.

Definition each_path : M unit :=
  raw <- get_raw ;;
  paths <- lift (js_get raw "path") ;;
  match paths with
  | VObj _ fs =>
      if Lodash.isArrayLike fs then lift Unmodelled
      else forM_ (keys fs) resolve_path_key
  | _ => lift Unmodelled
  end.

(** The rule objects of the sorted array are those of
    [this._raw.file.defaults]: what the callback below writes into a rule
    shows at once in the stored array, at the place the rule has there. *)
Definition write_rule (place : nat) (rule : value) : M unit :=
  raw <- get_raw ;;
  file <- lift (js_get raw "file") ;;
  defaults <- lift (js_get file "defaults") ;;
  match defaults with
  | VArr xs => assign_in "file" "defaults" (VArr (replace_nth place rule xs))
  | _ => lift Unmodelled
  end.

(** Update each scope path to be absolute relative to source path (lines
    149-157).  The callback writes into the rule it is given and returns
    it. *)
Definition absolute_scope (e : Lodash.entry) : M value :=
  let defaultObj := Lodash.element e in
  scope <- lift (js_get defaultObj "scope") ;;
  scopePath <- lift (js_get scope "path") ;;
  if negb (is_nullish scopePath) then
    raw <- get_raw ;;
    paths <- lift (js_get raw "path") ;;
    source <- lift (js_get paths "source") ;;
    resolved <- lift (Path.resolve (cwd env) [source; scopePath]) ;;
    scope' <- lift (js_set scope "path" (VStr resolved)) ;;
    defaultObj' <- lift (js_set defaultObj "scope" scope') ;;
    write_rule (Lodash.index e) defaultObj' ;;
    ret defaultObj'
  else ret defaultObj.

Definition sort_defaults : M unit :=
  raw <- get_raw ;;
  file <- lift (js_get raw "file") ;;
  defaults <- lift (js_get file "defaults") ;;
  sorted <- lift (sortedDefaults_entries defaults) ;;
  mapped <- mapM absolute_scope sorted ;;
  assign_in "file" "defaults" (VArr mapped).

(** For a given value if it is a string resolve it as if it's an NPM
    module (lines 160-165). *)
Definition resolveMiddlewareModules (moduleVal : value) : M value :=
  match moduleVal with
  | VStr name => requireLocalModule name root
  | _ => ret moduleVal
  end.

(** Ensure all ignore values are functions (line 168). *)
Definition coerce_ignore : M unit :=
  raw <- get_raw ;;
  ignore <- lift (js_get raw "ignore") ;;
  coerced <- array_map (fun v => lift (valueToFunction v)) ignore ;;
  assign_raw "ignore" coerced.

(** Make sure all values are arrays (lines 171-177): the middlewares, then
    every lifecycle entry. *)
Definition resolve_middlewares : M unit :=
  raw <- get_raw ;;
  configured <- lift (js_get raw "middlewares") ;;
  let middlewares := Lodash.flatten [configured] in
  resolved <- mapM resolveMiddlewareModules middlewares ;;
  assign_raw "middlewares" (VArr resolved).

Definition resolve_lifecycle_key (key : string) : M unit :=
  raw <- get_raw ;;
  lifecycle <- lift (js_get raw "lifecycle") ;;
  val <- lift (js_get lifecycle key) ;;
  let newVal := Lodash.flatten [val] in
  resolved <- mapM resolveMiddlewareModules newVal ;;
  assign_in "lifecycle" key (VArr resolved).

Definition resolve_lifecycle : M unit :=
  raw <- get_raw ;;
  lifecycle <- lift (js_get raw "lifecycle") ;;
  match lifecycle with
  | VUndefined | VNull | VBool _ | VNum _ => ret tt
  | VObj _ fs =>
      if Lodash.isArrayLike fs then lift Unmodelled
      else forM_ (keys fs) resolve_lifecycle_key
  | _ => lift Unmodelled
  end.

(** Convert every config.asset.test value to be a function (lines
    180-192).  For [asset.use] the built-in table is read with
    [assetProcessors[useVal]], a property read like any other. *)
Definition resolve_use (useVal : value) : M value :=
  match useVal with
  | VStr name =>
      builtin <- lift (js_get assetProcessors name) ;;
      if truthy builtin then ret builtin
      else requireLocalModule name root
  | _ => ret useVal
  end.

Definition convert_asset (asset : value) : M value :=
  use <- lift (js_get asset "use") ;;
  useVal <- resolve_use use ;;
  test <- lift (js_get asset "test") ;;
  test' <- lift (valueToFunction test) ;;
  ret (VObj true [("test", test'); ("use", useVal)]).

Definition convert_assets : M unit :=
  raw <- get_raw ;;
  assets <- lift (js_get raw "assets") ;;
  converted <- array_map convert_asset assets ;;
  assign_raw "assets" converted.

(** Everything [update()] does once [this._raw] holds the new tree. *)
Definition normalize : M unit :=
  resolve_source ;;
  each_path ;;
  sort_defaults ;;
  coerce_ignore ;;
  resolve_middlewares ;;
  resolve_lifecycle ;;
  convert_assets.

(** Load, call the factory if there is one, validate, fill the defaults
    (lines 105-121): the tree that [this._raw] is set to. *)
Definition load_and_validate : M value :=
  loadedConfig <- lift (loadConfigFile root) ;;
  config <- lift (if isFunction loadedConfig
                  then apply loadedConfig []
                  else Ok loadedConfig) ;;
  let (error, value) := schema_validate env config in
  match error with
  | Some err =>
      tell (LogError (annotate err)) ;;
      throw (Error (ConfigFilename env ++ " validation error: "
                    ++ message err))
  | None =>
      ret (defaultsDeep env value (snd (schema_validate env VUndefined)))
  end.

Definition update_body : M unit :=
  merged <- load_and_validate ;;
  set_raw merged ;;
  normalize.
End Update.
End WithEnv.

(** [get(objectPath)] (lines 203-216): [None] is a call without
    argument. *)
Definition get_body (raw : value) (objectPath : option string)
  : outcome value :=
  match objectPath with
  | None => Ok raw
  | Some p =>
      obind (Lodash.get raw p VUndefined) (fun value =>
        if is_nullish value
        then Throw (Error ("Tried to access config path " ++ dquote ++ p
                           ++ dquote ++ " that does not exist."))
        else Ok value)
  end.

(** The class. *)
Record Config : Type := {
  root : string;
  _raw : value
}.

(** [new Config(root)] *)
Definition new (root : string) : Config :=
  {| root := root; _raw := VObj false [] |}.

Definition update (env : Env) (this : Config)
  : Config * list event * outcome unit :=
  match update_body env (root this) (_raw this) with
  | (raw', evs, r) => ({| root := root this; _raw := raw' |}, evs, r)
  end.

Definition get (this : Config) (objectPath : option string) : outcome value :=
  get_body (_raw this) objectPath.

End Config.

(** ** lib/renderer/renderer.js *)

Module Renderer.

(** What [renderFileWithPlugins] handles: references to objects that hooks
    may write into (a File, a CollectionPage), arrays, and plain values. *)
Inductive rvalue : Type :=
| Ref (address : nat)
| Arr (elems : list rvalue)
| Plain (v : value).

Definition undefined : rvalue := Plain VUndefined.

(** ToBoolean, as in [if (eventBefore)]. *)
Definition given (v : rvalue) : bool :=
  match v with
  | Plain v => truthy v
  | _ => true
  end.

(** The calls that leave the method. *)
Inductive call : Type :=
| Dispatched (eventName : rvalue) (payload : list rvalue)
| Rendered (file siteData : rvalue).

(** [[a, b] = result]: the first two elements of an array, [undefined]
    where it is shorter; a value that cannot be iterated is a TypeError. *)
Definition destructure2 (result : rvalue) : outcome (rvalue * rvalue) :=
  match result with
  | Arr xs => Ok (nth 0 xs undefined, nth 1 xs undefined)
  | Plain VUndefined | Plain VNull | Plain (VBool _) | Plain (VNum _) =>
      Throw TypeError
  | _ => Unmodelled
  end.

Section WithCollaborators.
(** The heap the references point into, together with whatever else hooks
    and renderers can reach. *)
Variable World : Type.
(** [this._pluginManager.eventHandler.processEventHandlers(name, ...payload)],
    awaited: the value the promise resolves to, or its rejection. *)
Variable processEventHandlers :
  rvalue -> list rvalue -> World -> World * outcome rvalue.
(** [file.render(siteData)] *)
Variable render : rvalue -> rvalue -> World -> World * outcome rvalue.

Definition R (A : Type) : Type := Eff.M World call A.

Definition await_dispatch (eventName : rvalue) (payload : list rvalue)
  : R rvalue :=
  fun w =>
    match processEventHandlers eventName payload w with
    | (w', r) => (w', [Dispatched eventName payload], r)
    end.

Definition call_render (file siteData : rvalue) : R rvalue :=
  fun w =>
    match render file siteData w with
    | (w', r) => (w', [Rendered file siteData], r)
    end.

Definition renderFileWithPlugins
  (file siteData eventBefore eventAfter : rvalue) : R (rvalue * rvalue) :=
  (if given eventBefore
   then _ <- await_dispatch eventBefore [file] ;; ret tt
   else ret tt) ;;
  renderedFile <- call_render file siteData ;;
  if given eventAfter then
    result <- await_dispatch eventAfter [file; renderedFile] ;;
    lift (destructure2 result)
  else ret (file, renderedFile).
End WithCollaborators.

End Renderer.

(** ** The example configuration

    The tree that the repository's own reptar.config.js exports.  Its
    functions are opaque: [reptarExcerpt(...)] is [VFunc 1], [htmlMinify] is
    [VFunc 2], [noopMiddleware] is [VFunc 3], and the two methods of the
    sass processor are [VFunc 4] and [VFunc 5]. *)

Module Sample.

Definition obj (fs : list (string * value)) : value := VObj true fs.

Definition ruleA : value :=
  obj [("scope", obj [("path", VStr "./")]);
       ("values", obj [("template", VStr "page");
                       ("permalink", VStr "/:title/")])].

Definition ruleB : value :=
  obj [("scope", obj [("path", VStr "./_posts")]);
       ("values", obj [("template", VStr "post");
                       ("permalink", VStr "/:title/")])].

Definition ruleC : value :=
  obj [("scope", obj [("metadata", obj [("draft", VBool true)])]);
       ("values", obj [("template", VStr "draft")])].

Definition sort_spec : value :=
  obj [("key", VStr "date"); ("order", VStr "descending")].

Definition config : value :=
  obj [
    ("site", obj [("title", VStr "My Reptar Title");
                  ("email", VStr "your-reptar@email.com");
                  ("description",
                     VStr ("Your website's description goes here."
                           ++ String "010"%char ""));
                  ("baseurl", VStr "");
                  ("url", VStr "http://yourdomain.com")]);
    ("path", obj [("source", VStr "./");
                  ("destination", VStr "./_site");
                  ("templates", VStr "./_templates");
                  ("data", VStr "./_data")]);
    ("file", obj [("url_key", VStr "url");
                  ("date_format", VStr "YYYY-M-D");
                  ("defaults", VArr [ruleA; ruleB; ruleC]);
                  ("filters",
                     obj [("metadata", obj [("draft", VBool true)]);
                          ("future_date", obj [("key", VStr "date")])])]);
    ("collections",
       obj [("post", obj [("path", VStr "./_posts");
                          ("template", VStr "index");
                          ("page_size", VNum 6);
                          ("sort", sort_spec);
                          ("permalink", obj [("index", VStr "/");
                                             ("page", VStr "/page/:page/")])]);
            ("tag", obj [("metadata", VStr "tags");
                         ("template", VStr "tag");
                         ("page_size", VNum 6);
                         ("sort", sort_spec);
                         ("permalink",
                            obj [("index", VStr "/tag/:metadata/");
                                 ("page", VStr "/tag/:metadata/:page/")])])]);
    ("assets", VArr [obj [("test", VStr "less"); ("use", VStr "less")];
                     obj [("test", VStr "js"); ("use", VStr "browserify")];
                     obj [("test", VRegExp "\.s[ac]ss$");
                          ("use", obj [("calculateDestination", VFunc 4);
                                       ("write", VFunc 5)])]]);
    ("clean_destination", VBool false);
    ("slug", obj [("lower", VBool true)]);
    ("markdown", obj [("extensions", VArr [VStr "markdown"; VStr "mkdown";
                                           VStr "mkdn"; VStr "mkd"; VStr "md"]);
                      ("options", obj [("preset", VStr "commonmark");
                                       ("highlight", VBool true)])]);
    ("server", obj [("port", VNum 8080);
                    ("host", VStr "127.0.0.1");
                    ("baseurl", VStr "")]);
    ("incremental", VBool true);
    ("new_file_permalink",
       VStr "/_posts/:date|YYYY-:date|MM-:date|D-:title.md");
    ("middlewares", VArr [VStr "reptar-excerpt"; VFunc 1; VFunc 2]);
    ("lifecycle", obj [("willUpdate", VFunc 3);
                       ("didUpdate", VFunc 3);
                       ("willBuild", VFunc 3);
                       ("didBuild", VFunc 3)])
  ].

(** A schema that accepts every tree and supplies an empty [ignore] list,
    which the example leaves out. *)
Definition defaults : value := obj [("ignore", VArr [])].

(** Keys of [src] that [object] lacks are copied: what [_.defaultsDeep] does
    at the top level.  [defaults] has no nested object, so nothing is left
    for the deeper levels. *)
Definition fill (object src : value) : value :=
  match object, src with
  | VObj p fs, VObj _ ds =>
      VObj p (fold_left
                (fun acc kv =>
                   match lookup (fst kv) acc with
                   | None | Some VUndefined => assign (fst kv) (snd kv) acc
                   | Some _ => acc
                   end) ds fs)
  | _, _ => object
  end.

Definition validate (v : value) : option Config.ValidationError * value :=
  match v with
  | VUndefined => (None, defaults)
  | _ => (None, fill v defaults)
  end.

Definition processor (n : nat) : value :=
  obj [("calculateDestination", VFunc n); ("write", VFunc (S n))].

(** The project lives in /srv/site; [installed] tells whether the
    reptar-excerpt package can be found from there. *)
Definition env (installed : bool) (exported : value) : Config.Env :=
  {| Config.ConfigFilename := "reptar.config.js";
     Config.cwd := "/home/user";
     Config.require := fun file =>
       if String.eqb file "/srv/site/reptar.config.js"
       then Some exported else None;
     Config.call := fun _ _ => Ok VUndefined;
     Config.schema_validate := validate;
     Config.defaultsDeep := fill;
     Config.resolve_sync := fun name basedir =>
       if installed && String.eqb name "reptar-excerpt"
          && String.eqb basedir "/srv/site"
       then Some (VFunc 10) else None;
     Config.browserify := processor 20;
     Config.less := processor 30;
     Config.sass := processor 40 |}.

(** A schema that rejects every tree. *)
Definition rejecting (msg : string) (e : Config.Env) : Config.Env :=
  {| Config.ConfigFilename := Config.ConfigFilename e;
     Config.cwd := Config.cwd e;
     Config.require := Config.require e;
     Config.call := Config.call e;
     Config.schema_validate := fun v =>
       (Some {| Config.message := msg; Config.annotate := msg |}, v);
     Config.defaultsDeep := Config.defaultsDeep e;
     Config.resolve_sync := Config.resolve_sync e;
     Config.browserify := Config.browserify e;
     Config.less := Config.less e;
     Config.sass := Config.sass e |}.

(** The store after [update()] on the example, with every module in place. *)
Definition updated : Config.Config :=
  fst (fst (Config.update (env true config) (Config.new "/srv/site"))).

Definition fields_of (v : value) : list (string * value) :=
  match v with
  | VObj _ fs => fs
  | _ => []
  end.

(** A store with one entry of every kind that [get] tells apart. *)
Definition falsy_store : Config.Config :=
  {| Config.root := "/srv/site";
     Config._raw := obj [("nothing", VNull);
                         ("no", VBool false);
                         ("zero", VNum 0);
                         ("empty", VStr "")] |}.

End Sample.

(** ** An example plugin manager

    The world maps the address of a file to its title.  The before-hook
    writes a title into the file it is given and resolves to some other
    object; the after-hook resolves to another file and a reworked page. *)

Module RenderSample.
Import Renderer.

Definition World : Type := list (nat * string).

Fixpoint title_of (address : nat) (w : World) : string :=
  match w with
  | [] => "untitled"
  | (a, t) :: r => if Nat.eqb a address then t else title_of address r
  end.

Definition processEventHandlers (eventName : rvalue) (payload : list rvalue)
  (w : World) : World * outcome rvalue :=
  match payload with
  | [Ref a] => ((a, "edited") :: w, Ok (Ref 99))
  | [_; Plain (VStr html)] =>
      (w, Ok (Arr [Ref 2; Plain (VStr (html ++ "<!-- min -->"))]))
  | _ => (w, Throw TypeError)
  end.

Definition render (file siteData : rvalue) (w : World)
  : World * outcome rvalue :=
  match file with
  | Ref a => (w, Ok (Plain (VStr ("<h1>" ++ title_of a w ++ "</h1>"))))
  | _ => (w, Throw TypeError)
  end.

Definition run := renderFileWithPlugins World processEventHandlers render.

End RenderSample.

(** ** Vocabulary of the statements *)

(** A string without any syntax character of the pattern language. *)
Fixpoint plain_string (s : string) : bool :=
  match s with
  | EmptyString => true
  | String c r => negb (RegExp.is_syntax_char c) && plain_string r
  end.

(** The pattern that matches [s] character by character. *)
Fixpoint literals (s : string) : list RegExp.item :=
  match s with
  | EmptyString => []
  | String c r => RegExp.IAtom (RegExp.AChar c) RegExp.QOne :: literals r
  end.

(** The composite sort key of a default rule: the length of [scope.path]
    (0 without a path), then whether [scope.metadata] is there. *)
Definition rule_key (rule : value) : outcome (nat * bool) :=
  obind (Config.scope_path_length rule) (fun n =>
  obind (Config.scope_has_metadata rule) (fun b => Ok (n, b))).

(** Ascending order on keys, the first component first. *)
Definition key_le (k1 k2 : nat * bool) : Prop :=
  fst k1 < fst k2
  \/ (fst k1 = fst k2 /\ Nat.b2n (snd k1) <= Nat.b2n (snd k2)).

Definition key_eqb (k1 k2 : nat * bool) : bool :=
  Nat.eqb (fst k1) (fst k2) && Bool.eqb (snd k1) (snd k2).

Definition has_key (k : nat * bool) (rule : value) : bool :=
  match rule_key rule with
  | Ok k' => key_eqb k k'
  | _ => false
  end.

(** The order that [compareMultiple] decides, and the order of the indices. *)
Definition entry_lt (a b : Lodash.entry) : Prop :=
  Lodash.compareMultiple a b = Lt.
Definition index_lt (a b : Lodash.entry) : Prop :=
  Lodash.index a < Lodash.index b.

(** A key that [_.get] takes as one property name. *)
Definition simple_key (k : string) : bool :=
  negb (contains_char "[" k) && negb (contains_char "." k).

(** A body of code keeps a property of the state, however it ends. *)
Definition preserves {S E A} (P : S -> Prop) (m : Eff.M S E A) : Prop :=
  forall s s' evs r, P s -> m s = (s', evs, r) -> P s'.

(** [this._raw] is an object whose own [path] entry is the object with the
    fields [cur]. *)
Definition has_paths (pp : bool) (cur : list (string * value)) (raw : value)
  : Prop :=
  exists p rf, raw = VObj p rf /\ lookup "path" rf = Some (VObj pp cur).

(** The configured tree: what [update()] has loaded, validated and filled
    with defaults at the moment it stores it, before any normalisation. *)
Definition configured (env : Config.Env) (root : string) : outcome value :=
  snd (Config.load_and_validate env root VUndefined).

(** What the loading stage writes to the log. *)
Definition load_events (env : Config.Env) (root : string) : list Config.event :=
  snd (fst (Config.load_and_validate env root VUndefined)).

(** The message of the error that [get] throws for [objectPath]. *)
Definition not_found_message (objectPath : string) : string :=
  "Tried to access config path " ++ Config.dquote ++ objectPath
  ++ Config.dquote ++ " that does not exist.".


(** An entry carries the key of its rule. *)
Definition keyed (e : Lodash.entry) : Prop :=
  rule_key (Lodash.element e) = Ok (Lodash.criteria e).

(** What [this._raw], an object, holds as its own entry [k]: a value or
    nothing; and an own entry of one of its objects. *)
Definition entry_is (k : string) (ov : option value) (raw : value) : Prop :=
  exists p rf, raw = VObj p rf /\ lookup k rf = ov.

Definition has_entry (k : string) (v : value) (raw : value) : Prop :=
  entry_is k (Some v) raw.

Definition has_in (a k : string) (v : value) (raw : value) : Prop :=
  exists p rf q gs,
    raw = VObj p rf /\ lookup a rf = Some (VObj q gs) /\ lookup k gs = Some v.

(** Every event that a body of code writes satisfies [Q], however it ends. *)
Definition emits {S E A} (Q : E -> Prop) (m : Eff.M S E A) : Prop :=
  forall s s' evs r, m s = (s', evs, r) -> Forall Q evs.

(** The entries of the tree that [update()] writes to. *)
Definition normalised_keys : list string :=
  ["path"; "file"; "ignore"; "middlewares"; "lifecycle"; "assets"].

(** The module lookups that a list of middleware values asks for, and what
    a value is resolved to. *)
Definition lookups (root : string) (xs : list value) : list Config.event :=
  flat_map (fun x => match x with
                     | VStr name => [Config.Required name root]
                     | _ => []
                     end) xs.

Definition resolved_as (env : Config.Env) (root : string) (x r : value)
  : Prop :=
  match x with
  | VStr name => Config.resolve_sync env name root = Some r
  | _ => r = x
  end.

(** [y] is the rule [x] with its scope path resolved against [source], or
    [x] itself when it has no scope path. *)
Definition rule_resolved (cwd source : string) (x y : value) : Prop :=
  exists scope scopePath,
    js_get x "scope" = Ok scope
    /\ js_get scope "path" = Ok scopePath
    /\ ((is_nullish scopePath = true /\ y = x)
        \/ (is_nullish scopePath = false
            /\ exists r scope',
                 Path.resolve cwd [VStr source; scopePath] = Ok r
                 /\ js_set scope "path" (VStr r) = Ok scope'
                 /\ js_set x "scope" scope' = Ok y)).

(** [y] is what [update()] makes of the asset rule [x]: an object with a
    predicate as its [test] and with its [use], and nothing else. *)
Definition asset_converted (x y : value) : Prop :=
  exists test f use,
    js_get x "test" = Ok test
    /\ Config.valueToFunction test = Ok f
    /\ isFunction f = true
    /\ y = VObj true [("test", f); ("use", use)].

(** ** More example trees *)

Module More.

(** The example with three ignore entries, a nested middleware list and an
    asset rule that carries an extra key. *)
Definition config : value :=
  VObj true
    (assign "assets"
       (VArr [Sample.obj [("test", VStr "less"); ("use", VStr "less");
                          ("comment", VStr "styles")]])
       (assign "middlewares"
          (VArr [VStr "reptar-excerpt"; VFunc 1;
                 VArr [VStr "reptar-html-minifier"]])
          (assign "ignore"
             (VArr [VStr "_drafts"; VRegExp "\.tmp$"; VFunc 7])
             (Sample.fields_of Sample.config)))).

Definition env : Config.Env := Sample.env true config.

Definition updated : Config.Config :=
  fst (fst (Config.update env (Config.new "/srv/site"))).

(** The example with an absolute destination. *)
Definition absolute : value :=
  VObj true
    (assign "path"
       (Sample.obj [("source", VStr "./");
                    ("destination", VStr "/var/www//site/")])
       (Sample.fields_of Sample.config)).

Definition absolute_updated : Config.Config :=
  fst (fst (Config.update (Sample.env true absolute)
              (Config.new "/srv/site"))).

End More.

(** The scope path of a rule, when it has one, is an absolute path. *)
Definition scope_path_absolute (rule : value) : Prop :=
  exists scope scopePath,
    js_get rule "scope" = Ok scope
    /\ js_get scope "path" = Ok scopePath
    /\ (is_nullish scopePath = true
        \/ exists s, scopePath = VStr s /\ Path.is_absolute s = true).

(** A module lookup starts from [root]; a log line is of no concern. *)
Definition from_root (root : string) (e : Config.event) : Prop :=
  match e with
  | Config.Required _ basedir => basedir = root
  | Config.LogError _ => True
  end.

(** ** Collaborators that fail *)

Module RenderFailing.
Import Renderer.

(** The hook of the event "broken" rejects, the one of "empty" resolves to
    an empty array, the one of "one" to an array of one file, the one of
    "nothing" to undefined; every other event hands the payload back.  A
    file at address 0 cannot be rendered. *)
Definition processEventHandlers (eventName : rvalue) (payload : list rvalue)
  (w : nat) : nat * outcome rvalue :=
  match eventName with
  | Plain (VStr name) =>
      if String.eqb name "broken" then (S w, Throw (Error "hook failed"))
      else if String.eqb name "empty" then (S w, Ok (Arr []))
      else if String.eqb name "one" then (S w, Ok (Arr [Ref 5]))
      else if String.eqb name "nothing" then (S w, Ok undefined)
      else (S w, Ok (Arr payload))
  | _ => (w, Throw TypeError)
  end.

Definition render (file siteData : rvalue) (w : nat) : nat * outcome rvalue :=
  match file with
  | Ref 0 => (w, Throw (Error "cannot render"))
  | _ => (w, Ok (Plain (VStr "<html>")))
  end.

Definition run := renderFileWithPlugins nat processEventHandlers render.

End RenderFailing.

(** The PRE phase of [renderFileWithPlugins] is over, in the world [w0]:
    there was no event to dispatch, or its dispatch resolved. *)
Definition pre_done {World : Type}
  (processEventHandlers :
     Renderer.rvalue -> list Renderer.rvalue -> World
     -> World * outcome Renderer.rvalue)
  (eventBefore file : Renderer.rvalue) (w w0 : World) : Prop :=
  (Renderer.given eventBefore = false /\ w0 = w)
  \/ (Renderer.given eventBefore = true
      /\ exists ignored,
           processEventHandlers eventBefore [file] w = (w0, Ok ignored)).

Definition pre_calls (eventBefore file : Renderer.rvalue)
  : list Renderer.call :=
  if Renderer.given eventBefore
  then [Renderer.Dispatched eventBefore [file]]
  else [].

(** ** Finding the configuration file (lines 29-48, 83-96) *)

Fixpoint drop (n : nat) (s : string) : string :=
  match n, s with
  | O, _ => s
  | S m, String _ r => drop m r
  | S _, EmptyString => EmptyString
  end.

(** [s.replace(pattern, '')] for a string [pattern]: the first occurrence
    of [pattern] is cut out, and [s] is handed back when there is none. *)
Fixpoint replace_first (pattern s : string) : string :=
  if String.prefix pattern s then drop (String.length pattern) s
  else match s with
       | EmptyString => EmptyString
       | String c r => String c (replace_first pattern r)
       end.

Module Locate.
Section WithFindUp.
Variable env : Config.Env.
(** [findUp.sync(name)]: the path of the nearest file of that name in the
    working directory or above it, [None] for null. *)
Variable findUp_sync : string -> option string.

Definition findLocal : outcome string :=
  match findUp_sync (Config.ConfigFilename env) with
  | Some configYmlPath =>
      if String.eqb configYmlPath ""
      then Throw (Error ("No '" ++ Config.ConfigFilename env
                         ++ "' file found."))
      else Ok configYmlPath
  | None =>
      Throw (Error ("No '" ++ Config.ConfigFilename env ++ "' file found."))
  end.

Definition findLocalDir : outcome string :=
  obind findLocal (fun configYmlPath =>
    Ok (replace_first (Config.ConfigFilename env) configYmlPath)).

(** [new Config(root)], [None] for a call without [root]: the default
    value is computed only then. *)
Definition construct (root : option string) : outcome Config.Config :=
  match root with
  | Some root => Ok (Config.new root)
  | None => obind findLocalDir (fun root => Ok (Config.new root))
  end.
End WithFindUp.
End Locate.

(** [needle] occurs somewhere in [s]. *)
Fixpoint occurs (needle s : string) : bool :=
  String.prefix needle s
  || match s with
     | EmptyString => false
     | String _ r => occurs needle r
     end.

(** A name of a file or directory: not empty, without separator, and
    neither [.] nor [..]. *)
Definition segment_name (s : string) : bool :=
  negb (String.eqb s "") && negb (String.eqb s ".")
  && negb (String.eqb s "..") && negb (contains_char "/" s).

(** The absolute path of the directory reached through [dirs], with its
    closing separator: [/] for the root, [/a/b/] for [a; b]. *)
Definition directories (dirs : list string) : string :=
  fold_right (fun d rest => (d ++ "/" ++ rest)%string) ""%string dirs.

Definition directory (dirs : list string) : string :=
  ("/" ++ directories dirs)%string.

(** ** The renderer and its engines (renderer.js, lines 13-50) *)

Module RendererClass.
Section WithEngines.
(** Whatever the two factories can reach. *)
Variable World : Type.
(** A markdown engine, a template environment, a plugin manager. *)
Variable Engine Environment PluginManager : Type.
(** [createMarkdownEngine(options)] of ./markdown *)
Variable createMarkdownEngine : value -> World -> World * outcome Engine.
(** [configureTemplateEngine({ config, paths, noCache })] of ./template *)
Variable configureTemplateEngine :
  option Config.Config -> value -> value -> World
  -> World * outcome Environment.

(** The instance.  [None] is a member that holds [undefined].  The members
    [renderMarkdown], [renderTemplate], [renderTemplateString] and
    [addTemplateFilter] hold an imported function bound to a first
    argument: they are given by that argument. *)
Record Renderer : Type := {
  _config : option Config.Config;
  _pluginManager : option PluginManager;
  _md : option Engine;
  renderMarkdown : option Engine;
  _nunjucksEnv : option Environment;
  renderTemplate : option Environment;
  renderTemplateString : option Environment;
  addTemplateFilter : option Environment
}.

(** [new Renderer({ config, pluginManager })] *)
Definition new (config : option Config.Config)
  (pluginManager : option PluginManager) : Renderer :=
  {| _config := config; _pluginManager := pluginManager;
     _md := None; renderMarkdown := None;
     _nunjucksEnv := None; renderTemplate := None;
     renderTemplateString := None; addTemplateFilter := None |}.

(** The calls that leave [update]. *)
Inductive call : Type :=
| CreateMarkdownEngine (options : value)
| ConfigureTemplateEngine (config : option Config.Config)
    (paths noCache : value).

Definition M (A : Type) : Type := Eff.M (World * Renderer) call A.

Definition this : M Renderer := fun s => (s, [], Ok (snd s)).

Definition assign (f : Renderer -> Renderer) : M unit :=
  fun s => ((fst s, f (snd s)), [], Ok tt).

(** [this._config.<member>]: a TypeError when there is no config. *)
Definition this_config : M Config.Config :=
  r <- this ;;
  match _config r with
  | Some config => ret config
  | None => throw TypeError
  end.

Definition call_createMarkdownEngine (options : value) : M Engine :=
  fun s =>
    match createMarkdownEngine options (fst s) with
    | (w', r) => ((w', snd s), [CreateMarkdownEngine options], r)
    end.

Definition call_configureTemplateEngine (config : option Config.Config)
  (paths noCache : value) : M Environment :=
  fun s =>
    match configureTemplateEngine config paths noCache (fst s) with
    | (w', r) =>
        ((w', snd s), [ConfigureTemplateEngine config paths noCache], r)
    end.

(** [update({ noTemplateCache, templatePaths })] (lines 27-46) *)
Definition update (arg : value) : M unit :=
  noTemplateCache <- lift (js_get arg "noTemplateCache") ;;
  templatePaths <- lift (js_get arg "templatePaths") ;;
  config <- this_config ;;
  options <- lift (Config.get config (Some "markdown.options")) ;;
  md <- call_createMarkdownEngine options ;;
  assign (fun r =>
    {| _config := _config r; _pluginManager := _pluginManager r;
       _md := Some md; renderMarkdown := renderMarkdown r;
       _nunjucksEnv := _nunjucksEnv r; renderTemplate := renderTemplate r;
       renderTemplateString := renderTemplateString r;
       addTemplateFilter := addTemplateFilter r |}) ;;
  r <- this ;;
  assign (fun r' =>
    {| _config := _config r'; _pluginManager := _pluginManager r';
       _md := _md r'; renderMarkdown := _md r;
       _nunjucksEnv := _nunjucksEnv r'; renderTemplate := renderTemplate r';
       renderTemplateString := renderTemplateString r';
       addTemplateFilter := addTemplateFilter r' |}) ;;
  r <- this ;;
  nunjucksEnv <-
    call_configureTemplateEngine (_config r) templatePaths noTemplateCache ;;
  assign (fun r =>
    {| _config := _config r; _pluginManager := _pluginManager r;
       _md := _md r; renderMarkdown := renderMarkdown r;
       _nunjucksEnv := Some nunjucksEnv; renderTemplate := renderTemplate r;
       renderTemplateString := renderTemplateString r;
       addTemplateFilter := addTemplateFilter r |}) ;;
  r <- this ;;
  assign (fun r' =>
    {| _config := _config r'; _pluginManager := _pluginManager r';
       _md := _md r'; renderMarkdown := renderMarkdown r';
       _nunjucksEnv := _nunjucksEnv r'; renderTemplate := _nunjucksEnv r;
       renderTemplateString := renderTemplateString r';
       addTemplateFilter := addTemplateFilter r' |}) ;;
  r <- this ;;
  assign (fun r' =>
    {| _config := _config r'; _pluginManager := _pluginManager r';
       _md := _md r'; renderMarkdown := renderMarkdown r';
       _nunjucksEnv := _nunjucksEnv r'; renderTemplate := renderTemplate r';
       renderTemplateString := _nunjucksEnv r;
       addTemplateFilter := addTemplateFilter r' |}) ;;
  r <- this ;;
  assign (fun r' =>
    {| _config := _config r'; _pluginManager := _pluginManager r';
       _md := _md r'; renderMarkdown := renderMarkdown r';
       _nunjucksEnv := _nunjucksEnv r'; renderTemplate := renderTemplate r';
       renderTemplateString := renderTemplateString r';
       addTemplateFilter := _nunjucksEnv r |}).

(** [getMarkdownEngine()] (lines 48-50) *)
Definition getMarkdownEngine (r : Renderer) : option Engine := _md r.

(** One call of [update] after the other, each on what the one before
    left, whether it returned or threw. *)
Definition updates (args : list value) (s : World * Renderer)
  : World * Renderer :=
  fold_left (fun s arg => fst (fst (update arg s))) args s.

End WithEngines.
End RendererClass.

(** Every bound member of the renderer holds the engine or environment
    that the instance stores. *)
Definition bound_to_stored {Engine Environment PluginManager : Type}
  (r : RendererClass.Renderer Engine Environment PluginManager) : Prop :=
  RendererClass.renderMarkdown _ _ _ r = RendererClass._md _ _ _ r
  /\ RendererClass.renderTemplate _ _ _ r = RendererClass._nunjucksEnv _ _ _ r
  /\ RendererClass.renderTemplateString _ _ _ r
     = RendererClass._nunjucksEnv _ _ _ r
  /\ RendererClass.addTemplateFilter _ _ _ r
     = RendererClass._nunjucksEnv _ _ _ r.

(** Engines for the examples: a markdown engine is known by its options, a
    template environment by its number; no environment can be configured
    without template paths. *)
Module EngineSample.

Definition createMarkdownEngine (options : value) (w : nat)
  : nat * outcome value :=
  (S w, Ok options).

Definition configureTemplateEngine (config : option Config.Config)
  (paths noCache : value) (w : nat) : nat * outcome nat :=
  match paths with
  | VArr (_ :: _) => (S w, Ok w)
  | _ => (w, Throw (Error "no template paths"))
  end.

Definition new (config : option Config.Config)
  : RendererClass.Renderer value nat unit :=
  RendererClass.new value nat unit config None.

Definition update (arg : value)
  : RendererClass.M nat value nat unit unit :=
  RendererClass.update nat value nat unit
    createMarkdownEngine configureTemplateEngine arg.

Definition templates : value :=
  Sample.obj [("noTemplateCache", VBool true);
              ("templatePaths", VArr [VStr "/srv/site/_templates"])].

Definition no_templates : value :=
  Sample.obj [("noTemplateCache", VBool true)].

End EngineSample.

(** * Properties *)

(** ** Worked examples *)

Example resolve_relative :
  Path.resolve "/home/u" [VStr "/srv/site"; VStr "./_posts"]
  = Ok "/srv/site/_posts".
Proof. reflexivity. Qed.

Example resolve_dots :
  Path.resolve "/home/u" [VStr "site/"; VStr "../a/./b//c/.."]
  = Ok "/home/u/a/b".
Proof. reflexivity. Qed.

Example join_config :
  Path.join ["/srv/site/"; "reptar.config.js"] = "/srv/site/reptar.config.js".
Proof. reflexivity. Qed.

Example regexp_anchor : RegExp.matches "^foo" "foobar" = Ok true.
Proof. reflexivity. Qed.

Example regexp_unanchored : RegExp.matches "o+b" "foobar" = Ok true.
Proof. reflexivity. Qed.

Example regexp_end : RegExp.matches "\.js$" "a/b.js" = Ok true.
Proof. reflexivity. Qed.

Example regexp_end_miss : RegExp.matches "\.js$" "a/bxjs" = Ok false.
Proof. reflexivity. Qed.

Example regexp_nothing_to_repeat : RegExp.matches "^*" "x" = Throw SyntaxError.
Proof. reflexivity. Qed.

Example sample_update_succeeds :
  snd (Config.update (Sample.env true Sample.config) (Config.new "/srv/site"))
  = Ok tt.
Proof. vm_compute. reflexivity. Qed.

(** ** MatcherCompiler: [valueToFunction] *)

Lemma emit_pattern its rest :
  RegExp.emit its (RegExp.Pattern rest) = RegExp.Pattern (its ++ rest).
Proof. reflexivity. Qed.

Lemma plain_char_cases c :
  RegExp.is_syntax_char c = false ->
  RegExp.is_quantifier c = false /\ Ascii.eqb c "^" = false
  /\ Ascii.eqb c "$" = false /\ Ascii.eqb c "." = false
  /\ Ascii.eqb c "\" = false.
Proof.
  unfold RegExp.is_syntax_char, RegExp.is_quantifier. simpl.
  intros H. repeat (apply orb_false_iff in H; destruct H as [? H]).
  repeat split; try assumption.
  repeat (apply orb_false_iff; split); assumption.
Qed.

(** A plain string parses to its own characters, whatever was pending. *)
Lemma parse_plain s : forall pend,
  plain_string s = true ->
  RegExp.parse pend s = RegExp.Pattern (RegExp.flush pend ++ literals s).
Proof.
  induction s as [|c s IH]; intros pend H; simpl in *.
  - now rewrite app_nil_r.
  - apply andb_true_iff in H. destruct H as [Hc Hs].
    apply negb_true_iff in Hc.
    destruct (plain_char_cases c Hc) as (Hq & H1 & H2 & H3 & H4).
    rewrite Hq, H1, H2, H3, H4, Hc.
    rewrite (IH _ Hs). reflexivity.
Qed.

Lemma compile_anchored_plain s :
  plain_string s = true ->
  RegExp.compile ("^" ++ s) = RegExp.Pattern (RegExp.IStart :: literals s).
Proof.
  intros H. unfold RegExp.compile. simpl.
  rewrite (parse_plain s RegExp.PendNone H). reflexivity.
Qed.

Lemma match_literals s : forall b c,
  RegExp.match_here (literals s) b c = String.prefix s c.
Proof.
  induction s as [|a s IH]; intros b c; simpl.
  - now destruct c.
  - destruct c as [|x c]; [reflexivity|]. simpl.
    destruct (ascii_dec a x) as [->|Hne].
    + rewrite Ascii.eqb_refl. simpl. apply IH.
    + destruct (Ascii.eqb_spec x a) as [->|_]; [congruence | reflexivity].
Qed.

(** After [^] a match can only begin where the input begins. *)
Lemma search_anchored_later its c :
  RegExp.search_from (RegExp.IStart :: its) false c = false.
Proof. induction c as [|x c IH]; simpl; [reflexivity | exact IH]. Qed.

Lemma search_anchored its c :
  RegExp.search_from (RegExp.IStart :: its) true c
  = RegExp.match_here its true c.
Proof.
  destruct c as [|x c]; simpl.
  - now rewrite orb_false_r.
  - now rewrite search_anchored_later, orb_false_r.
Qed.

Lemma matches_anchored_plain s c :
  plain_string s = true ->
  RegExp.matches ("^" ++ s) c = Ok (String.prefix s c).
Proof.
  intros H. unfold RegExp.matches. rewrite (compile_anchored_plain s H).
  now rewrite search_anchored, match_literals.
Qed.

(** C3, as amended.  [valueToFunction] turns the string [s] into the regular
    expression [^s]; when [s] has no syntax character of the pattern language
    the predicate it yields answers true exactly on the candidates that start
    with [s]. *)
Theorem valueToFunction_plain_string_is_prefix_test env s :
  plain_string s = true ->
  exists f,
    Config.valueToFunction (VStr s) = Ok f
    /\ forall c, Config.apply env f [VStr c] = Ok (VBool (String.prefix s c)).
Proof.
  intros H. exists (VMatcher (VRegExp ("^" ++ s))). split.
  - unfold Config.valueToFunction.
    rewrite (compile_anchored_plain s H). reflexivity.
  - intros c. unfold Config.apply.
    rewrite (matches_anchored_plain s c H). reflexivity.
Qed.

Lemma valueToFunction_plain_string_is_prefix_test_witness :
  plain_string "foo" = true
  /\ exists f,
       Config.valueToFunction (VStr "foo") = Ok f
       /\ forall c,
            Config.apply (Sample.env true Sample.config) f [VStr c]
            = Ok (VBool (String.prefix "foo" c)).
Proof.
  split; [reflexivity|].
  apply (valueToFunction_plain_string_is_prefix_test
           (Sample.env true Sample.config) "foo").
  reflexivity.
Defined.

(** The two cases that the specification lists. *)
Example valueToFunction_foo env :
  Config.valueToFunction (VStr "foo") = Ok (VMatcher (VRegExp "^foo"))
  /\ Config.apply env (VMatcher (VRegExp "^foo")) [VStr "foobar"]
     = Ok (VBool true)
  /\ Config.apply env (VMatcher (VRegExp "^foo")) [VStr "barfoo"]
     = Ok (VBool false).
Proof. repeat split. Qed.

(** C3 fails as stated: the string ["."] yields a predicate that accepts
    ["x"], which does not start with a dot. *)
Lemma valueToFunction_dot_is_wildcard :
  Config.valueToFunction (VStr ".") = Ok (VMatcher (VRegExp "^."))
  /\ Config.apply (Sample.env true Sample.config)
       (VMatcher (VRegExp "^.")) [VStr "x"] = Ok (VBool true)
  /\ String.prefix "." "x" = false.
Proof. repeat split. Qed.

(** Two more ways in which a string is not taken literally. *)
Example valueToFunction_star env :
  Config.valueToFunction (VStr "a*") = Ok (VMatcher (VRegExp "^a*"))
  /\ Config.apply env (VMatcher (VRegExp "^a*")) [VStr "b"] = Ok (VBool true)
  /\ String.prefix "a*" "b" = false.
Proof. repeat split. Qed.

Example valueToFunction_throws :
  Config.valueToFunction (VStr "*.js") = Throw SyntaxError.
Proof. reflexivity. Qed.

(** A function passes through as it is, a RegExp is wrapped. *)
Lemma valueToFunction_function v :
  isFunction v = true -> Config.valueToFunction v = Ok v.
Proof.
  intros H. unfold Config.valueToFunction.
  destruct v; simpl in *; try discriminate; try reflexivity.
  now rewrite H.
Qed.

Lemma valueToFunction_regexp source :
  Config.valueToFunction (VRegExp source) = Ok (VMatcher (VRegExp source)).
Proof. reflexivity. Qed.

(** ** DefaultsResolver: the sort of [file.defaults] *)

Section Sorting.
Import Lodash.

Lemma compareMultiple_Lt a b :
  compareMultiple a b = Lt <->
  fst (criteria a) < fst (criteria b)
  \/ (fst (criteria a) = fst (criteria b)
      /\ (Nat.b2n (snd (criteria a)) < Nat.b2n (snd (criteria b))
          \/ (snd (criteria a) = snd (criteria b) /\ index a < index b))).
Proof.
  unfold compareMultiple.
  destruct (Nat.compare_spec (fst (criteria a)) (fst (criteria b))) as [E|L|G].
  - destruct (snd (criteria a)), (snd (criteria b)); simpl;
      try (rewrite Nat.compare_lt_iff);
      split; intros H;
      try discriminate;
      try (right; split; [exact E|]; auto; simpl; lia);
      try (destruct H as [H|[_ [H|[H1 H]]]]; simpl in *;
           try lia; try discriminate; auto).
  - split; [intros _; now left | reflexivity].
  - split; [discriminate | intros [H|[H _]]; lia].
Qed.

Lemma compareMultiple_Gt a b :
  compareMultiple a b = Gt -> compareMultiple b a = Lt.
Proof.
  intros H. apply compareMultiple_Lt. revert H. unfold compareMultiple.
  destruct (Nat.compare_spec (fst (criteria a)) (fst (criteria b))) as [E|L|G].
  - destruct (snd (criteria a)), (snd (criteria b)); simpl;
      try discriminate;
      try (rewrite Nat.compare_gt_iff; intros H; right; split; [now symmetry|];
           right; split; [reflexivity | exact H]).
    intros _. right. split; [now symmetry|]. left. simpl. lia.
  - discriminate.
  - intros _. now left.
Qed.

Lemma compareMultiple_Eq a b :
  compareMultiple a b = Eq -> index a = index b.
Proof.
  unfold compareMultiple.
  destruct (Nat.compare_spec (fst (criteria a)) (fst (criteria b)));
    try discriminate.
  destruct (snd (criteria a)), (snd (criteria b)); simpl; try discriminate;
    apply Nat.compare_eq_iff.
Qed.

Lemma entry_lt_trans a b c : entry_lt a b -> entry_lt b c -> entry_lt a c.
Proof.
  unfold entry_lt. rewrite !compareMultiple_Lt.
  destruct (snd (criteria a)), (snd (criteria b)), (snd (criteria c));
    simpl; intros H1 H2;
    destruct H1 as [H1|[E1 [H1|[F1 H1]]]];
    destruct H2 as [H2|[E2 [H2|[F2 H2]]]];
    try discriminate; try lia;
    try (left; lia);
    try (right; split; [lia|]; left; lia);
    try (right; split; [lia|]; right; split; [reflexivity | lia]).
Qed.

Lemma entry_lt_key_le a b :
  entry_lt a b -> key_le (criteria a) (criteria b).
Proof.
  unfold entry_lt, key_le. rewrite compareMultiple_Lt.
  intros [H|[E [H|[F _]]]]; [now left | right; split; [exact E | lia] |].
  right. split; [exact E|]. rewrite F. lia.
Qed.

Lemma entry_lt_same_key a b :
  entry_lt a b -> criteria a = criteria b -> index_lt a b.
Proof.
  unfold entry_lt, index_lt. rewrite compareMultiple_Lt.
  intros H E. rewrite E in H.
  destruct H as [H|[_ [H|[_ H]]]]; [lia | lia | exact H].
Qed.

(** Insertion keeps the elements and the order. *)
Lemma insert_perm e l : Permutation (insert e l) (e :: l).
Proof.
  induction l as [|x r IH]; simpl; [reflexivity|].
  destruct (compareMultiple e x); try reflexivity.
  rewrite IH. apply perm_swap.
Qed.

Lemma baseSortBy_perm l : Permutation (baseSortBy l) l.
Proof.
  induction l as [|e r IH]; simpl; [reflexivity|].
  rewrite insert_perm. now constructor.
Qed.

Lemma insert_sorted e l :
  StronglySorted entry_lt l ->
  Forall (fun x => index x <> index e) l ->
  StronglySorted entry_lt (insert e l).
Proof.
  induction l as [|x r IH]; intros Hs Hd; simpl.
  - repeat constructor.
  - apply StronglySorted_inv in Hs. destruct Hs as [Hr Hx].
    inversion Hd as [|? ? Hxe Hd']; subst.
    assert (Hbelow : entry_lt e x -> StronglySorted entry_lt (e :: x :: r)).
    { intros Hlt. constructor; [now constructor|].
      constructor; [exact Hlt|].
      eapply Forall_impl; [|exact Hx].
      intros y Hy. eapply entry_lt_trans; eassumption. }
    destruct (compareMultiple e x) eqn:Hc.
    + apply compareMultiple_Eq in Hc. congruence.
    + now apply Hbelow.
    + constructor; [now apply IH|].
      apply (Permutation_Forall (Permutation_sym (insert_perm e r))).
      constructor; [now apply compareMultiple_Gt | exact Hx].
Qed.

Lemma baseSortBy_sorted l :
  StronglySorted index_lt l -> StronglySorted entry_lt (baseSortBy l).
Proof.
  induction l as [|e r IH]; intros Hs; simpl; [constructor|].
  apply StronglySorted_inv in Hs. destruct Hs as [Hr He].
  apply insert_sorted; [now apply IH|].
  apply (Permutation_Forall (Permutation_sym (baseSortBy_perm r))).
  eapply Forall_impl; [|exact He].
  unfold index_lt. intros x Hx. lia.
Qed.

(** The entries that [baseOrderBy] builds carry increasing indices. *)
Lemma decorate_indices l : forall i,
  Forall (fun e => i <= index e) (decorate i l)
  /\ StronglySorted index_lt (decorate i l).
Proof.
  induction l as [|[[n b] v] r IH]; intros i; simpl.
  - split; constructor.
  - destruct (IH (S i)) as [Hge Hs]. split.
    + constructor; [simpl; lia|].
      eapply Forall_impl; [|exact Hge]. simpl. intros; lia.
    + constructor; [exact Hs|].
      eapply Forall_impl; [|exact Hge].
      unfold index_lt. simpl. intros; lia.
Qed.
End Sorting.

(** Facts on lists that the stability argument needs. *)
Section ListFacts.
Context {A : Type}.

Lemma Permutation_filter (f : A -> bool) l l' :
  Permutation l l' -> Permutation (filter f l) (filter f l').
Proof.
  induction 1 as [|x l l' _ IH|x y l|l l' l'' _ IH1 _ IH2]; simpl.
  - constructor.
  - destruct (f x); [now constructor | exact IH].
  - destruct (f x), (f y); try reflexivity. apply perm_swap.
  - now transitivity (filter f l').
Qed.

Lemma StronglySorted_filter (R : A -> A -> Prop) (f : A -> bool) l :
  StronglySorted R l -> StronglySorted R (filter f l).
Proof.
  induction 1 as [|a l Hs IH Ha]; simpl; [constructor|].
  destruct (f a); [|exact IH].
  constructor; [exact IH|].
  apply Forall_forall. intros x Hx. apply filter_In in Hx.
  rewrite Forall_forall in Ha. now apply Ha.
Qed.

Lemma StronglySorted_weaken (R R' : A -> A -> Prop) (P : A -> Prop) l :
  (forall a b, P a -> P b -> R a b -> R' a b) ->
  Forall P l -> StronglySorted R l -> StronglySorted R' l.
Proof.
  intros HR HP Hs. induction Hs as [|a l Hs IH Ha]; [constructor|].
  inversion HP as [|? ? Pa Pl]; subst.
  constructor; [now apply IH|].
  rewrite Forall_forall in *. intros x Hx. apply HR; auto.
Qed.

Lemma StronglySorted_map {B} (g : A -> B) (R : A -> A -> Prop)
  (R' : B -> B -> Prop) l :
  (forall a b, R a b -> R' (g a) (g b)) ->
  StronglySorted R l -> StronglySorted R' (map g l).
Proof.
  intros HR. induction 1 as [|a l Hs IH Ha]; simpl; constructor.
  - exact IH.
  - apply Forall_forall. intros y Hy. apply in_map_iff in Hy.
    destruct Hy as (x & <- & Hx). rewrite Forall_forall in Ha. auto.
Qed.

(** Two arrangements of the same elements that are both increasing for an
    order without cycles of length two are the same list. *)
Lemma sorted_permutation_unique (R : A -> A -> Prop) :
  (forall a b, R a b -> R b a -> False) ->
  forall l l', Permutation l l' ->
    StronglySorted R l -> StronglySorted R l' -> l = l'.
Proof.
  intros Hasym. induction l as [|a l IH]; intros l' Hp Hs Hs'.
  - apply Permutation_nil in Hp. now subst.
  - destruct l' as [|b l'].
    { apply Permutation_sym, Permutation_nil in Hp. discriminate. }
    apply StronglySorted_inv in Hs. destruct Hs as [Hl Ha].
    apply StronglySorted_inv in Hs'. destruct Hs' as [Hl' Hb].
    rewrite Forall_forall in Ha, Hb.
    assert (a = b) as ->.
    { assert (Hin : In a (b :: l'))
        by (eapply Permutation_in; [exact Hp | now left]).
      assert (Hin' : In b (a :: l))
        by (eapply Permutation_in;
            [apply Permutation_sym; exact Hp | now left]).
      destruct Hin as [->|Hin]; [reflexivity|].
      destruct Hin' as [->|Hin']; [reflexivity|].
      exfalso. apply (Hasym a b); auto. }
    f_equal. apply IH; auto. now apply Permutation_cons_inv in Hp.
Qed.
End ListFacts.

Section DefaultsOrder.
Import Lodash.


Lemma criteria_of_key v :
  criteria_of Config.scope_path_length Config.scope_has_metadata v
  = obind (rule_key v) (fun k => Ok (fst k, snd k, v)).
Proof.
  unfold Lodash.criteria_of, rule_key.
  destruct (Config.scope_path_length v); simpl; try reflexivity.
  destruct (Config.scope_has_metadata v); reflexivity.
Qed.

Lemma omap_criteria rules : forall ks,
  omap rule_key rules = Ok ks ->
  exists l,
    omap (criteria_of Config.scope_path_length Config.scope_has_metadata) rules
    = Ok l
    /\ forall i, map element (decorate i l) = rules
                 /\ Forall keyed (decorate i l).
Proof.
  induction rules as [|v r IH]; intros ks H; simpl in *.
  - exists []. split; [reflexivity|]. intros i. split; constructor.
  - rewrite criteria_of_key.
    destruct (rule_key v) as [[n b]| |] eqn:Hk; simpl in *; try discriminate.
    destruct (omap rule_key r) as [ks'| |] eqn:Hr; simpl in *; try discriminate.
    destruct (IH ks' eq_refl) as (l & Hl & Hd).
    exists ((n, b, v) :: l). rewrite Hl. split; [reflexivity|].
    intros i. destruct (Hd (S i)) as [Hm Hf]. simpl. split.
    + now rewrite Hm.
    + constructor; [exact Hk | exact Hf].
Qed.

Lemma keys_of_entries es :
  Forall keyed es -> omap rule_key (map element es) = Ok (map criteria es).
Proof.
  induction 1 as [|e es He _ IH]; simpl; [reflexivity|].
  unfold keyed in He. rewrite He. simpl. now rewrite IH.
Qed.

Lemma key_eqb_eq k1 k2 : key_eqb k1 k2 = true -> k1 = k2.
Proof.
  destruct k1 as [n1 b1], k2 as [n2 b2]. unfold key_eqb. simpl.
  intros H. apply andb_true_iff in H. destruct H as [Hn Hb].
  apply Nat.eqb_eq in Hn. apply Bool.eqb_prop in Hb. congruence.
Qed.

Lemma filter_keyed k es :
  Forall keyed es ->
  filter (has_key k) (map element es)
  = map element (filter (fun e => key_eqb k (criteria e)) es).
Proof.
  intros H. rewrite filter_map_swap. f_equal.
  apply filter_ext_in. intros e He.
  rewrite Forall_forall in H. unfold has_key. now rewrite (H e He).
Qed.

(** Among the entries of one key the sort changes nothing. *)
Lemma baseSortBy_stable k es :
  StronglySorted index_lt es ->
  filter (fun e => key_eqb k (criteria e)) (baseSortBy es)
  = filter (fun e => key_eqb k (criteria e)) es.
Proof.
  intros Hs.
  apply (sorted_permutation_unique index_lt).
  - unfold index_lt. intros a b; lia.
  - apply Permutation_filter, baseSortBy_perm.
  - apply (StronglySorted_weaken entry_lt index_lt
             (fun e => key_eqb k (criteria e) = true)).
    + intros a b Ha Hb Hlt. apply entry_lt_same_key; [exact Hlt|].
      apply key_eqb_eq in Ha, Hb. congruence.
    + apply Forall_forall. intros e He. now apply filter_In in He.
    + apply StronglySorted_filter. now apply baseSortBy_sorted.
  - now apply StronglySorted_filter.
Qed.

Lemma sortBy_spec rules ks :
  omap rule_key rules = Ok ks ->
  exists sorted ks',
    sortBy Config.scope_path_length Config.scope_has_metadata rules = Ok sorted
    /\ Permutation rules sorted
    /\ omap rule_key sorted = Ok ks'
    /\ StronglySorted key_le ks'
    /\ forall k, filter (has_key k) sorted = filter (has_key k) rules.
Proof.
  intros H. destruct (omap_criteria rules ks H) as (l & Hl & Hd).
  destruct (Hd 0) as [Hm Hk].
  destruct (decorate_indices l 0) as [_ Hidx].
  pose proof (baseSortBy_perm (decorate 0 l)) as Hp.
  assert (Hk' : Forall keyed (baseSortBy (decorate 0 l)))
    by (apply (Permutation_Forall (Permutation_sym Hp)); exact Hk).
  exists (map element (baseSortBy (decorate 0 l))),
         (map criteria (baseSortBy (decorate 0 l))).
  split; [|split; [|split; [|split]]].
  - unfold sortBy, sortBy_entries. rewrite Hl. reflexivity.
  - rewrite <- Hm at 1. apply Permutation_map, Permutation_sym, Hp.
  - now apply keys_of_entries.
  - apply (StronglySorted_map criteria entry_lt key_le).
    + intros a b. apply entry_lt_key_le.
    + now apply baseSortBy_sorted.
  - intros k. rewrite (filter_keyed k _ Hk').
    rewrite <- Hm. rewrite (filter_keyed k _ Hk).
    f_equal. now apply baseSortBy_stable.
Qed.
End DefaultsOrder.

(** C1.  Whenever every declared rule yields its sort key, the sort of
    [file.defaults] returns a rearrangement of the rules whose keys (length of
    [scope.path], 0 without a path; then absence before presence of
    [scope.metadata]) ascend, and the rules of any one key stay in the order
    in which they were declared.  The rules A, B, C of the example come out
    as C, A, B. *)
Theorem sortedDefaults_stable_by_key :
  (forall rules ks,
     omap rule_key rules = Ok ks ->
     exists sorted ks',
       Config.sortedDefaults (VArr rules) = Ok sorted
       /\ Permutation rules sorted
       /\ omap rule_key sorted = Ok ks'
       /\ StronglySorted key_le ks'
       /\ forall k, filter (has_key k) sorted = filter (has_key k) rules)
  /\ omap rule_key [Sample.ruleA; Sample.ruleB; Sample.ruleC]
     = Ok [(2, false); (8, false); (0, true)]
  /\ Config.sortedDefaults (VArr [Sample.ruleA; Sample.ruleB; Sample.ruleC])
     = Ok [Sample.ruleC; Sample.ruleA; Sample.ruleB].
Proof.
  split; [|split; reflexivity].
  intros rules ks H. simpl. exact (sortBy_spec rules ks H).
Qed.

Lemma sortedDefaults_stable_by_key_witness :
  omap rule_key [Sample.ruleA; Sample.ruleC; Sample.ruleB; Sample.ruleC]
  = Ok [(2, false); (0, true); (8, false); (0, true)]
  /\ exists sorted ks',
       Config.sortedDefaults
         (VArr [Sample.ruleA; Sample.ruleC; Sample.ruleB; Sample.ruleC])
       = Ok sorted
       /\ Permutation [Sample.ruleA; Sample.ruleC; Sample.ruleB; Sample.ruleC]
            sorted
       /\ omap rule_key sorted = Ok ks'
       /\ StronglySorted key_le ks'
       /\ forall k,
            filter (has_key k) sorted
            = filter (has_key k)
                [Sample.ruleA; Sample.ruleC; Sample.ruleB; Sample.ruleC].
Proof.
  split; [reflexivity|].
  apply (proj1 sortedDefaults_stable_by_key
           [Sample.ruleA; Sample.ruleC; Sample.ruleB; Sample.ruleC]
           [(2, false); (0, true); (8, false); (0, true)]).
  reflexivity.
Defined.

(** Ties are kept in declaration order, and a rule with both a path and
    metadata comes right after the rule with the same path length. *)
Example sortedDefaults_ties :
  let both := Sample.obj
    [("scope",
      Sample.obj [("path", VStr "./");
                  ("metadata", Sample.obj [("draft", VBool true)])])] in
  let other := Sample.obj [("scope", Sample.obj [("path", VStr "a/")])] in
  Config.sortedDefaults
    (VArr [Sample.ruleB; both; other; Sample.ruleA; Sample.ruleC])
  = Ok [Sample.ruleC; other; Sample.ruleA; both; Sample.ruleB].
Proof. reflexivity. Qed.

(** ** Reasoning about method bodies *)

Section EffFacts.
Context {S E : Type}.

Lemma bind_ok_inv {A B} (m : Eff.M S E A) (f : A -> Eff.M S E B) s s' evs b :
  bind m f s = (s', evs, Ok b) ->
  exists s1 e1 a e2,
    m s = (s1, e1, Ok a) /\ f a s1 = (s', e2, Ok b) /\ evs = e1 ++ e2.
Proof.
  unfold bind. destruct (m s) as [[s1 e1] [a| |]]; try discriminate.
  destruct (f a s1) as [[s2 e2] r] eqn:Hf. intros H. inversion H; subst.
  now exists s1, e1, a, e2.
Qed.

Lemma lift_ok_inv {A} (o : outcome A) (s s' : S) (evs : list E) a :
  lift o s = (s', evs, Ok a) -> o = Ok a /\ s' = s /\ evs = [].
Proof. unfold lift. intros H. inversion H; subst. auto. Qed.

Lemma ret_inv {A} (a : A) (s s' : S) (evs : list E) r :
  ret a s = (s', evs, r) -> r = Ok a /\ s' = s /\ evs = [].
Proof. unfold ret. intros H. inversion H; subst. auto. Qed.

Lemma preserves_bind {A B} (P : S -> Prop) (m : Eff.M S E A)
  (f : A -> Eff.M S E B) :
  preserves P m -> (forall a, preserves P (f a)) -> preserves P (bind m f).
Proof.
  intros Hm Hf s s' evs r HP. unfold bind.
  destruct (m s) as [[s1 e1] o] eqn:Hms.
  pose proof (Hm _ _ _ _ HP Hms) as HP1.
  destruct o as [a| |]; try (intros H; inversion H; subst; exact HP1).
  destruct (f a s1) as [[s2 e2] r2] eqn:Hfs.
  intros H. inversion H; subst. exact (Hf a _ _ _ _ HP1 Hfs).
Qed.

Lemma preserves_ret {A} (P : S -> Prop) (a : A) :
  preserves P (ret (E := E) a).
Proof. intros s s' evs r HP H. inversion H; subst. exact HP. Qed.

Lemma preserves_lift {A} (P : S -> Prop) (o : outcome A) :
  preserves P (lift (E := E) o).
Proof. intros s s' evs r HP H. inversion H; subst. exact HP. Qed.

Lemma preserves_throw {A} (P : S -> Prop) e :
  preserves P (throw (E := E) (A := A) e).
Proof. apply preserves_lift. Qed.

Lemma preserves_tell (P : S -> Prop) (e : E) : preserves P (tell e).
Proof. intros s s' evs r HP H. inversion H; subst. exact HP. Qed.

Lemma preserves_get (P : S -> Prop) : preserves P (Eff.get (E := E)).
Proof. intros s s' evs r HP H. inversion H; subst. exact HP. Qed.

Lemma preserves_mapM {A B} (P : S -> Prop) (f : A -> Eff.M S E B) l :
  (forall a, preserves P (f a)) -> preserves P (mapM f l).
Proof.
  intros Hf. induction l as [|x l IH]; simpl.
  - apply preserves_ret.
  - apply preserves_bind; [apply Hf|]. intros y.
    apply preserves_bind; [exact IH|]. intros ys. apply preserves_ret.
Qed.

Lemma preserves_forM_ {A} (P : S -> Prop) (f : A -> Eff.M S E unit) l :
  (forall a, preserves P (f a)) -> preserves P (forM_ l f).
Proof.
  intros Hf. induction l as [|x l IH]; simpl.
  - apply preserves_ret.
  - apply preserves_bind; [apply Hf|]. intros _. exact IH.
Qed.
End EffFacts.

(** ** Own properties *)

Lemma lookup_assign_same k v fs : lookup k (assign k v fs) = Some v.
Proof.
  induction fs as [|[k' v'] r IH]; simpl.
  - now rewrite String.eqb_refl.
  - destruct (String.eqb k k') eqn:E; simpl; rewrite E;
      [reflexivity | exact IH].
Qed.

Lemma lookup_assign_other k k' v fs :
  k' <> k -> lookup k' (assign k v fs) = lookup k' fs.
Proof.
  intros Hne. induction fs as [|[k0 v0] r IH]; simpl.
  - destruct (String.eqb_spec k' k); [contradiction | reflexivity].
  - destruct (String.eqb_spec k k0) as [->|Hk]; simpl.
    + destruct (String.eqb_spec k' k0); [contradiction | reflexivity].
    + destruct (String.eqb k' k0); [reflexivity | exact IH].
Qed.

Lemma lookup_in_keys k fs : In k (keys fs) <-> lookup k fs <> None.
Proof.
  unfold keys. rewrite nodup_In. induction fs as [|[k0 v0] r IH]; simpl.
  - split; [tauto | congruence].
  - destruct (String.eqb_spec k k0) as [->|Hk].
    + split; [discriminate | auto].
    + rewrite <- IH. split; [intros [H|H]; [congruence | exact H] | auto].
Qed.

Lemma keys_assign_existing k v fs :
  lookup k fs <> None -> map fst (assign k v fs) = map fst fs.
Proof.
  induction fs as [|[k0 v0] r IH]; simpl; [congruence|].
  destruct (String.eqb_spec k k0) as [->|Hk]; simpl; [reflexivity|].
  intros H. now rewrite IH.
Qed.

(** Writes outside [path] leave the path set alone. *)
Lemma has_paths_assign_raw pp cur k v :
  k <> "path" -> preserves (has_paths pp cur) (Config.assign_raw k v).
Proof.
  intros Hk raw raw' evs r (p & rf & -> & Hl). unfold Config.assign_raw.
  cbv [bind Config.get_raw Eff.get lift js_set Config.set_raw put].
  intros H. inversion H; subst. exists p, (assign k v rf).
  split; [reflexivity|].
  rewrite lookup_assign_other; [exact Hl | congruence].
Qed.

Lemma has_paths_assign_in pp cur a k v :
  a <> "path" -> preserves (has_paths pp cur) (Config.assign_in a k v).
Proof.
  intros Ha raw raw' evs r (p & rf & -> & Hl). unfold Config.assign_in.
  cbv [bind Config.get_raw Eff.get lift Config.set_raw put].
  destruct (js_get (VObj p rf) a) as [o| |] eqn:Hg;
    try (intros H; inversion H; subst; now exists p, rf).
  destruct (js_set o k v) as [o'| |] eqn:Hs;
    try (intros H; inversion H; subst; now exists p, rf).
  simpl. intros H. inversion H; subst.
  exists p, (assign a o' rf). split; [reflexivity|].
  rewrite lookup_assign_other; [exact Hl | congruence].
Qed.

(** ** PathSet *)

Ltac preserve :=
  repeat first
    [ apply preserves_ret
    | apply preserves_lift
    | apply preserves_throw
    | apply preserves_tell
    | apply preserves_get
    | apply has_paths_assign_raw; discriminate
    | apply has_paths_assign_in; discriminate
    | apply preserves_mapM; intros ?
    | apply preserves_forM_; intros ?
    | apply preserves_bind; [|intros ?]
    | match goal with
      | |- preserves _ (match ?x with _ => _ end) => destruct x
      end ].

Section PathsKept.
Variable env : Config.Env.
Variable root : string.
Variables (pp : bool) (cur : list (string * value)).

Lemma has_paths_requireLocalModule name basedir :
  preserves (has_paths pp cur) (Config.requireLocalModule env name basedir).
Proof. unfold Config.requireLocalModule. preserve. Qed.

Lemma has_paths_sort_defaults :
  preserves (has_paths pp cur) (Config.sort_defaults env).
Proof.
  unfold Config.sort_defaults, Config.absolute_scope, Config.write_rule.
  preserve.
Qed.

Lemma has_paths_coerce_ignore :
  preserves (has_paths pp cur) Config.coerce_ignore.
Proof. unfold Config.coerce_ignore, Config.array_map. preserve. Qed.

Lemma has_paths_resolveMiddlewareModules v :
  preserves (has_paths pp cur) (Config.resolveMiddlewareModules env root v).
Proof.
  unfold Config.resolveMiddlewareModules.
  destruct v; try apply preserves_ret. apply has_paths_requireLocalModule.
Qed.

Lemma has_paths_resolve_middlewares :
  preserves (has_paths pp cur) (Config.resolve_middlewares env root).
Proof.
  unfold Config.resolve_middlewares.
  apply preserves_bind; [preserve | intros ?].
  apply preserves_bind; [preserve | intros ?].
  apply preserves_bind;
    [apply preserves_mapM; intros ?; apply has_paths_resolveMiddlewareModules
    | intros ?; preserve].
Qed.

Lemma has_paths_resolve_lifecycle :
  preserves (has_paths pp cur) (Config.resolve_lifecycle env root).
Proof.
  unfold Config.resolve_lifecycle.
  apply preserves_bind; [preserve | intros ?].
  apply preserves_bind; [preserve | intros lifecycle].
  destruct lifecycle; try apply preserves_ret; try apply preserves_lift.
  destruct (Lodash.isArrayLike fields); [apply preserves_lift|].
  apply preserves_forM_. intros key. unfold Config.resolve_lifecycle_key.
  apply preserves_bind; [preserve | intros ?].
  apply preserves_bind; [preserve | intros ?].
  apply preserves_bind; [preserve | intros ?].
  apply preserves_bind;
    [apply preserves_mapM; intros ?; apply has_paths_resolveMiddlewareModules
    | intros ?; preserve].
Qed.

Lemma has_paths_convert_assets :
  preserves (has_paths pp cur) (Config.convert_assets env root).
Proof.
  unfold Config.convert_assets.
  apply preserves_bind; [preserve | intros ?].
  apply preserves_bind; [preserve | intros assets].
  apply preserves_bind; [|intros ?; preserve].
  assert (Hasset : forall asset,
    preserves (has_paths pp cur) (Config.convert_asset env root asset)).
  { intros asset. unfold Config.convert_asset.
    apply preserves_bind; [preserve | intros use].
    apply preserves_bind; [|intros ?; preserve].
    unfold Config.resolve_use. destruct use; try apply preserves_ret.
    apply preserves_bind; [preserve | intros builtin].
    destruct (truthy builtin);
      [apply preserves_ret | apply has_paths_requireLocalModule]. }
  unfold Config.array_map. destruct assets; try apply preserves_throw.
  - apply preserves_bind; [now apply preserves_mapM | intros ?; preserve].
  - destruct (lookup "map" fields); preserve.
Qed.

(** Nothing after the path step touches the path set. *)
Lemma has_paths_after_paths :
  preserves (has_paths pp cur)
    (Config.sort_defaults env ;;
     Config.coerce_ignore ;;
     Config.resolve_middlewares env root ;;
     Config.resolve_lifecycle env root ;;
     Config.convert_assets env root).
Proof.
  apply preserves_bind; [apply has_paths_sort_defaults | intros _].
  apply preserves_bind; [apply has_paths_coerce_ignore | intros _].
  apply preserves_bind; [apply has_paths_resolve_middlewares | intros _].
  apply preserves_bind; [apply has_paths_resolve_lifecycle | intros _].
  apply has_paths_convert_assets.
Qed.
End PathsKept.

Lemma js_set_ok o k v o' :
  js_set o k v = Ok o' ->
  exists p fs, o = VObj p fs /\ o' = VObj p (assign k v fs).
Proof.
  destruct o; simpl; try discriminate. intros H. inversion H; subst. eauto.
Qed.

Lemma js_get_own p fs k v :
  js_get (VObj p fs) k = Ok v ->
  lookup k fs = Some v
  \/ (lookup k fs = None /\ v = if p then object_prototype k else VUndefined).
Proof.
  simpl. destruct (lookup k fs); intros H; inversion H; subst; auto.
Qed.

Lemma object_prototype_cases k :
  object_prototype k = VUndefined
  \/ exists n, object_prototype k = VIntrinsic n.
Proof.
  unfold object_prototype.
  repeat match goal with
         | |- context [if ?b then _ else _] => destruct b; eauto
         end.
Qed.

(** An own string is what a successful [path.resolve] needs last. *)
Lemma js_get_string p fs k s :
  js_get (VObj p fs) k = Ok (VStr s) -> lookup k fs = Some (VStr s).
Proof.
  intros H. apply js_get_own in H. destruct H as [H|[_ H]]; [exact H|].
  destruct p; [|discriminate].
  destruct (object_prototype_cases k) as [E|[n E]]; rewrite E in H;
    discriminate.
Qed.

Lemma js_get_object p fs k q gs :
  js_get (VObj p fs) k = Ok (VObj q gs) -> lookup k fs = Some (VObj q gs).
Proof.
  intros H. apply js_get_own in H. destruct H as [H|[_ H]]; [exact H|].
  destruct p; [|discriminate].
  destruct (object_prototype_cases k) as [E|[n E]]; rewrite E in H;
    discriminate.
Qed.

Lemma resolve_last_string cwd a v r :
  Path.resolve cwd [a; v] = Ok r -> exists p, v = VStr p.
Proof.
  unfold Path.resolve. simpl.
  destruct v; simpl; try discriminate. eauto.
Qed.

Lemma resolve_loop_absolute cwd :
  Path.is_absolute cwd = true ->
  forall rargs acc p b, Path.resolve_loop cwd rargs acc = Ok (p, b) -> b = true.
Proof.
  intros Hcwd. induction rargs as [|v rest IH]; intros acc p b; simpl.
  - destruct (String.eqb_spec cwd "") as [->|_]; [discriminate|].
    intros H. inversion H; subst. exact Hcwd.
  - destruct v; try discriminate.
    destruct (String.eqb s ""); [apply IH|].
    destruct (Path.is_absolute s); [|apply IH].
    intros H. now inversion H.
Qed.

(** With an absolute working directory [path.resolve] answers absolute
    paths only. *)
Lemma resolve_absolute cwd args r :
  Path.is_absolute cwd = true ->
  Path.resolve cwd args = Ok r -> Path.is_absolute r = true.
Proof.
  intros Hcwd. unfold Path.resolve.
  destruct (Path.resolve_loop cwd (rev args) "") as [[p b]| |] eqn:Hl;
    simpl; try discriminate.
  rewrite (resolve_loop_absolute cwd Hcwd _ _ _ _ Hl).
  intros H. inversion H; subst. reflexivity.
Qed.

Lemma resolve_strings_total cwd a b :
  exists r, Path.resolve cwd [VStr a; VStr b] = Ok r.
Proof.
  unfold Path.resolve. simpl.
  destruct (String.eqb b ""); simpl;
    repeat match goal with
           | |- context [if ?c then _ else _] => destruct c; simpl
           end; eauto.
Qed.

Section PathStep.
Variable env : Config.Env.
Variable root : string.

Lemma resolve_source_ok raw raw' evs :
  Config.resolve_source env root raw = (raw', evs, Ok tt) ->
  exists p rf pp fields src r,
    raw = VObj p rf
    /\ lookup "path" rf = Some (VObj pp fields)
    /\ lookup "source" fields = Some (VStr src)
    /\ Path.resolve (Config.cwd env) [VStr root; VStr src] = Ok r
    /\ raw' = VObj p (assign "path"
                        (VObj pp (assign "source" (VStr r) fields)) rf).
Proof.
  unfold Config.resolve_source, Config.assign_in, Config.SourceKey.
  cbv [bind Config.get_raw Eff.get lift Config.set_raw put].
  destruct (js_get raw "path") as [paths| |] eqn:Hp; try discriminate.
  destruct (js_get paths "source") as [configured| |] eqn:Hs; try discriminate.
  destruct (Path.resolve (Config.cwd env) [VStr root; configured])
    as [r| |] eqn:Hr; try discriminate.
  destruct (js_set paths "source" (VStr r)) as [paths'| |] eqn:Hset;
    try discriminate.
  destruct (js_set raw "path" paths') as [raw''| |] eqn:Hset'; try discriminate.
  simpl. intros H. inversion H; subst.
  apply js_set_ok in Hset. destruct Hset as (pp & fields & -> & ->).
  apply js_set_ok in Hset'. destruct Hset' as (p & rf & -> & ->).
  destruct (resolve_last_string _ _ _ _ Hr) as [src ->].
  exists p, rf, pp, fields, src, r.
  repeat split; eauto using js_get_object, js_get_string.
Qed.

Lemma resolve_path_key_ok pp cur s k raw raw' evs :
  has_paths pp cur raw ->
  lookup "source" cur = Some (VStr s) ->
  k <> "source" ->
  Config.resolve_path_key env k raw = (raw', evs, Ok tt) ->
  exists p r,
    lookup k cur = Some (VStr p)
    /\ Path.resolve (Config.cwd env) [VStr s; VStr p] = Ok r
    /\ has_paths pp (assign k (VStr r) cur) raw'.
Proof.
  intros (p0 & rf & -> & Hl) Hsrc Hk.
  unfold Config.resolve_path_key, Config.assign_in, Config.SourceKey.
  destruct (String.eqb_spec k "source") as [->|_]; [contradiction|].
  cbn [negb].
  cbv [bind Config.get_raw Eff.get lift Config.set_raw put].
  assert (Hg : js_get (VObj p0 rf) "path" = Ok (VObj pp cur))
    by (simpl; now rewrite Hl).
  rewrite Hg.
  assert (Hg' : js_get (VObj pp cur) "source" = Ok (VStr s))
    by (simpl; now rewrite Hsrc).
  rewrite Hg'.
  destruct (js_get (VObj pp cur) k) as [configured| |] eqn:Hc; try discriminate.
  destruct (Path.resolve (Config.cwd env) [VStr s; configured])
    as [r| |] eqn:Hr; try discriminate.
  simpl. intros H. inversion H; subst.
  destruct (resolve_last_string _ _ _ _ Hr) as [p ->].
  exists p, r. split; [now apply js_get_string in Hc|]. split; [exact Hr|].
  exists p0, (assign "path" (VObj pp (assign k (VStr r) cur)) rf).
  split; [reflexivity | apply lookup_assign_same].
Qed.
End PathStep.

Section EachPath.
Variable env : Config.Env.

Lemma forM_path_keys_ok ks : forall pp cur s raw raw' evs,
  NoDup ks ->
  has_paths pp cur raw ->
  lookup "source" cur = Some (VStr s) ->
  forM_ ks (Config.resolve_path_key env) raw = (raw', evs, Ok tt) ->
  exists cur',
    has_paths pp cur' raw'
    /\ lookup "source" cur' = Some (VStr s)
    /\ map fst cur' = map fst cur
    /\ (forall k, In k ks -> k <> "source" ->
          exists p r,
            lookup k cur = Some (VStr p)
            /\ Path.resolve (Config.cwd env) [VStr s; VStr p] = Ok r
            /\ lookup k cur' = Some (VStr r))
    /\ (forall k, ~ In k ks -> lookup k cur' = lookup k cur).
Proof.
  induction ks as [|k ks IH]; intros pp cur s raw raw' evs Hnd Hp Hs H.
  - apply ret_inv in H. destruct H as (_ & -> & _).
    exists cur. repeat split; auto. intros k [].
  - simpl in H. apply bind_ok_inv in H.
    destruct H as (raw1 & e1 & [] & e2 & Hk & Hrest & _).
    inversion Hnd as [|? ? Hnotin Hnd']; subst.
    destruct (string_dec k "source") as [->|Hne].
    + unfold Config.resolve_path_key, Config.SourceKey in Hk. simpl in Hk.
      apply ret_inv in Hk. destruct Hk as (_ & -> & _).
      destruct (IH _ _ _ _ _ _ Hnd' Hp Hs Hrest)
        as (cur' & Hp' & Hs' & Hkeys & Hin & Hout).
      exists cur'. repeat split; auto.
      * intros k [<-|Hk] Hk'; [congruence | now apply Hin].
      * intros k Hk. apply Hout. intros Hc. apply Hk. now right.
    + destruct (resolve_path_key_ok env pp cur s k raw raw1 e1 Hp Hs Hne Hk)
        as (p & r & Hlk & Hr & Hp1).
      assert (Hs1 : lookup "source" (assign k (VStr r) cur) = Some (VStr s))
        by (rewrite lookup_assign_other; [exact Hs | congruence]).
      destruct (IH _ _ _ _ _ _ Hnd' Hp1 Hs1 Hrest)
        as (cur' & Hp' & Hs' & Hkeys & Hin & Hout).
      exists cur'. repeat split; auto.
      * rewrite Hkeys. apply keys_assign_existing. congruence.
      * intros k' [<-|Hk'] Hk'ne.
        -- exists p, r. repeat split; auto.
           rewrite (Hout k Hnotin). apply lookup_assign_same.
        -- destruct (Hin k' Hk' Hk'ne) as (p' & r' & Hl' & Hr' & Hc').
           exists p', r'. repeat split; auto.
           rewrite lookup_assign_other in Hl'; [exact Hl'|].
           intros ->. contradiction.
      * intros k' Hk'. rewrite Hout by (intros Hc; apply Hk'; now right).
        apply lookup_assign_other. intros ->. apply Hk'. now left.
Qed.

Lemma each_path_ok pp cur s raw raw' evs :
  has_paths pp cur raw ->
  lookup "source" cur = Some (VStr s) ->
  Config.each_path env raw = (raw', evs, Ok tt) ->
  exists cur',
    has_paths pp cur' raw'
    /\ lookup "source" cur' = Some (VStr s)
    /\ map fst cur' = map fst cur
    /\ (forall k v, k <> "source" -> lookup k cur = Some v ->
          exists p r,
            v = VStr p
            /\ Path.resolve (Config.cwd env) [VStr s; VStr p] = Ok r
            /\ lookup k cur' = Some (VStr r)).
Proof.
  intros Hp Hs. pose proof Hp as (p0 & rf & -> & Hl).
  unfold Config.each_path.
  intros H. apply bind_ok_inv in H.
  destruct H as (raw1 & e1 & raw0 & e2 & Hg & H & _).
  inversion Hg; subst. clear Hg.
  apply bind_ok_inv in H. destruct H as (raw2 & e3 & paths & e4 & Hg & H & _).
  apply lift_ok_inv in Hg. destruct Hg as (Hg & -> & _).
  simpl in Hg. rewrite Hl in Hg. inversion Hg; subst. clear Hg.
  destruct (Lodash.isArrayLike cur); [discriminate|].
  destruct (forM_path_keys_ok (keys cur) pp cur s _ _ _
              (NoDup_nodup _ _) Hp Hs H)
    as (cur' & Hp' & Hs' & Hkeys & Hin & _).
  exists cur'. repeat split; auto.
  intros k v Hk Hv.
  assert (Hink : In k (keys cur)) by (apply lookup_in_keys; congruence).
  destruct (Hin k Hink Hk) as (p & r & Hlk & Hr & Hc).
  exists p, r. repeat split; auto. congruence.
Qed.
End EachPath.

(** ** The stages of [update()] *)

Lemma load_and_validate_pure env root raw :
  Config.load_and_validate env root raw
  = (raw, load_events env root, configured env root).
Proof.
  unfold load_events, configured, Config.load_and_validate.
  cbv [bind lift].
  destruct (Config.loadConfigFile env root) as [loaded| |]; try reflexivity.
  destruct (if isFunction loaded then Config.apply env loaded [] else Ok loaded)
    as [config| |]; try reflexivity.
  destruct (Config.schema_validate env config) as [[err|] v]; reflexivity.
Qed.

Lemma update_body_stages env root raw :
  Config.update_body env root raw
  = match configured env root with
    | Ok merged =>
        match Config.normalize env root merged with
        | (raw', evs, r) => (raw', load_events env root ++ evs, r)
        end
    | Throw e => (raw, load_events env root, Throw e)
    | Unmodelled => (raw, load_events env root, Unmodelled)
    end.
Proof.
  unfold Config.update_body. unfold bind at 1.
  rewrite load_and_validate_pure.
  destruct (configured env root) as [merged| |]; try reflexivity.
  unfold bind at 1. unfold Config.set_raw, put.
  destruct (Config.normalize env root merged) as [[raw' evs] r]. reflexivity.
Qed.

Lemma lookup_same_keys k a b :
  map fst a = map fst b -> lookup k a <> None -> lookup k b <> None.
Proof.
  intros H Ha. apply lookup_in_keys. apply lookup_in_keys in Ha.
  unfold keys in *. now rewrite <- H.
Qed.

Lemma get_own_object p rf k q gs :
  simple_key k = true ->
  lookup k rf = Some (VObj q gs) ->
  Config.get_body (VObj p rf) (Some k) = Ok (VObj q gs).
Proof.
  intros Hk Hl. unfold simple_key in Hk. apply andb_true_iff in Hk.
  destruct Hk as [Hb Hd]. apply negb_true_iff in Hb, Hd.
  unfold Config.get_body, Lodash.get, Lodash.castPath. simpl is_nullish.
  cbv iota. rewrite Hb, Hd. simpl. now rewrite Hl.
Qed.

(** What a successful [update()] leaves in [path]. *)
Lemma normalize_paths env root merged raw' evs :
  Config.normalize env root merged = (raw', evs, Ok tt) ->
  exists p rf pp fields fields' src source,
    merged = VObj p rf
    /\ lookup "path" rf = Some (VObj pp fields)
    /\ lookup "source" fields = Some (VStr src)
    /\ has_paths pp fields' raw'
    /\ Path.resolve (Config.cwd env) [VStr root; VStr src] = Ok source
    /\ lookup "source" fields' = Some (VStr source)
    /\ map fst fields' = map fst fields
    /\ (forall k v, k <> "source" -> lookup k fields = Some v ->
          exists q r,
            v = VStr q
            /\ Path.resolve (Config.cwd env) [VStr source; VStr q] = Ok r
            /\ lookup k fields' = Some (VStr r)).
Proof.
  unfold Config.normalize. intros H.
  apply bind_ok_inv in H. destruct H as (raw1 & e1 & [] & e2 & Hsrc & H & _).
  apply bind_ok_inv in H. destruct H as (raw2 & e3 & [] & e4 & Heach & H & _).
  destruct (resolve_source_ok env root _ _ _ Hsrc)
    as (p & rf & pp & fields & src & source & -> & Hl & Hs & Hr & ->).
  set (cur1 := assign "source" (VStr source) fields) in *.
  assert (Hp1 : has_paths pp cur1 (VObj p (assign "path" (VObj pp cur1) rf)))
    by (exists p, (assign "path" (VObj pp cur1) rf); split;
        [reflexivity | apply lookup_assign_same]).
  assert (Hs1 : lookup "source" cur1 = Some (VStr source))
    by apply lookup_assign_same.
  destruct (each_path_ok env pp cur1 source _ _ _ Hp1 Hs1 Heach)
    as (cur' & Hp' & Hs' & Hkeys & Hres).
  exists p, rf, pp, fields, cur', src, source.
  repeat split; auto.
  - exact (has_paths_after_paths env root pp cur' _ _ _ _ Hp' H).
  - rewrite Hkeys. apply keys_assign_existing. congruence.
  - intros k v Hk Hv. apply (Hres k v Hk).
    unfold cur1. rewrite lookup_assign_other; [exact Hv | exact Hk].
Qed.

(** The path set before and after a successful [update()]. *)
Lemma update_paths env this this' evs :
  Path.is_absolute (Config.cwd env) = true ->
  Config.update env this = (this', evs, Ok tt) ->
  exists merged pp fields fields' src source,
    configured env (Config.root this) = Ok merged
    /\ js_get merged "path" = Ok (VObj pp fields)
    /\ lookup "source" fields = Some (VStr src)
    /\ Config.get this' (Some "path") = Ok (VObj pp fields')
    /\ Path.resolve (Config.cwd env) [VStr (Config.root this); VStr src]
       = Ok source
    /\ lookup "source" fields' = Some (VStr source)
    /\ (forall k v, k <> "source" -> lookup k fields = Some v ->
          exists q r,
            v = VStr q
            /\ Path.resolve (Config.cwd env) [VStr source; VStr q] = Ok r
            /\ lookup k fields' = Some (VStr r))
    /\ (forall k v, lookup k fields' = Some v ->
          exists s, v = VStr s /\ Path.is_absolute s = true).
Proof.
  intros Hcwd. unfold Config.update. rewrite update_body_stages.
  destruct (configured env (Config.root this)) as [merged| |] eqn:Hc;
    try discriminate.
  destruct (Config.normalize env (Config.root this) merged)
    as [[raw' evs'] r] eqn:Hn.
  intros H. inversion H; subst. clear H.
  destruct (normalize_paths _ _ _ _ _ Hn)
    as (p & rf & pp & fields & fields' & src & source
        & -> & Hl & Hs & Hp & Hr & Hs' & Hkeys & Hres).
  exists (VObj p rf), pp, fields, fields', src, source.
  destruct Hp as (p' & rf' & -> & Hl').
  split; [reflexivity|]. split; [simpl; now rewrite Hl|].
  split; [exact Hs|]. split; [now apply get_own_object|].
  split; [exact Hr|]. split; [exact Hs'|]. split; [exact Hres|].
  intros k v Hv. destruct (string_dec k "source") as [->|Hk].
  - rewrite Hs' in Hv. inversion Hv; subst.
    exists source. split; [reflexivity|].
    exact (resolve_absolute _ _ _ Hcwd Hr).
  - assert (Hin : lookup k fields <> None).
    { apply (lookup_same_keys k fields' fields Hkeys). congruence. }
    destruct (lookup k fields) as [v0|] eqn:Hv0; [|congruence].
    destruct (Hres k v0 Hk Hv0) as (q & r & -> & Hrq & Hk').
    rewrite Hk' in Hv. inversion Hv; subst.
    exists r. split; [reflexivity|]. exact (resolve_absolute _ _ _ Hcwd Hrq).
Qed.


(** C5.  After a successful [update()], with an absolute working directory:
    [path.source] is the configured source resolved against the root, every
    other entry of [path] is its configured value resolved against that
    resolved source, and every entry is an absolute path. *)
Theorem update_resolves_paths env this this' evs :
  Path.is_absolute (Config.cwd env) = true ->
  Config.update env this = (this', evs, Ok tt) ->
  exists merged pp fields fields' src source,
    configured env (Config.root this) = Ok merged
    /\ js_get merged "path" = Ok (VObj pp fields)
    /\ lookup "source" fields = Some (VStr src)
    /\ Config.get this' (Some "path") = Ok (VObj pp fields')
    /\ Path.resolve (Config.cwd env) [VStr (Config.root this); VStr src]
       = Ok source
    /\ lookup "source" fields' = Some (VStr source)
    /\ (forall k v, k <> "source" -> lookup k fields = Some v ->
          exists q r,
            v = VStr q
            /\ Path.resolve (Config.cwd env) [VStr source; VStr q] = Ok r
            /\ lookup k fields' = Some (VStr r))
    /\ (forall k v, lookup k fields' = Some v ->
          exists s, v = VStr s /\ Path.is_absolute s = true).
Proof. exact (update_paths env this this' evs). Qed.

Lemma update_resolves_paths_witness :
  Path.is_absolute (Config.cwd (Sample.env true Sample.config)) = true
  /\ exists merged pp fields fields' src source,
       configured (Sample.env true Sample.config) "/srv/site" = Ok merged
       /\ js_get merged "path" = Ok (VObj pp fields)
       /\ lookup "source" fields = Some (VStr src)
       /\ Config.get Sample.updated (Some "path") = Ok (VObj pp fields')
       /\ Path.resolve "/home/user" [VStr "/srv/site"; VStr src] = Ok source
       /\ lookup "source" fields' = Some (VStr source)
       /\ (forall k v, k <> "source" -> lookup k fields = Some v ->
             exists q r,
               v = VStr q
               /\ Path.resolve "/home/user" [VStr source; VStr q] = Ok r
               /\ lookup k fields' = Some (VStr r))
       /\ (forall k v, lookup k fields' = Some v ->
             exists s, v = VStr s /\ Path.is_absolute s = true).
Proof.
  split; [reflexivity|].
  apply (update_resolves_paths (Sample.env true Sample.config)
           (Config.new "/srv/site") Sample.updated
           [Config.Required "reptar-excerpt" "/srv/site"]).
  - reflexivity.
  - vm_compute. reflexivity.
Defined.

Example sample_paths :
  Config.get Sample.updated (Some "path")
  = Ok (Sample.obj [("source", VStr "/srv/site");
                    ("destination", VStr "/srv/site/_site");
                    ("templates", VStr "/srv/site/_templates");
                    ("data", VStr "/srv/site/_data")]).
Proof. vm_compute. reflexivity. Qed.

(** ** ConfigStore: [get] *)

Lemma default_undefined r :
  match r with VUndefined => VUndefined | _ => r end = r.
Proof. now destruct r. Qed.

Lemma get_simple p fs k :
  simple_key k = true ->
  Lodash.get (VObj p fs) k VUndefined
  = Ok (match lookup k fs with
        | Some v => v
        | None => if p then object_prototype k else VUndefined
        end).
Proof.
  intros Hk. unfold simple_key in Hk. apply andb_true_iff in Hk.
  destruct Hk as [Hb Hd]. apply negb_true_iff in Hb, Hd.
  unfold Lodash.get, Lodash.castPath. simpl is_nullish. cbv iota.
  rewrite Hb, Hd. simpl.
  destruct (lookup k fs); simpl; now rewrite default_undefined.
Qed.

Lemma contains_char_app c a b :
  contains_char c (a ++ b) = contains_char c a || contains_char c b.
Proof.
  induction a as [|x a IH]; simpl; [reflexivity|].
  now rewrite IH, orb_assoc.
Qed.

Lemma split_on_simple sep a :
  contains_char sep a = false -> split_on sep a = [a].
Proof.
  induction a as [|x a IH]; simpl; [reflexivity|].
  intros H. apply orb_false_iff in H. destruct H as [Hx Ha].
  rewrite Hx, (IH Ha). reflexivity.
Qed.

Lemma split_on_app sep a b :
  contains_char sep a = false ->
  split_on sep (a ++ String sep b) = a :: split_on sep b.
Proof.
  induction a as [|x a IH]; simpl.
  - now rewrite Ascii.eqb_refl.
  - intros H. apply orb_false_iff in H. destruct H as [Hx Ha].
    rewrite Hx, (IH Ha). reflexivity.
Qed.

(** A dotted path walks down own properties. *)
Lemma get_two_levels p fs a b q gs v :
  simple_key a = true -> simple_key b = true ->
  lookup (a ++ "." ++ b) fs = None ->
  lookup a fs = Some (VObj q gs) ->
  lookup b gs = Some v ->
  Lodash.get (VObj p fs) (a ++ "." ++ b) VUndefined = Ok v.
Proof.
  unfold simple_key. intros Ha Hb Hnone Hla Hlb.
  apply andb_true_iff in Ha, Hb.
  destruct Ha as [Ha1 Ha2], Hb as [Hb1 Hb2].
  apply negb_true_iff in Ha1, Ha2, Hb1, Hb2.
  unfold Lodash.get, Lodash.castPath. simpl is_nullish. cbv iota.
  change (a ++ "." ++ b)%string with (a ++ String "."%char b)%string in *.
  rewrite !contains_char_app, Ha1, Ha2. simpl contains_char.
  rewrite Hb1. simpl. rewrite Hnone.
  rewrite (split_on_app "." a b Ha2), (split_on_simple "." b Hb2).
  simpl. rewrite Hla. simpl. rewrite Hlb. simpl.
  now rewrite default_undefined.
Qed.



Lemma get_simple_key root pr fs k :
  simple_key k = true ->
  Config.get {| Config.root := root; Config._raw := VObj pr fs |} (Some k)
  = match lookup k fs with
    | Some v =>
        if is_nullish v then Throw (Error (not_found_message k)) else Ok v
    | None =>
        let v := if pr then object_prototype k else VUndefined in
        if is_nullish v then Throw (Error (not_found_message k)) else Ok v
    end.
Proof.
  intros Hk. unfold Config.get, Config.get_body. simpl Config._raw.
  rewrite (get_simple pr fs k Hk). simpl.
  destruct (lookup k fs); reflexivity.
Qed.

(** C10.  [get(p)] never hands out null or undefined: a stored null throws
    the same error as a key that is not there, while false, 0 and the empty
    string are handed out. *)
Theorem get_never_null_or_undefined :
  (forall this p v,
     Config.get this (Some p) = Ok v -> v <> VNull /\ v <> VUndefined)
  /\ (forall root pr fs k,
        simple_key k = true ->
        lookup k fs = Some VNull ->
        Config.get {| Config.root := root; Config._raw := VObj pr fs |} (Some k)
        = Throw (Error (not_found_message k)))
  /\ (forall root pr fs k,
        simple_key k = true ->
        lookup k fs = None ->
        object_prototype k = VUndefined ->
        Config.get {| Config.root := root; Config._raw := VObj pr fs |} (Some k)
        = Throw (Error (not_found_message k)))
  /\ (forall root pr fs k v,
        simple_key k = true ->
        lookup k fs = Some v ->
        In v [VBool false; VNum 0; VStr ""] ->
        Config.get {| Config.root := root; Config._raw := VObj pr fs |} (Some k)
        = Ok v).
Proof.
  split; [|split; [|split]].
  - intros this p v. unfold Config.get, Config.get_body.
    destruct (Lodash.get (Config._raw this) p VUndefined) as [r| |];
      simpl; try discriminate.
    destruct (is_nullish r) eqn:Hr; [discriminate|].
    intros H. inversion H; subst. split; intros ->; discriminate.
  - intros root pr fs k Hk Hl. rewrite (get_simple_key root pr fs k Hk), Hl.
    reflexivity.
  - intros root pr fs k Hk Hl Hp. rewrite (get_simple_key root pr fs k Hk), Hl.
    rewrite Hp. now destruct pr.
  - intros root pr fs k v Hk Hl Hv.
    rewrite (get_simple_key root pr fs k Hk), Hl.
    simpl in Hv. destruct Hv as [<-|[<-|[<-|[]]]]; reflexivity.
Qed.

Lemma get_never_null_or_undefined_witness :
  Config.get Sample.falsy_store (Some "nothing")
  = Throw (Error (not_found_message "nothing"))
  /\ Config.get Sample.falsy_store (Some "missing")
     = Throw (Error (not_found_message "missing"))
  /\ Config.get Sample.falsy_store (Some "no") = Ok (VBool false)
  /\ Config.get Sample.falsy_store (Some "zero") = Ok (VNum 0)
  /\ Config.get Sample.falsy_store (Some "empty") = Ok (VStr "")
  /\ VNum 8080 <> VNull /\ VNum 8080 <> VUndefined.
Proof.
  destruct get_never_null_or_undefined as (H1 & H2 & H3 & H4).
  split; [|split; [|split; [|split; [|split]]]].
  - apply (H2 "/srv/site" true
             (Sample.fields_of (Config._raw Sample.falsy_store)) "nothing");
      reflexivity.
  - apply (H3 "/srv/site" true
             (Sample.fields_of (Config._raw Sample.falsy_store)) "missing");
      reflexivity.
  - apply (H4 "/srv/site" true
             (Sample.fields_of (Config._raw Sample.falsy_store)) "no");
      [reflexivity | reflexivity | simpl; auto].
  - apply (H4 "/srv/site" true
             (Sample.fields_of (Config._raw Sample.falsy_store)) "zero");
      [reflexivity | reflexivity | simpl; auto].
  - apply (H4 "/srv/site" true
             (Sample.fields_of (Config._raw Sample.falsy_store)) "empty");
      [reflexivity | reflexivity | simpl; auto].
  - apply (H1 Sample.updated "server.port" (VNum 8080)). reflexivity.
Defined.

(** A key that the tree lacks may still be found on Object.prototype. *)
Example get_inherited :
  Config.get Sample.updated (Some "constructor") = Ok (VIntrinsic "Object").
Proof. reflexivity. Qed.

(** ** ConfigStore: [update] as a whole *)

(** C8.  When the schema reports an error for the loaded tree, [update()]
    logs the annotated error and throws an Error whose message carries the
    name of the configuration file and the validator's message; the store is
    the one it was. *)
Theorem update_validation_error env this exported config err v :
  Config.loadConfigFile env (Config.root this) = Ok exported ->
  (if isFunction exported then Config.apply env exported [] else Ok exported)
  = Ok config ->
  Config.schema_validate env config = (Some err, v) ->
  Config.update env this
  = (this,
     [Config.LogError (Config.annotate err)],
     Throw (Error (Config.ConfigFilename env ++ " validation error: "
                   ++ Config.message err))).
Proof.
  intros Hload Hconfig Hvalidate.
  unfold Config.update, Config.update_body, Config.load_and_validate.
  cbv [bind lift]. rewrite Hload, Hconfig, Hvalidate.
  destruct this. reflexivity.
Qed.

Lemma update_validation_error_witness :
  Config.update (Sample.rejecting "path.source must be a string"
                   (Sample.env true Sample.config))
    Sample.updated
  = (Sample.updated,
     [Config.LogError "path.source must be a string"],
     Throw (Error
       "reptar.config.js validation error: path.source must be a string")).
Proof.
  apply (update_validation_error
           (Sample.rejecting "path.source must be a string"
              (Sample.env true Sample.config))
           Sample.updated Sample.config Sample.config
           {| Config.message := "path.source must be a string";
              Config.annotate := "path.source must be a string" |}
           Sample.config); reflexivity.
Defined.

(** C2, as amended.  A failure of [update()] while it loads the source,
    runs its factory or validates leaves the store as it was.  Once
    validation has passed, [this._raw] is the new tree, normalised as far as
    the remaining steps got, whatever the outcome and whatever was stored
    before. *)
Theorem update_fails_early_or_replaces env this :
  (forall e,
     configured env (Config.root this) = Throw e ->
     Config.update env this
     = (this, load_events env (Config.root this), Throw e))
  /\ (forall merged,
        configured env (Config.root this) = Ok merged ->
        Config._raw (fst (fst (Config.update env this)))
        = fst (fst (Config.normalize env (Config.root this) merged))
        /\ snd (Config.update env this)
           = snd (Config.normalize env (Config.root this) merged)).
Proof.
  unfold Config.update. rewrite update_body_stages. split.
  - intros e He. rewrite He. destruct this. reflexivity.
  - intros merged Hm. rewrite Hm.
    destruct (Config.normalize env (Config.root this) merged) as [[raw' evs] r].
    split; reflexivity.
Qed.

Lemma update_fails_early_or_replaces_witness :
  Config.update (Sample.env true Sample.config) (Config.new "/elsewhere")
  = (Config.new "/elsewhere", [],
     Throw (ModuleNotFound "/elsewhere/reptar.config.js" "")).
Proof.
  apply (proj1 (update_fails_early_or_replaces
                  (Sample.env true Sample.config) (Config.new "/elsewhere"))
           (ModuleNotFound "/elsewhere/reptar.config.js" "")).
  reflexivity.
Defined.

(** C2 fails as stated: with the reptar-excerpt package gone, [update()]
    on the example throws while resolving the middlewares, and what [get]
    hands out is no longer what it handed out before. *)
Lemma update_failure_changes_store :
  snd (Config.update (Sample.env false Sample.config) Sample.updated)
  = Throw (ModuleNotFound "reptar-excerpt" "/srv/site")
  /\ Config.get Sample.updated (Some "middlewares")
     = Ok (VArr [VFunc 10; VFunc 1; VFunc 2])
  /\ Config.get
       (fst (fst (Config.update (Sample.env false Sample.config)
                    Sample.updated)))
       (Some "middlewares")
     = Ok (VArr [VStr "reptar-excerpt"; VFunc 1; VFunc 2]).
Proof. repeat split; vm_compute; reflexivity. Qed.



Example sample_defaults_order :
  Config.get Sample.updated (Some "file.defaults.0.values.template")
  = Ok (VStr "draft")
  /\ Config.get Sample.updated (Some "file.defaults.1.scope.path")
     = Ok (VStr "/srv/site")
  /\ Config.get Sample.updated (Some "file.defaults.2.scope.path")
     = Ok (VStr "/srv/site/_posts").
Proof. repeat split. Qed.

(** ** CallableResolver: middlewares, lifecycle hooks and asset processors *)

Section Resolver.
Variable env : Config.Env.
Variable root : string.

(** What is not a string is handed back as it is, without any lookup. *)
Lemma resolveMiddlewareModules_other v raw :
  isString v = false ->
  Config.resolveMiddlewareModules env root v raw = (raw, [], Ok v).
Proof. destruct v; simpl; try discriminate; reflexivity. Qed.

Lemma resolve_use_other v raw :
  isString v = false ->
  Config.resolve_use env root v raw = (raw, [], Ok v).
Proof. destruct v; simpl; try discriminate; reflexivity. Qed.

(** A string is looked up as a module from the root. *)
Lemma resolveMiddlewareModules_string name raw :
  Config.resolveMiddlewareModules env root (VStr name) raw
  = (raw, [Config.Required name root],
     match Config.resolve_sync env name root with
     | Some m => Ok m
     | None => Throw (ModuleNotFound name root)
     end).
Proof.
  simpl. unfold Config.requireLocalModule. cbv [bind tell].
  destruct (Config.resolve_sync env name root); reflexivity.
Qed.

(** The three own keys of the table answer without any lookup. *)
Lemma resolve_use_builtin raw :
  (truthy (Config.less env) = true ->
   Config.resolve_use env root (VStr "less") raw
   = (raw, [], Ok (Config.less env)))
  /\ (truthy (Config.sass env) = true ->
      Config.resolve_use env root (VStr "sass") raw
      = (raw, [], Ok (Config.sass env)))
  /\ (truthy (Config.browserify env) = true ->
      Config.resolve_use env root (VStr "browserify") raw
      = (raw, [], Ok (Config.browserify env))).
Proof.
  repeat split; intros H; unfold Config.resolve_use; cbv [bind lift];
    simpl js_get; cbv iota; rewrite H; reflexivity.
Qed.

(** A name that is neither in the table nor on Object.prototype goes to
    the module lookup. *)
Lemma resolve_use_module name raw :
  lookup name (Sample.fields_of (Config.assetProcessors env)) = None ->
  object_prototype name = VUndefined ->
  Config.resolve_use env root (VStr name) raw
  = (raw, [Config.Required name root],
     match Config.resolve_sync env name root with
     | Some m => Ok m
     | None => Throw (ModuleNotFound name root)
     end).
Proof.
  intros Hl Hp. unfold Config.resolve_use. cbv [bind lift].
  unfold Config.assetProcessors in *. simpl Sample.fields_of in Hl.
  unfold js_get. rewrite Hl, Hp. simpl truthy. cbv iota.
  unfold Config.requireLocalModule. cbv [bind tell].
  destruct (Config.resolve_sync env name root); reflexivity.
Qed.
End Resolver.

(** C7 does not hold of the code.  [assetProcessors[useVal]] also finds what
    an object literal inherits: for the name ["constructor"] it yields the
    built-in [Object], which is truthy, so the asset's [use] becomes [Object]
    and the module of that name is never looked up, whatever is installed. *)
Theorem resolve_use_inherited_name env root raw :
  Config.resolve_use env root (VStr "constructor") raw
  = (raw, [], Ok (VIntrinsic "Object")).
Proof. reflexivity. Qed.

Example convert_asset_inherited_name :
  let env := Sample.env true Sample.config in
  Config.convert_asset env "/srv/site"
    (Sample.obj [("test", VStr "js"); ("use", VStr "toString")])
    (Config._raw Sample.updated)
  = (Config._raw Sample.updated, [],
     Ok (Sample.obj [("test", VMatcher (VRegExp "^js"));
                     ("use", VIntrinsic "Object.prototype.toString")])).
Proof. vm_compute. reflexivity. Qed.

(** ** RenderOrchestrator: [renderFileWithPlugins] *)

Section RenderPhases.
Import Renderer.
Variable World : Type.
Variable processEventHandlers :
  rvalue -> list rvalue -> World -> World * outcome rvalue.
Variable render : rvalue -> rvalue -> World -> World * outcome rvalue.


Lemma render_only file siteData eb ea w w1 r :
  given eb = false -> given ea = false ->
  render file siteData w = (w1, Ok r) ->
  renderFileWithPlugins World processEventHandlers render
    file siteData eb ea w = (w1, [Rendered file siteData], Ok (file, r)).
Proof.
  intros Hb Ha Hr. unfold renderFileWithPlugins.
  rewrite Hb, Ha. cbv [bind ret call_render]. rewrite Hr. reflexivity.
Qed.

Lemma render_then_post file siteData eb ea w w1 r w2 f' r' rest :
  given eb = false -> given ea = true ->
  render file siteData w = (w1, Ok r) ->
  processEventHandlers ea [file; r] w1 = (w2, Ok (Arr (f' :: r' :: rest))) ->
  renderFileWithPlugins World processEventHandlers render
    file siteData eb ea w
  = (w2, [Rendered file siteData; Dispatched ea [file; r]], Ok (f', r')).
Proof.
  intros Hb Ha Hr Hp. unfold renderFileWithPlugins.
  rewrite Hb, Ha. cbv [bind ret call_render await_dispatch lift].
  rewrite Hr, Hp. reflexivity.
Qed.

Lemma pre_then_render file siteData eb ea w w0 ignored w1 r :
  given eb = true -> given ea = false ->
  processEventHandlers eb [file] w = (w0, Ok ignored) ->
  render file siteData w0 = (w1, Ok r) ->
  renderFileWithPlugins World processEventHandlers render
    file siteData eb ea w
  = (w1, [Dispatched eb [file]; Rendered file siteData], Ok (file, r)).
Proof.
  intros Hb Ha Hp Hr. unfold renderFileWithPlugins.
  rewrite Hb, Ha. cbv [bind ret call_render await_dispatch lift].
  rewrite Hp, Hr. reflexivity.
Qed.

Lemma pre_render_post file siteData eb ea w w0 ignored w1 r w2 f' r' rest :
  given eb = true -> given ea = true ->
  processEventHandlers eb [file] w = (w0, Ok ignored) ->
  render file siteData w0 = (w1, Ok r) ->
  processEventHandlers ea [file; r] w1 = (w2, Ok (Arr (f' :: r' :: rest))) ->
  renderFileWithPlugins World processEventHandlers render
    file siteData eb ea w
  = (w2,
     [Dispatched eb [file]; Rendered file siteData; Dispatched ea [file; r]],
     Ok (f', r')).
Proof.
  intros Hb Ha Hp Hr Hq. unfold renderFileWithPlugins.
  rewrite Hb, Ha. cbv [bind ret call_render await_dispatch lift].
  rewrite Hp, Hr, Hq. reflexivity.
Qed.

(** Whatever the collaborators answer, these are the only calls made. *)
Lemma calls_made file siteData eb ea w c :
  In c (snd (fst (renderFileWithPlugins World processEventHandlers render
    file siteData eb ea w))) ->
  (given eb = true /\ c = Dispatched eb [file])
  \/ c = Rendered file siteData
  \/ (given ea = true /\ exists r, c = Dispatched ea [file; r]).
Proof.
  unfold renderFileWithPlugins.
  cbv [bind ret call_render await_dispatch lift].
  destruct (given eb) eqn:Hb, (given ea) eqn:Ha;
    repeat match goal with
           | |- context [processEventHandlers ?e ?p ?w0] =>
               destruct (processEventHandlers e p w0) as [? [?| |]]
           | |- context [render ?f ?d ?w0] =>
               destruct (render f d w0) as [? [?| |]]
           | |- context [destructure2 ?x] => destruct (destructure2 x)
           end;
    simpl; intros H;
    repeat match goal with
           | H : _ \/ _ |- _ => destruct H as [H|H]
           | H : False |- _ => destruct H
           end;
    subst; eauto 6.
Qed.

(** Without [eventBefore] the first call is the render. *)
Lemma render_comes_first file siteData eb ea w :
  given eb = false ->
  exists later,
    snd (fst (renderFileWithPlugins World processEventHandlers render
    file siteData eb ea w)) = Rendered file siteData :: later.
Proof.
  intros Hb. unfold renderFileWithPlugins. rewrite Hb.
  cbv [bind ret call_render await_dispatch lift].
  destruct (render file siteData w) as [w1 [r| |]]; simpl; eauto.
  destruct (given ea); simpl; eauto.
  destruct (processEventHandlers ea [file; r] w1) as [w2 [res| |]];
    simpl; eauto.
Qed.
End RenderPhases.

(** C4.  The calls leaving [renderFileWithPlugins] are: the PRE dispatch
    with [file], only with an [eventBefore]; the render of [file] itself with
    [siteData], whatever PRE resolved to; the POST dispatch with
    [(file, renderedFile)], only with an [eventAfter].  The result is the
    pair POST resolved to, or [(file, renderedFile)] without POST.  Without
    [eventBefore] and with [eventAfter]: no PRE, the render comes first, then
    POST, and the pair POST resolved to comes back. *)
Theorem renderFileWithPlugins_phases
  (World : Type)
  (processEventHandlers :
     Renderer.rvalue -> list Renderer.rvalue -> World
     -> World * outcome Renderer.rvalue)
  (render : Renderer.rvalue -> Renderer.rvalue -> World
            -> World * outcome Renderer.rvalue)
  (file siteData eb ea : Renderer.rvalue) (w : World) :
  let run := Renderer.renderFileWithPlugins World processEventHandlers render in
  (forall c, In c (snd (fst (run file siteData eb ea w))) ->
     (Renderer.given eb = true /\ c = Renderer.Dispatched eb [file])
     \/ c = Renderer.Rendered file siteData
     \/ (Renderer.given ea = true
         /\ exists r, c = Renderer.Dispatched ea [file; r]))
  /\ (Renderer.given eb = false ->
      exists later,
        snd (fst (run file siteData eb ea w))
        = Renderer.Rendered file siteData :: later)
  /\ (forall w1 r,
        Renderer.given eb = false -> Renderer.given ea = false ->
        render file siteData w = (w1, Ok r) ->
        run file siteData eb ea w
        = (w1, [Renderer.Rendered file siteData], Ok (file, r)))
  /\ (forall w1 r w2 f' r' rest,
        Renderer.given eb = false -> Renderer.given ea = true ->
        render file siteData w = (w1, Ok r) ->
        processEventHandlers ea [file; r] w1
        = (w2, Ok (Renderer.Arr (f' :: r' :: rest))) ->
        run file siteData eb ea w
        = (w2,
           [Renderer.Rendered file siteData;
            Renderer.Dispatched ea [file; r]],
           Ok (f', r')))
  /\ (forall w0 ignored w1 r,
        Renderer.given eb = true -> Renderer.given ea = false ->
        processEventHandlers eb [file] w = (w0, Ok ignored) ->
        render file siteData w0 = (w1, Ok r) ->
        run file siteData eb ea w
        = (w1,
           [Renderer.Dispatched eb [file];
            Renderer.Rendered file siteData],
           Ok (file, r)))
  /\ (forall w0 ignored w1 r w2 f' r' rest,
        Renderer.given eb = true -> Renderer.given ea = true ->
        processEventHandlers eb [file] w = (w0, Ok ignored) ->
        render file siteData w0 = (w1, Ok r) ->
        processEventHandlers ea [file; r] w1
        = (w2, Ok (Renderer.Arr (f' :: r' :: rest))) ->
        run file siteData eb ea w
        = (w2,
           [Renderer.Dispatched eb [file];
            Renderer.Rendered file siteData;
            Renderer.Dispatched ea [file; r]],
           Ok (f', r'))).
Proof.
  intros run. split; [|split; [|split; [|split; [|split]]]].
  - apply calls_made.
  - apply render_comes_first.
  - intros. eapply render_only; eassumption.
  - intros. eapply render_then_post; eassumption.
  - intros. eapply pre_then_render; eassumption.
  - intros. eapply pre_render_post; eassumption.
Qed.

Lemma renderFileWithPlugins_phases_witness :
  RenderSample.run (Renderer.Ref 1) (Renderer.Plain VNull)
    Renderer.undefined (Renderer.Plain (VStr "afterRender")) []
  = ([],
     [Renderer.Rendered (Renderer.Ref 1) (Renderer.Plain VNull);
      Renderer.Dispatched (Renderer.Plain (VStr "afterRender"))
        [Renderer.Ref 1; Renderer.Plain (VStr "<h1>untitled</h1>")]],
     Ok (Renderer.Ref 2,
         Renderer.Plain (VStr "<h1>untitled</h1><!-- min -->")))
  /\ RenderSample.run (Renderer.Ref 1) (Renderer.Plain VNull)
       (Renderer.Plain (VStr "beforeRender")) Renderer.undefined []
     = ([(1, "edited")],
        [Renderer.Dispatched (Renderer.Plain (VStr "beforeRender"))
           [Renderer.Ref 1];
         Renderer.Rendered (Renderer.Ref 1) (Renderer.Plain VNull)],
        Ok (Renderer.Ref 1, Renderer.Plain (VStr "<h1>edited</h1>"))).
Proof.
  split.
  - destruct (renderFileWithPlugins_phases RenderSample.World
                RenderSample.processEventHandlers RenderSample.render
                (Renderer.Ref 1) (Renderer.Plain VNull)
                Renderer.undefined (Renderer.Plain (VStr "afterRender")) [])
      as (_ & _ & _ & H & _).
    apply (H [] (Renderer.Plain (VStr "<h1>untitled</h1>")) []
             (Renderer.Ref 2)
             (Renderer.Plain (VStr "<h1>untitled</h1><!-- min -->")) []);
      reflexivity.
  - destruct (renderFileWithPlugins_phases RenderSample.World
                RenderSample.processEventHandlers RenderSample.render
                (Renderer.Ref 1) (Renderer.Plain VNull)
                (Renderer.Plain (VStr "beforeRender")) Renderer.undefined [])
      as (_ & _ & _ & _ & H & _).
    apply (H [(1, "edited")] (Renderer.Ref 99) [(1, "edited")]
             (Renderer.Plain (VStr "<h1>edited</h1>")));
      reflexivity.
Defined.

(** An event name that is the empty string counts as no event. *)
Example empty_event_name :
  RenderSample.run (Renderer.Ref 1) (Renderer.Plain VNull)
    (Renderer.Plain (VStr "")) (Renderer.Plain (VStr "")) []
  = ([], [Renderer.Rendered (Renderer.Ref 1) (Renderer.Plain VNull)],
     Ok (Renderer.Ref 1, Renderer.Plain (VStr "<h1>untitled</h1>"))).
Proof. reflexivity. Qed.

(** The rules are shared with the stored array: when the callback fails at
    the second rule of the sorted array, the first one already carries its
    absolute path in [file.defaults], which is still in declared order. *)
Example defaults_written_in_place :
  let late := Sample.obj [("scope.path", VStr "zzzz");
                          ("scope", Sample.obj [("path", VNum 5)])] in
  let early := Sample.obj [("scope", Sample.obj [("path", VStr "./a")])] in
  let tree := Sample.obj
    [("path", Sample.obj [("source", VStr "./")]);
     ("file", Sample.obj [("defaults", VArr [late; early])])] in
  Config.normalize (Sample.env true Sample.config) "/srv/site" tree
  = (Sample.obj
       [("path", Sample.obj [("source", VStr "/srv/site")]);
        ("file", Sample.obj
           [("defaults",
             VArr [late;
                   Sample.obj
                     [("scope",
                       Sample.obj [("path", VStr "/srv/site/a")])]])])],
     [], Throw TypeError).
Proof. vm_compute. reflexivity. Qed.

(** * Further properties *)

(** ** What [update()] leaves alone *)

Lemma entry_is_assign_raw k ov k' v' :
  k' <> k -> preserves (entry_is k ov) (Config.assign_raw k' v').
Proof.
  intros Hk raw raw' evs r (p & rf & -> & <-). unfold Config.assign_raw.
  cbv [bind Config.get_raw Eff.get lift js_set Config.set_raw put].
  intros H. inversion H; subst. exists p, (assign k' v' rf).
  split; [reflexivity|]. apply lookup_assign_other. congruence.
Qed.

Lemma entry_is_assign_in k ov a k' v' :
  a <> k -> preserves (entry_is k ov) (Config.assign_in a k' v').
Proof.
  intros Ha raw raw' evs r (p & rf & -> & <-). unfold Config.assign_in.
  cbv [bind Config.get_raw Eff.get lift Config.set_raw put].
  destruct (js_get (VObj p rf) a) as [o| |] eqn:Hg;
    try (intros H; inversion H; subst; now exists p, rf).
  destruct (js_set o k' v') as [o'| |] eqn:Hs;
    try (intros H; inversion H; subst; now exists p, rf).
  simpl. intros H. inversion H; subst.
  exists p, (assign a o' rf). split; [reflexivity|].
  apply lookup_assign_other. congruence.
Qed.

Ltac keep :=
  repeat first
    [ apply preserves_ret
    | apply preserves_lift
    | apply preserves_throw
    | apply preserves_tell
    | apply preserves_get
    | apply entry_is_assign_raw; congruence
    | apply entry_is_assign_in; congruence
    | apply preserves_mapM; intros ?
    | apply preserves_forM_; intros ?
    | apply preserves_bind; [|intros ?]
    | match goal with
      | |- preserves _ (match ?x with _ => _ end) => destruct x
      end ].

Section EntriesKept.
Variable env : Config.Env.
Variable root : string.
Variables (k : string) (ov : option value).

Lemma keep_resolve_source :
  k <> "path" -> preserves (entry_is k ov) (Config.resolve_source env root).
Proof. intros Hk. unfold Config.resolve_source. keep. Qed.

Lemma keep_each_path :
  k <> "path" -> preserves (entry_is k ov) (Config.each_path env).
Proof.
  intros Hk. unfold Config.each_path, Config.resolve_path_key. keep.
Qed.

Lemma keep_sort_defaults :
  k <> "file" -> preserves (entry_is k ov) (Config.sort_defaults env).
Proof.
  intros Hk.
  unfold Config.sort_defaults, Config.absolute_scope, Config.write_rule.
  keep.
Qed.

Lemma keep_coerce_ignore :
  k <> "ignore" -> preserves (entry_is k ov) Config.coerce_ignore.
Proof. intros Hk. unfold Config.coerce_ignore, Config.array_map. keep. Qed.

Lemma keep_requireLocalModule name basedir :
  preserves (entry_is k ov) (Config.requireLocalModule env name basedir).
Proof. unfold Config.requireLocalModule. keep. Qed.

Lemma keep_resolveMiddlewareModules x :
  preserves (entry_is k ov) (Config.resolveMiddlewareModules env root x).
Proof.
  unfold Config.resolveMiddlewareModules.
  destruct x; try apply preserves_ret. apply keep_requireLocalModule.
Qed.

Lemma keep_resolve_middlewares :
  k <> "middlewares" ->
  preserves (entry_is k ov) (Config.resolve_middlewares env root).
Proof.
  intros Hk. unfold Config.resolve_middlewares.
  apply preserves_bind; [keep | intros ?].
  apply preserves_bind; [keep | intros ?].
  apply preserves_bind;
    [apply preserves_mapM; intros ?; apply keep_resolveMiddlewareModules
    | intros ?; keep].
Qed.

Lemma keep_resolve_lifecycle :
  k <> "lifecycle" ->
  preserves (entry_is k ov) (Config.resolve_lifecycle env root).
Proof.
  intros Hk. unfold Config.resolve_lifecycle.
  apply preserves_bind; [keep | intros ?].
  apply preserves_bind; [keep | intros lifecycle].
  destruct lifecycle; try apply preserves_ret; try apply preserves_lift.
  destruct (Lodash.isArrayLike fields); [apply preserves_lift|].
  apply preserves_forM_. intros key. unfold Config.resolve_lifecycle_key.
  apply preserves_bind; [keep | intros ?].
  apply preserves_bind; [keep | intros ?].
  apply preserves_bind; [keep | intros ?].
  apply preserves_bind;
    [apply preserves_mapM; intros ?; apply keep_resolveMiddlewareModules
    | intros ?; keep].
Qed.

Lemma keep_convert_asset asset :
  preserves (entry_is k ov) (Config.convert_asset env root asset).
Proof.
  unfold Config.convert_asset.
  apply preserves_bind; [keep | intros use].
  apply preserves_bind; [|intros ?; keep].
  unfold Config.resolve_use. destruct use; try apply preserves_ret.
  apply preserves_bind; [keep | intros builtin].
  destruct (truthy builtin);
    [apply preserves_ret | apply keep_requireLocalModule].
Qed.

Lemma keep_convert_assets :
  k <> "assets" -> preserves (entry_is k ov) (Config.convert_assets env root).
Proof.
  intros Hk. unfold Config.convert_assets.
  apply preserves_bind; [keep | intros ?].
  apply preserves_bind; [keep | intros assets].
  apply preserves_bind; [|intros ?; keep].
  unfold Config.array_map. destruct assets; try apply preserves_throw.
  - apply preserves_bind;
      [apply preserves_mapM; intros ?; apply keep_convert_asset
      | intros ?; keep].
  - destruct (lookup "map" fields); keep.
Qed.

Lemma keep_normalize :
  ~ In k normalised_keys ->
  preserves (entry_is k ov) (Config.normalize env root).
Proof.
  unfold normalised_keys. simpl. intros Hk.
  assert (k <> "path" /\ k <> "file" /\ k <> "ignore" /\ k <> "middlewares"
          /\ k <> "lifecycle" /\ k <> "assets")
    as (H1 & H2 & H3 & H4 & H5 & H6)
    by (repeat split; intros ->; apply Hk; auto 10).
  unfold Config.normalize.
  apply preserves_bind; [now apply keep_resolve_source | intros _].
  apply preserves_bind; [now apply keep_each_path | intros _].
  apply preserves_bind; [now apply keep_sort_defaults | intros _].
  apply preserves_bind; [now apply keep_coerce_ignore | intros _].
  apply preserves_bind; [now apply keep_resolve_middlewares | intros _].
  apply preserves_bind; [now apply keep_resolve_lifecycle | intros _].
  now apply keep_convert_assets.
Qed.
End EntriesKept.

Lemma has_in_assign_raw a k v k' v' :
  k' <> a -> preserves (has_in a k v) (Config.assign_raw k' v').
Proof.
  intros Hk raw raw' evs r (p & rf & q & gs & -> & Hl & Hg).
  unfold Config.assign_raw.
  cbv [bind Config.get_raw Eff.get lift js_set Config.set_raw put].
  intros H. inversion H; subst. exists p, (assign k' v' rf), q, gs.
  repeat split; auto. rewrite lookup_assign_other; [exact Hl | congruence].
Qed.

Lemma has_in_assign_in a k v a' k' v' :
  a' <> a \/ k' <> k -> preserves (has_in a k v) (Config.assign_in a' k' v').
Proof.
  intros Hne raw raw' evs r (p & rf & q & gs & -> & Hl & Hg).
  unfold Config.assign_in.
  cbv [bind Config.get_raw Eff.get lift Config.set_raw put].
  destruct (js_get (VObj p rf) a') as [o| |] eqn:Ho;
    try (intros H; inversion H; subst; now exists p, rf, q, gs).
  destruct (js_set o k' v') as [o'| |] eqn:Hs;
    try (intros H; inversion H; subst; now exists p, rf, q, gs).
  simpl. intros H. inversion H; subst.
  destruct (string_dec a' a) as [->|Ha].
  - destruct Hne as [Hne|Hne]; [congruence|].
    simpl in Ho. rewrite Hl in Ho. inversion Ho; subst.
    simpl in Hs. inversion Hs; subst.
    exists p, (assign a (VObj q (assign k' v' gs)) rf), q, (assign k' v' gs).
    repeat split; [apply lookup_assign_same|].
    rewrite lookup_assign_other; [exact Hg | congruence].
  - exists p, (assign a' o' rf), q, gs. repeat split; auto.
    rewrite lookup_assign_other; [exact Hl | congruence].
Qed.

Ltac keep_in :=
  repeat first
    [ apply preserves_ret
    | apply preserves_lift
    | apply preserves_throw
    | apply preserves_tell
    | apply preserves_get
    | apply has_in_assign_raw; congruence
    | apply has_in_assign_in; (left; congruence) || (right; congruence)
    | apply preserves_mapM; intros ?
    | apply preserves_forM_; intros ?
    | apply preserves_bind; [|intros ?]
    | match goal with
      | |- preserves _ (match ?x with _ => _ end) => destruct x
      end ].

Section NestedEntriesKept.
Variable env : Config.Env.
Variable root : string.
Variables (a k : string) (v : value).

Lemma nested_requireLocalModule name basedir :
  preserves (has_in a k v) (Config.requireLocalModule env name basedir).
Proof. unfold Config.requireLocalModule. keep_in. Qed.

Lemma nested_resolveMiddlewareModules x :
  preserves (has_in a k v) (Config.resolveMiddlewareModules env root x).
Proof.
  unfold Config.resolveMiddlewareModules.
  destruct x; try apply preserves_ret. apply nested_requireLocalModule.
Qed.

Lemma nested_paths :
  a <> "path" ->
  preserves (has_in a k v)
    (Config.resolve_source env root ;; Config.each_path env).
Proof.
  intros Ha.
  apply preserves_bind; [unfold Config.resolve_source; keep_in | intros _].
  unfold Config.each_path, Config.resolve_path_key. keep_in.
Qed.

Lemma nested_sort_defaults :
  a <> "file" \/ k <> "defaults" ->
  preserves (has_in a k v) (Config.sort_defaults env).
Proof.
  intros [Ha|Hk];
    unfold Config.sort_defaults, Config.absolute_scope, Config.write_rule;
    keep_in.
Qed.

Lemma nested_coerce_ignore :
  a <> "ignore" -> preserves (has_in a k v) Config.coerce_ignore.
Proof.
  intros Ha. unfold Config.coerce_ignore, Config.array_map. keep_in.
Qed.

Lemma nested_resolve_middlewares :
  a <> "middlewares" ->
  preserves (has_in a k v) (Config.resolve_middlewares env root).
Proof.
  intros Ha. unfold Config.resolve_middlewares.
  apply preserves_bind; [keep_in | intros ?].
  apply preserves_bind; [keep_in | intros ?].
  apply preserves_bind;
    [apply preserves_mapM; intros ?; apply nested_resolveMiddlewareModules
    | intros ?; keep_in].
Qed.

Lemma nested_resolve_lifecycle_key key :
  a <> "lifecycle" \/ key <> k ->
  preserves (has_in a k v) (Config.resolve_lifecycle_key env root key).
Proof.
  intros Hne. unfold Config.resolve_lifecycle_key.
  apply preserves_bind; [keep_in | intros ?].
  apply preserves_bind; [keep_in | intros ?].
  apply preserves_bind; [keep_in | intros ?].
  apply preserves_bind;
    [apply preserves_mapM; intros ?; apply nested_resolveMiddlewareModules
    | intros ?].
  apply has_in_assign_in. destruct Hne; [now left | now right].
Qed.

Lemma nested_resolve_lifecycle :
  a <> "lifecycle" ->
  preserves (has_in a k v) (Config.resolve_lifecycle env root).
Proof.
  intros Ha. unfold Config.resolve_lifecycle.
  apply preserves_bind; [keep_in | intros ?].
  apply preserves_bind; [keep_in | intros lifecycle].
  destruct lifecycle; try apply preserves_ret; try apply preserves_lift.
  destruct (Lodash.isArrayLike fields); [apply preserves_lift|].
  apply preserves_forM_. intros key.
  apply nested_resolve_lifecycle_key. now left.
Qed.

Lemma nested_convert_assets :
  a <> "assets" ->
  preserves (has_in a k v) (Config.convert_assets env root).
Proof.
  intros Ha. unfold Config.convert_assets.
  apply preserves_bind; [keep_in | intros ?].
  apply preserves_bind; [keep_in | intros assets].
  apply preserves_bind; [|intros ?; keep_in].
  assert (Hasset : forall asset,
    preserves (has_in a k v) (Config.convert_asset env root asset)).
  { intros asset. unfold Config.convert_asset.
    apply preserves_bind; [keep_in | intros use].
    apply preserves_bind; [|intros ?; keep_in].
    unfold Config.resolve_use. destruct use; try apply preserves_ret.
    apply preserves_bind; [keep_in | intros builtin].
    destruct (truthy builtin);
      [apply preserves_ret | apply nested_requireLocalModule]. }
  unfold Config.array_map. destruct assets; try apply preserves_throw.
  - apply preserves_bind; [now apply preserves_mapM | intros ?; keep_in].
  - destruct (lookup "map" fields); keep_in.
Qed.

Lemma nested_rest :
  a <> "ignore" -> a <> "middlewares" -> a <> "lifecycle" -> a <> "assets" ->
  preserves (has_in a k v)
    (Config.coerce_ignore ;;
     Config.resolve_middlewares env root ;;
     Config.resolve_lifecycle env root ;;
     Config.convert_assets env root).
Proof.
  intros H1 H2 H3 H4.
  apply preserves_bind; [now apply nested_coerce_ignore | intros _].
  apply preserves_bind; [now apply nested_resolve_middlewares | intros _].
  apply preserves_bind; [now apply nested_resolve_lifecycle | intros _].
  now apply nested_convert_assets.
Qed.
End NestedEntriesKept.

Lemma file_normalize env root k v :
  k <> "defaults" ->
  preserves (has_in "file" k v) (Config.normalize env root).
Proof.
  intros Hk. unfold Config.normalize.
  apply preserves_bind;
    [unfold Config.resolve_source; keep_in | intros _].
  apply preserves_bind;
    [unfold Config.each_path, Config.resolve_path_key; keep_in | intros _].
  apply preserves_bind; [apply nested_sort_defaults; now right | intros _].
  apply nested_rest; discriminate.
Qed.

(** X1.  Whatever [update()] does after validation, and however it ends,
    it leaves alone every entry of the tree other than [path], [file],
    [ignore], [middlewares], [lifecycle] and [assets], and every entry of
    [file] other than [defaults]: they hold what was configured. *)
Theorem update_keeps_other_entries env this merged :
  configured env (Config.root this) = Ok merged ->
  (forall k v,
     ~ In k normalised_keys ->
     has_entry k v merged ->
     has_entry k v (Config._raw (fst (fst (Config.update env this)))))
  /\ (forall k v,
        k <> "defaults" ->
        has_in "file" k v merged ->
        has_in "file" k v (Config._raw (fst (fst (Config.update env this))))).
Proof.
  intros Hm. unfold Config.update. rewrite update_body_stages, Hm.
  destruct (Config.normalize env (Config.root this) merged)
    as [[raw' evs] r] eqn:Hn. simpl.
  split.
  - intros k v Hk Hv.
    exact (keep_normalize env (Config.root this) k (Some v) Hk _ _ _ _ Hv Hn).
  - intros k v Hk Hv.
    exact (file_normalize env (Config.root this) k v Hk _ _ _ _ Hv Hn).
Qed.

Lemma update_keeps_other_entries_witness :
  has_entry "server"
    (Sample.obj [("port", VNum 8080); ("host", VStr "127.0.0.1");
                 ("baseurl", VStr "")])
    (Config._raw (fst (fst (Config.update (Sample.env false Sample.config)
                              (Config.new "/srv/site")))))
  /\ has_in "file" "date_format" (VStr "YYYY-M-D")
       (Config._raw (fst (fst (Config.update (Sample.env false Sample.config)
                                 (Config.new "/srv/site"))))).
Proof.
  destruct (update_keeps_other_entries (Sample.env false Sample.config)
              (Config.new "/srv/site")
              (Sample.fill Sample.config Sample.defaults) eq_refl)
    as [H1 H2].
  split.
  - apply H1.
    + unfold normalised_keys. simpl.
      intros H. repeat (destruct H as [H|H]; [discriminate|]). exact H.
    + eexists _, _. split; reflexivity.
  - apply H2; [discriminate|].
    eexists _, _, _, _. repeat split; reflexivity.
Defined.

(** ** What a successful [update()] stores *)

Lemma normalize_steps env root merged raw' evs :
  Config.normalize env root merged = (raw', evs, Ok tt) ->
  exists r1 r2 r3 r4 r5 r6 e1 e2 e3 e4 e5 e6 e7,
    Config.resolve_source env root merged = (r1, e1, Ok tt)
    /\ Config.each_path env r1 = (r2, e2, Ok tt)
    /\ Config.sort_defaults env r2 = (r3, e3, Ok tt)
    /\ Config.coerce_ignore r3 = (r4, e4, Ok tt)
    /\ Config.resolve_middlewares env root r4 = (r5, e5, Ok tt)
    /\ Config.resolve_lifecycle env root r5 = (r6, e6, Ok tt)
    /\ Config.convert_assets env root r6 = (raw', e7, Ok tt)
    /\ evs = e1 ++ e2 ++ e3 ++ e4 ++ e5 ++ e6 ++ e7.
Proof.
  unfold Config.normalize. intros H.
  apply bind_ok_inv in H. destruct H as (r1 & e1 & [] & ? & H1 & H & ->).
  apply bind_ok_inv in H. destruct H as (r2 & e2 & [] & ? & H2 & H & ->).
  apply bind_ok_inv in H. destruct H as (r3 & e3 & [] & ? & H3 & H & ->).
  apply bind_ok_inv in H. destruct H as (r4 & e4 & [] & ? & H4 & H & ->).
  apply bind_ok_inv in H. destruct H as (r5 & e5 & [] & ? & H5 & H & ->).
  apply bind_ok_inv in H. destruct H as (r6 & e6 & [] & e7 & H6 & H & ->).
  exists r1, r2, r3, r4, r5, r6, e1, e2, e3, e4, e5, e6, e7.
  repeat split; assumption.
Qed.

Lemma update_ok_normalize env this this' evs :
  Config.update env this = (this', evs, Ok tt) ->
  exists merged evs',
    configured env (Config.root this) = Ok merged
    /\ Config.normalize env (Config.root this) merged
       = (Config._raw this', evs', Ok tt).
Proof.
  unfold Config.update. rewrite update_body_stages.
  destruct (configured env (Config.root this)) as [merged| |];
    try discriminate.
  destruct (Config.normalize env (Config.root this) merged)
    as [[raw' evs'] r] eqn:Hn.
  intros H. inversion H; subst. now exists merged, evs'.
Qed.

Lemma mapM_lift {S E A B} (g : A -> outcome B) (xs : list A) (s : S) :
  mapM (E := E) (fun x => lift (g x)) xs s = (s, [], omap g xs).
Proof.
  induction xs as [|x xs IH]; simpl; [reflexivity|].
  unfold bind at 1. unfold lift at 1.
  destruct (g x) as [y| |]; simpl; try reflexivity.
  unfold bind at 1. rewrite IH.
  destruct (omap g xs); reflexivity.
Qed.

Lemma omap_ok_Forall2 {A B} (g : A -> outcome B) xs : forall ys,
  omap g xs = Ok ys -> Forall2 (fun x y => g x = Ok y) xs ys.
Proof.
  induction xs as [|x xs IH]; simpl; intros ys H.
  - inversion H. constructor.
  - destruct (g x) as [y| |] eqn:Hx; simpl in H; try discriminate.
    destruct (omap g xs) as [ys'| |]; simpl in H; try discriminate.
    inversion H; subst. constructor; auto.
Qed.

Lemma mapM_ok_inv {S E A B} (P : S -> Prop) (R : A -> B -> Prop)
  (f : A -> Eff.M S E B) :
  (forall x s s' evs y, P s -> f x s = (s', evs, Ok y) -> R x y /\ P s') ->
  forall xs s s' evs ys,
    P s -> mapM f xs s = (s', evs, Ok ys) -> Forall2 R xs ys /\ P s'.
Proof.
  intros Hf. induction xs as [|x xs IH]; simpl; intros s s' evs ys HP H.
  - apply ret_inv in H. destruct H as (H & -> & _). inversion H.
    split; [constructor | exact HP].
  - apply bind_ok_inv in H. destruct H as (s1 & e1 & y & e2 & Hx & H & _).
    apply bind_ok_inv in H. destruct H as (s2 & e3 & ys' & e4 & Hxs & H & _).
    apply ret_inv in H. destruct H as (H & -> & _). inversion H; subst.
    destruct (Hf _ _ _ _ _ HP Hx) as [HR HP1].
    destruct (IH _ _ _ _ HP1 Hxs) as [HF HP2].
    split; [now constructor | exact HP2].
Qed.

Lemma js_get_array p fs k xs :
  js_get (VObj p fs) k = Ok (VArr xs) -> lookup k fs = Some (VArr xs).
Proof.
  intros H. apply js_get_own in H. destruct H as [H|[_ H]]; [exact H|].
  destruct p; [|discriminate].
  destruct (object_prototype_cases k) as [E|[n E]]; rewrite E in H;
    discriminate.
Qed.

Lemma assign_raw_ok k v raw raw' evs :
  Config.assign_raw k v raw = (raw', evs, Ok tt) -> has_entry k v raw'.
Proof.
  unfold Config.assign_raw.
  cbv [bind Config.get_raw Eff.get lift Config.set_raw put].
  destruct (js_set raw k v) as [o| |] eqn:Hs; try discriminate.
  simpl. intros H. inversion H; subst.
  apply js_set_ok in Hs. destruct Hs as (p & fs & -> & ->).
  exists p, (assign k v fs). split; [reflexivity | apply lookup_assign_same].
Qed.

Lemma assign_in_ok a k v raw raw' evs :
  Config.assign_in a k v raw = (raw', evs, Ok tt) -> has_in a k v raw'.
Proof.
  unfold Config.assign_in.
  cbv [bind Config.get_raw Eff.get lift Config.set_raw put].
  destruct (js_get raw a) as [o| |]; try discriminate.
  destruct (js_set o k v) as [o'| |] eqn:Hs; try discriminate.
  destruct (js_set raw a o') as [r| |] eqn:Hs'; try discriminate.
  simpl. intros H. inversion H; subst.
  apply js_set_ok in Hs. destruct Hs as (q & gs & -> & ->).
  apply js_set_ok in Hs'. destruct Hs' as (p & fs & -> & ->).
  exists p, (assign a (VObj q (assign k v gs)) fs), q, (assign k v gs).
  repeat split; apply lookup_assign_same.
Qed.

(** [valueToFunction] always answers a function, and leaves a function it
    is given as it is. *)
Lemma valueToFunction_result v f :
  Config.valueToFunction v = Ok f ->
  isFunction f = true /\ Config.valueToFunction f = Ok f.
Proof.
  intros H.
  assert (Hf : isFunction f = true).
  { revert H. unfold Config.valueToFunction.
    match goal with
    | |- obind ?first _ = _ -> _ => destruct first as [fv| |]
    end; simpl; try discriminate.
    destruct (isFunction fv) eqn:Hfv; simpl; intros H; inversion H; subst;
      [exact Hfv | reflexivity]. }
  split; [exact Hf | now apply valueToFunction_function].
Qed.

Lemma array_map_ok f arr s s' evs r :
  Config.array_map f arr s = (s', evs, Ok r) ->
  exists xs ys, arr = VArr xs /\ r = VArr ys
                /\ mapM f xs s = (s', evs, Ok ys).
Proof.
  unfold Config.array_map. destruct arr; try discriminate.
  - intros H. apply bind_ok_inv in H.
    destruct H as (s1 & e1 & ys & e2 & Hm & H & ->).
    apply ret_inv in H. destruct H as (H & -> & ->). inversion H; subst.
    exists elems, ys. rewrite app_nil_r. auto.
  - destruct (lookup "map" fields); discriminate.
Qed.

Lemma coerce_ignore_ok ov raw raw' evs :
  entry_is "ignore" ov raw ->
  Config.coerce_ignore raw = (raw', evs, Ok tt) ->
  exists xs fs,
    ov = Some (VArr xs)
    /\ has_entry "ignore" (VArr fs) raw'
    /\ Forall2 (fun x f => Config.valueToFunction x = Ok f) xs fs.
Proof.
  intros (p & rf & -> & <-). unfold Config.coerce_ignore. intros H.
  apply bind_ok_inv in H. destruct H as (s1 & e1 & raw0 & e2 & Hg & H & _).
  inversion Hg; subst. clear Hg.
  apply bind_ok_inv in H. destruct H as (s2 & e3 & ignore & e4 & Hg & H & _).
  apply lift_ok_inv in Hg. destruct Hg as (Hg & -> & _).
  apply bind_ok_inv in H. destruct H as (s3 & e5 & coerced & e6 & Hm & H & _).
  apply array_map_ok in Hm. destruct Hm as (xs & fs & -> & -> & Hm).
  rewrite mapM_lift in Hm. inversion Hm; subst.
  exists xs, fs. split; [|split].
  - f_equal. now apply js_get_array in Hg.
  - now apply assign_raw_ok in H.
  - now apply omap_ok_Forall2.
Qed.

(** X2.  After a successful [update()] the [ignore] entry holds, place for
    place, what [valueToFunction] makes of the configured entries: as many
    values, each of them a function. *)
Theorem update_ignore_predicates env this this' evs :
  Config.update env this = (this', evs, Ok tt) ->
  exists merged xs fs,
    configured env (Config.root this) = Ok merged
    /\ has_entry "ignore" (VArr xs) merged
    /\ has_entry "ignore" (VArr fs) (Config._raw this')
    /\ Forall2 (fun x f => Config.valueToFunction x = Ok f
                           /\ isFunction f = true) xs fs.
Proof.
  intros Hup. destruct (update_ok_normalize _ _ _ _ Hup) as (merged & evs' & Hm & Hn).
  destruct (normalize_steps _ _ _ _ _ Hn)
    as (r1 & r2 & r3 & r4 & r5 & r6 & e1 & e2 & e3 & e4 & e5 & e6 & e7
        & H1 & H2 & H3 & H4 & H5 & H6 & H7 & _).
  destruct (resolve_source_ok _ _ _ _ _ H1)
    as (p & rf & _ & _ & _ & _ & Hmerged & _).
  assert (E0 : entry_is "ignore" (lookup "ignore" rf) merged)
    by (now exists p, rf).
  assert (E3 : entry_is "ignore" (lookup "ignore" rf) r3).
  { eapply keep_sort_defaults; [discriminate| |exact H3].
    eapply keep_each_path; [discriminate| |exact H2].
    eapply keep_resolve_source; [discriminate|exact E0|exact H1]. }
  destruct (coerce_ignore_ok _ _ _ _ E3 H4) as (xs & fs & Hov & E4 & HF).
  exists merged, xs, fs. split; [exact Hm|]. split; [|split].
  - unfold has_entry. now rewrite <- Hov.
  - eapply keep_convert_assets; [discriminate| |exact H7].
    eapply keep_resolve_lifecycle; [discriminate| |exact H6].
    eapply keep_resolve_middlewares; [discriminate|exact E4|exact H5].
  - eapply Forall2_impl; [|exact HF].
    intros x f Hx. split; [exact Hx|].
    exact (proj1 (valueToFunction_result _ _ Hx)).
Qed.

Lemma update_ignore_predicates_witness :
  exists merged xs fs,
    configured More.env "/srv/site" = Ok merged
    /\ has_entry "ignore" (VArr xs) merged
    /\ has_entry "ignore" (VArr fs) (Config._raw More.updated)
    /\ Forall2 (fun x f => Config.valueToFunction x = Ok f
                           /\ isFunction f = true) xs fs.
Proof.
  apply (update_ignore_predicates More.env (Config.new "/srv/site")
           More.updated [Config.Required "reptar-excerpt" "/srv/site"]).
  vm_compute. reflexivity.
Defined.

Example more_ignore :
  Config.get More.updated (Some "ignore")
  = Ok (VArr [VMatcher (VRegExp "^_drafts");
              VMatcher (VRegExp "\.tmp$");
              VFunc 7]).
Proof. vm_compute. reflexivity. Qed.

(** ** Middlewares *)

Lemma mapM_resolveMiddlewareModules env root xs : forall s s' evs rs,
  mapM (Config.resolveMiddlewareModules env root) xs s = (s', evs, Ok rs) ->
  s' = s /\ evs = lookups root xs /\ Forall2 (resolved_as env root) xs rs.
Proof.
  induction xs as [|x xs IH]; simpl; intros s s' evs rs H.
  - apply ret_inv in H. destruct H as (H & -> & ->). inversion H.
    repeat split. constructor.
  - apply bind_ok_inv in H. destruct H as (s1 & e1 & y & e2 & Hx & H & ->).
    apply bind_ok_inv in H. destruct H as (s2 & e3 & ys & e4 & Hxs & H & ->).
    apply ret_inv in H. destruct H as (H & -> & ->). inversion H; subst.
    destruct (IH _ _ _ _ Hxs) as (-> & -> & HF).
    rewrite app_nil_r.
    destruct (isString x) eqn:Hstr.
    + destruct x as [ | |b|n|name|src|id|nm|re|el|pr fl]; try discriminate.
      rewrite resolveMiddlewareModules_string in Hx.
      destruct (Config.resolve_sync env name root) as [m|] eqn:Hm;
        inversion Hx; subst.
      repeat split. constructor; [exact Hm | exact HF].
    + rewrite (resolveMiddlewareModules_other env root x s Hstr) in Hx.
      inversion Hx; subst. repeat split.
      * destruct y; try discriminate; reflexivity.
      * constructor; [|exact HF]. destruct y; try discriminate; reflexivity.
Qed.

Lemma resolve_middlewares_ok env root ov raw raw' evs :
  entry_is "middlewares" ov raw ->
  Config.resolve_middlewares env root raw = (raw', evs, Ok tt) ->
  let configured := match ov with Some m => m | None => VUndefined end in
  exists rs,
    has_entry "middlewares" (VArr rs) raw'
    /\ Forall2 (resolved_as env root) (Lodash.flatten [configured]) rs
    /\ evs = lookups root (Lodash.flatten [configured]).
Proof.
  intros (p & rf & -> & <-). unfold Config.resolve_middlewares. intros H.
  apply bind_ok_inv in H. destruct H as (s1 & e1 & raw0 & e2 & Hg & H & ->).
  inversion Hg; subst. clear Hg.
  apply bind_ok_inv in H. destruct H as (s2 & e3 & m & e4 & Hg & H & ->).
  apply lift_ok_inv in Hg. destruct Hg as (Hg & -> & ->).
  apply bind_ok_inv in H. destruct H as (s3 & e5 & rs & e6 & Hm & H & ->).
  apply mapM_resolveMiddlewareModules in Hm. destruct Hm as (-> & -> & HF).
  assert (Hconf : m = match lookup "middlewares" rf with
                      | Some m => m
                      | None => VUndefined
                      end).
  { simpl in Hg. destruct (lookup "middlewares" rf).
    - now inversion Hg.
    - destruct p; now inversion Hg. }
  subst m. exists rs. split; [now apply assign_raw_ok in H|].
  split; [exact HF|].
  unfold Config.assign_raw in H.
  cbv [bind Config.get_raw Eff.get lift Config.set_raw put js_set] in H.
  inversion H; subst. simpl. now rewrite app_nil_r.
Qed.

(** X3.  After a successful [update()] the [middlewares] entry is an array
    that holds, place for place, the configured list flattened by one level
    (a single value counts as a list of one): every string of it replaced
    by the module of that name found from the root, everything else,
    an inner array included, as it was. *)
Theorem update_middlewares_resolved env this this' evs :
  Config.update env this = (this', evs, Ok tt) ->
  exists merged ov rs,
    configured env (Config.root this) = Ok merged
    /\ entry_is "middlewares" ov merged
    /\ has_entry "middlewares" (VArr rs) (Config._raw this')
    /\ Forall2 (resolved_as env (Config.root this))
         (Lodash.flatten [match ov with Some m => m | None => VUndefined end])
         rs.
Proof.
  intros Hup.
  destruct (update_ok_normalize _ _ _ _ Hup) as (merged & evs' & Hm & Hn).
  destruct (normalize_steps _ _ _ _ _ Hn)
    as (r1 & r2 & r3 & r4 & r5 & r6 & e1 & e2 & e3 & e4 & e5 & e6 & e7
        & H1 & H2 & H3 & H4 & H5 & H6 & H7 & _).
  destruct (resolve_source_ok _ _ _ _ _ H1)
    as (p & rf & _ & _ & _ & _ & Hmerged & _).
  assert (E0 : entry_is "middlewares" (lookup "middlewares" rf) merged)
    by (now exists p, rf).
  assert (E4 : entry_is "middlewares" (lookup "middlewares" rf) r4).
  { eapply keep_coerce_ignore; [discriminate| |exact H4].
    eapply keep_sort_defaults; [discriminate| |exact H3].
    eapply keep_each_path; [discriminate| |exact H2].
    eapply keep_resolve_source; [discriminate|exact E0|exact H1]. }
  destruct (resolve_middlewares_ok _ _ _ _ _ _ E4 H5) as (rs & E5 & HF & _).
  exists merged, (lookup "middlewares" rf), rs.
  split; [exact Hm|]. split; [exact E0|]. split; [|exact HF].
  eapply keep_convert_assets; [discriminate| |exact H7].
  eapply keep_resolve_lifecycle; [discriminate|exact E5|exact H6].
Qed.

Lemma update_middlewares_resolved_witness :
  exists merged ov rs,
    configured More.env "/srv/site" = Ok merged
    /\ entry_is "middlewares" ov merged
    /\ has_entry "middlewares" (VArr rs) (Config._raw More.updated)
    /\ Forall2 (resolved_as More.env "/srv/site")
         (Lodash.flatten [match ov with Some m => m | None => VUndefined end])
         rs.
Proof.
  apply (update_middlewares_resolved More.env (Config.new "/srv/site")
           More.updated [Config.Required "reptar-excerpt" "/srv/site"]).
  vm_compute. reflexivity.
Defined.

(** A string inside an inner list is not looked up. *)
Example more_middlewares :
  Config.get More.updated (Some "middlewares")
  = Ok (VArr [VFunc 10; VFunc 1; VArr [VStr "reptar-html-minifier"]]).
Proof. vm_compute. reflexivity. Qed.

(** ** Asset rules *)

Lemma convert_asset_ok env root x s s' evs y :
  Config.convert_asset env root x s = (s', evs, Ok y) -> asset_converted x y.
Proof.
  unfold Config.convert_asset. intros H.
  apply bind_ok_inv in H. destruct H as (s1 & e1 & use & e2 & Hu & H & _).
  apply bind_ok_inv in H. destruct H as (s2 & e3 & useVal & e4 & _ & H & _).
  apply bind_ok_inv in H. destruct H as (s3 & e5 & test & e6 & Ht & H & _).
  apply lift_ok_inv in Ht. destruct Ht as (Ht & _ & _).
  apply bind_ok_inv in H. destruct H as (s4 & e7 & f & e8 & Hf & H & _).
  apply lift_ok_inv in Hf. destruct Hf as (Hf & _ & _).
  apply ret_inv in H. destruct H as (H & _ & _). inversion H; subst.
  exists test, f, useVal. repeat split; auto.
  exact (proj1 (valueToFunction_result _ _ Hf)).
Qed.

Lemma convert_assets_ok env root ov raw raw' evs :
  entry_is "assets" ov raw ->
  Config.convert_assets env root raw = (raw', evs, Ok tt) ->
  exists xs ys,
    ov = Some (VArr xs)
    /\ has_entry "assets" (VArr ys) raw'
    /\ Forall2 asset_converted xs ys.
Proof.
  intros (p & rf & -> & <-). unfold Config.convert_assets. intros H.
  apply bind_ok_inv in H. destruct H as (s1 & e1 & raw0 & e2 & Hg & H & _).
  inversion Hg; subst. clear Hg.
  apply bind_ok_inv in H. destruct H as (s2 & e3 & assets & e4 & Hg & H & _).
  apply lift_ok_inv in Hg. destruct Hg as (Hg & -> & _).
  apply bind_ok_inv in H. destruct H as (s3 & e5 & converted & e6 & Hm & H & _).
  apply array_map_ok in Hm. destruct Hm as (xs & ys & -> & -> & Hm).
  exists xs, ys. split; [|split].
  - f_equal. now apply js_get_array in Hg.
  - now apply assign_raw_ok in H.
  - refine (proj1 (mapM_ok_inv (fun _ => True) asset_converted
                     (Config.convert_asset env root) _ xs _ _ _ _ I Hm)).
    intros x s s' evs0 y _ Hx. split; [|exact I].
    exact (convert_asset_ok _ _ _ _ _ _ _ Hx).
Qed.

(** X4.  After a successful [update()] the [assets] entry holds one object
    for every configured asset rule, in the same order, and each of them
    has exactly two entries: [test], a function made by [valueToFunction]
    from the rule's own [test], and [use].  Any other key of a rule is
    gone. *)
Theorem update_assets_converted env this this' evs :
  Config.update env this = (this', evs, Ok tt) ->
  exists merged xs ys,
    configured env (Config.root this) = Ok merged
    /\ has_entry "assets" (VArr xs) merged
    /\ has_entry "assets" (VArr ys) (Config._raw this')
    /\ Forall2 asset_converted xs ys.
Proof.
  intros Hup.
  destruct (update_ok_normalize _ _ _ _ Hup) as (merged & evs' & Hm & Hn).
  destruct (normalize_steps _ _ _ _ _ Hn)
    as (r1 & r2 & r3 & r4 & r5 & r6 & e1 & e2 & e3 & e4 & e5 & e6 & e7
        & H1 & H2 & H3 & H4 & H5 & H6 & H7 & _).
  destruct (resolve_source_ok _ _ _ _ _ H1)
    as (p & rf & _ & _ & _ & _ & Hmerged & _).
  assert (E0 : entry_is "assets" (lookup "assets" rf) merged)
    by (now exists p, rf).
  assert (E6 : entry_is "assets" (lookup "assets" rf) r6).
  { eapply keep_resolve_lifecycle; [discriminate| |exact H6].
    eapply keep_resolve_middlewares; [discriminate| |exact H5].
    eapply keep_coerce_ignore; [discriminate| |exact H4].
    eapply keep_sort_defaults; [discriminate| |exact H3].
    eapply keep_each_path; [discriminate| |exact H2].
    eapply keep_resolve_source; [discriminate|exact E0|exact H1]. }
  destruct (convert_assets_ok _ _ _ _ _ _ E6 H7) as (xs & ys & Hov & E7 & HF).
  exists merged, xs, ys. split; [exact Hm|]. split; [|split; assumption].
  unfold has_entry. now rewrite <- Hov.
Qed.

Lemma update_assets_converted_witness :
  exists merged xs ys,
    configured More.env "/srv/site" = Ok merged
    /\ has_entry "assets" (VArr xs) merged
    /\ has_entry "assets" (VArr ys) (Config._raw More.updated)
    /\ Forall2 asset_converted xs ys.
Proof.
  apply (update_assets_converted More.env (Config.new "/srv/site")
           More.updated [Config.Required "reptar-excerpt" "/srv/site"]).
  vm_compute. reflexivity.
Defined.

Example more_assets :
  Config.get More.updated (Some "assets")
  = Ok (VArr [Sample.obj [("test", VMatcher (VRegExp "^less"));
                          ("use", Sample.processor 30)]]).
Proof. vm_compute. reflexivity. Qed.

(** ** Default rules *)

Lemma bind_intro {S E A B} (m : Eff.M S E A) (f : A -> Eff.M S E B)
  s s1 e1 a s2 e2 r :
  m s = (s1, e1, Ok a) -> f a s1 = (s2, e2, r) ->
  bind m f s = (s2, e1 ++ e2, r).
Proof. intros Hm Hf. unfold bind. now rewrite Hm, Hf. Qed.

Lemma has_paths_absolute_scope env pp cur e :
  preserves (has_paths pp cur) (Config.absolute_scope env e).
Proof. unfold Config.absolute_scope, Config.write_rule. preserve. Qed.

Lemma absolute_scope_ok env pp cur source e s s' evs y :
  has_paths pp cur s ->
  lookup "source" cur = Some (VStr source) ->
  Config.absolute_scope env e s = (s', evs, Ok y) ->
  rule_resolved (Config.cwd env) source (Lodash.element e) y.
Proof.
  intros (p0 & rf & -> & Hl) Hs. unfold Config.absolute_scope. intros H.
  apply bind_ok_inv in H. destruct H as (s1 & e1 & scope & e2 & Hg & H & _).
  apply lift_ok_inv in Hg. destruct Hg as (Hscope & -> & _).
  apply bind_ok_inv in H. destruct H as (s2 & e3 & sp & e4 & Hg & H & _).
  apply lift_ok_inv in Hg. destruct Hg as (Hsp & -> & _).
  exists scope, sp. split; [exact Hscope|]. split; [exact Hsp|].
  destruct (is_nullish sp) eqn:Hn; simpl in H.
  - apply ret_inv in H. destruct H as (H & _ & _). inversion H. now left.
  - right. split; [reflexivity|].
    apply bind_ok_inv in H. destruct H as (s3 & e5 & raw & e6 & Hg & H & _).
    inversion Hg; subst. clear Hg.
    apply bind_ok_inv in H. destruct H as (s4 & e7 & paths & e8 & Hg & H & _).
    apply lift_ok_inv in Hg. destruct Hg as (Hp & -> & _).
    simpl in Hp. rewrite Hl in Hp. inversion Hp; subst. clear Hp.
    apply bind_ok_inv in H. destruct H as (s5 & e9 & src & e10 & Hg & H & _).
    apply lift_ok_inv in Hg. destruct Hg as (Hsrc & -> & _).
    simpl in Hsrc. rewrite Hs in Hsrc. inversion Hsrc; subst. clear Hsrc.
    apply bind_ok_inv in H. destruct H as (s6 & e11 & r & e12 & Hg & H & _).
    apply lift_ok_inv in Hg. destruct Hg as (Hr & -> & _).
    apply bind_ok_inv in H. destruct H as (s7 & e13 & sc' & e14 & Hg & H & _).
    apply lift_ok_inv in Hg. destruct Hg as (Hsc & -> & _).
    apply bind_ok_inv in H. destruct H as (s8 & e15 & d' & e16 & Hg & H & _).
    apply lift_ok_inv in Hg. destruct Hg as (Hd & -> & _).
    apply bind_ok_inv in H. destruct H as (s9 & e17 & [] & e18 & _ & H & _).
    apply ret_inv in H. destruct H as (H & _ & _). inversion H; subst.
    exists r, sc'. auto.
Qed.

Lemma Forall2_map_left {A B C} (g : A -> B) (R : B -> C -> Prop) xs ys :
  Forall2 (fun x y => R (g x) y) xs ys -> Forall2 R (map g xs) ys.
Proof. induction 1; simpl; constructor; auto. Qed.

Lemma sort_defaults_ok env pp cur source d raw raw' evs :
  has_paths pp cur raw ->
  lookup "source" cur = Some (VStr source) ->
  has_in "file" "defaults" d raw ->
  Config.sort_defaults env raw = (raw', evs, Ok tt) ->
  exists sorted mapped,
    Config.sortedDefaults d = Ok sorted
    /\ Forall2 (rule_resolved (Config.cwd env) source) sorted mapped
    /\ has_in "file" "defaults" (VArr mapped) raw'.
Proof.
  intros Hp Hs (p & rf & q & gs & -> & Hf & Hd).
  unfold Config.sort_defaults. intros H.
  apply bind_ok_inv in H. destruct H as (s1 & e1 & raw0 & e2 & Hg & H & _).
  inversion Hg; subst. clear Hg.
  apply bind_ok_inv in H. destruct H as (s2 & e3 & file & e4 & Hg & H & _).
  apply lift_ok_inv in Hg. destruct Hg as (Hg & -> & _).
  simpl in Hg. rewrite Hf in Hg. inversion Hg; subst. clear Hg.
  apply bind_ok_inv in H. destruct H as (s3 & e5 & defaults & e6 & Hg & H & _).
  apply lift_ok_inv in Hg. destruct Hg as (Hg & -> & _).
  simpl in Hg. rewrite Hd in Hg. inversion Hg; subst. clear Hg.
  apply bind_ok_inv in H. destruct H as (s4 & e7 & es & e8 & Hg & H & _).
  apply lift_ok_inv in Hg. destruct Hg as (Hes & -> & _).
  apply bind_ok_inv in H. destruct H as (s5 & e9 & mapped & e10 & Hm & H & _).
  exists (map Lodash.element es), mapped. split; [|split].
  - unfold Config.sortedDefaults. now rewrite Hes.
  - apply Forall2_map_left.
    refine (proj1 (mapM_ok_inv (has_paths pp cur)
                     (fun e y => rule_resolved (Config.cwd env) source
                                   (Lodash.element e) y)
                     (Config.absolute_scope env) _ es _ _ _ _ Hp Hm)).
    intros e s s' evs0 y HP He. split.
    + exact (absolute_scope_ok _ _ _ _ _ _ _ _ _ HP Hs He).
    + exact (has_paths_absolute_scope env pp cur e _ _ _ _ HP He).
  - now apply assign_in_ok in H.
Qed.

Lemma rule_resolved_absolute cwd source x y :
  Path.is_absolute cwd = true ->
  rule_resolved cwd source x y -> scope_path_absolute y.
Proof.
  intros Hcwd (scope & sp & Hscope & Hsp & [[Hn ->]|(Hn & r & sc' & Hr & Hsc & Hy)]).
  - exists scope, sp. auto.
  - apply js_set_ok in Hsc. destruct Hsc as (q & gs & -> & ->).
    apply js_set_ok in Hy. destruct Hy as (p & fs & -> & ->).
    exists (VObj q (assign "path" (VStr r) gs)), (VStr r).
    split; [simpl; now rewrite lookup_assign_same|].
    split; [simpl; now rewrite lookup_assign_same|].
    right. exists r. split; [reflexivity|].
    exact (resolve_absolute _ _ _ Hcwd Hr).
Qed.

(** X5.  After a successful [update()] on a tree with a [file.defaults]
    entry, that entry holds the sorted rules, place for place: a rule
    without scope path as it was, a rule with one with that path resolved
    against the stored [path.source].  The order is the one of the paths as
    configured.  With an absolute working directory every scope path stored
    is absolute. *)
Theorem update_defaults_resolved env this this' evs merged d :
  Config.update env this = (this', evs, Ok tt) ->
  configured env (Config.root this) = Ok merged ->
  has_in "file" "defaults" d merged ->
  exists sorted mapped source,
    Config.sortedDefaults d = Ok sorted
    /\ has_in "path" "source" (VStr source) (Config._raw this')
    /\ has_in "file" "defaults" (VArr mapped) (Config._raw this')
    /\ Forall2 (rule_resolved (Config.cwd env) source) sorted mapped
    /\ (Path.is_absolute (Config.cwd env) = true ->
        Forall scope_path_absolute mapped).
Proof.
  intros Hup Hm Hd.
  destruct (update_ok_normalize _ _ _ _ Hup) as (merged' & evs' & Hm' & Hn).
  rewrite Hm in Hm'. inversion Hm'; subst merged'. clear Hm'.
  destruct (normalize_steps _ _ _ _ _ Hn)
    as (r1 & r2 & r3 & r4 & r5 & r6 & e1 & e2 & e3 & e4 & e5 & e6 & e7
        & H1 & H2 & H3 & H4 & H5 & H6 & H7 & _).
  destruct (resolve_source_ok _ _ _ _ _ H1)
    as (p & rf & pp & fields & src & source & -> & Hl & Hs & Hr & ->).
  set (cur1 := assign "source" (VStr source) fields) in *.
  assert (Hp1 : has_paths pp cur1 (VObj p (assign "path" (VObj pp cur1) rf)))
    by (exists p, (assign "path" (VObj pp cur1) rf); split;
        [reflexivity | apply lookup_assign_same]).
  assert (Hs1 : lookup "source" cur1 = Some (VStr source))
    by apply lookup_assign_same.
  destruct (each_path_ok env pp cur1 source _ _ _ Hp1 Hs1 H2)
    as (cur' & Hp2 & Hs2 & _ & _).
  assert (Hd2 : has_in "file" "defaults" d r2).
  { refine (nested_paths env (Config.root this) "file" "defaults" d _
              _ _ _ _ Hd (bind_intro _ _ _ _ _ _ _ _ _ H1 H2)).
    discriminate. }
  destruct (sort_defaults_ok _ _ _ _ _ _ _ _ Hp2 Hs2 Hd2 H3)
    as (sorted & mapped & Hsorted & HF & Hd3).
  pose proof (bind_intro _ (fun _ => _) _ _ _ _ _ _ _ H6 H7) as H67.
  pose proof (bind_intro _ (fun _ => _) _ _ _ _ _ _ _ H5 H67) as H57.
  pose proof (bind_intro _ (fun _ => _) _ _ _ _ _ _ _ H4 H57) as H47.
  pose proof (bind_intro _ (fun _ => _) _ _ _ _ _ _ _ H3 H47) as H37.
  exists sorted, mapped, source. split; [exact Hsorted|]. split; [|split; [|split]].
  - pose proof (has_paths_after_paths env (Config.root this) pp cur'
                  _ _ _ _ Hp2 H37) as (p' & rf' & Hraw & Hl').
    exists p', rf', pp, cur'. auto.
  - refine (nested_rest env (Config.root this) "file" "defaults" _ _ _ _ _
              _ _ _ _ Hd3 H47); discriminate.
  - exact HF.
  - intros Hcwd. clear - HF Hcwd.
    induction HF as [|x y xs ys Hxy _ IH]; constructor; auto.
    exact (rule_resolved_absolute _ _ _ _ Hcwd Hxy).
Qed.

Lemma update_defaults_resolved_witness :
  exists sorted mapped source,
    Config.sortedDefaults (VArr [Sample.ruleA; Sample.ruleB; Sample.ruleC])
    = Ok sorted
    /\ has_in "path" "source" (VStr source) (Config._raw Sample.updated)
    /\ has_in "file" "defaults" (VArr mapped) (Config._raw Sample.updated)
    /\ Forall2 (rule_resolved "/home/user" source) sorted mapped
    /\ (Path.is_absolute "/home/user" = true ->
        Forall scope_path_absolute mapped).
Proof.
  apply (update_defaults_resolved (Sample.env true Sample.config)
           (Config.new "/srv/site") Sample.updated
           [Config.Required "reptar-excerpt" "/srv/site"]
           (Sample.fill Sample.config Sample.defaults)).
  - vm_compute. reflexivity.
  - reflexivity.
  - eexists _, _, _, _. repeat split; reflexivity.
Defined.

(** ** Lifecycle hooks *)

Lemma preserves_forM_in {S E A} (P : S -> Prop) (f : A -> Eff.M S E unit) l :
  (forall a, In a l -> preserves P (f a)) -> preserves P (forM_ l f).
Proof.
  induction l as [|x l IH]; simpl; intros Hf.
  - apply preserves_ret.
  - apply preserves_bind; [apply Hf; now left|]. intros _.
    apply IH. intros a Ha. apply Hf. now right.
Qed.

Section Lifecycle.
Variable env : Config.Env.
Variable root : string.

Lemma resolve_lifecycle_key_ok key val raw raw' evs :
  has_in "lifecycle" key val raw ->
  Config.resolve_lifecycle_key env root key raw = (raw', evs, Ok tt) ->
  exists rs,
    Forall2 (resolved_as env root) (Lodash.flatten [val]) rs
    /\ has_in "lifecycle" key (VArr rs) raw'.
Proof.
  intros (p & rf & q & gs & -> & Hl & Hk).
  unfold Config.resolve_lifecycle_key. intros H.
  apply bind_ok_inv in H. destruct H as (s1 & e1 & raw0 & e2 & Hg & H & _).
  inversion Hg; subst. clear Hg.
  apply bind_ok_inv in H. destruct H as (s2 & e3 & lc & e4 & Hg & H & _).
  apply lift_ok_inv in Hg. destruct Hg as (Hg & -> & _).
  simpl in Hg. rewrite Hl in Hg. inversion Hg; subst. clear Hg.
  apply bind_ok_inv in H. destruct H as (s3 & e5 & val' & e6 & Hg & H & _).
  apply lift_ok_inv in Hg. destruct Hg as (Hg & -> & _).
  simpl in Hg. rewrite Hk in Hg. inversion Hg; subst. clear Hg.
  apply bind_ok_inv in H. destruct H as (s4 & e7 & rs & e8 & Hm & H & _).
  apply mapM_resolveMiddlewareModules in Hm. destruct Hm as (-> & _ & HF).
  exists rs. split; [exact HF | now apply assign_in_ok in H].
Qed.

Lemma forM_lifecycle_ok ks : forall raw raw' evs,
  NoDup ks ->
  forM_ ks (Config.resolve_lifecycle_key env root) raw = (raw', evs, Ok tt) ->
  forall k val,
    In k ks -> has_in "lifecycle" k val raw ->
    exists rs,
      Forall2 (resolved_as env root) (Lodash.flatten [val]) rs
      /\ has_in "lifecycle" k (VArr rs) raw'.
Proof.
  induction ks as [|k0 ks IH]; intros raw raw' evs Hnd H k val Hin Hv.
  - destruct Hin.
  - simpl in H. apply bind_ok_inv in H.
    destruct H as (raw1 & e1 & [] & e2 & Hk0 & Hrest & _).
    inversion Hnd as [|? ? Hnotin Hnd']; subst.
    destruct (string_dec k0 k) as [->|Hne].
    + destruct (resolve_lifecycle_key_ok _ _ _ _ _ Hv Hk0) as (rs & HF & Hv1).
      exists rs. split; [exact HF|].
      refine (preserves_forM_in _ _ ks _ _ _ _ _ Hv1 Hrest).
      intros key Hkey. apply nested_resolve_lifecycle_key. right.
      intros ->. contradiction.
    + destruct Hin as [Heq|Hin]; [contradiction|].
      apply (IH _ _ _ Hnd' Hrest k val Hin).
      refine (nested_resolve_lifecycle_key env root _ _ _ k0 _ _ _ _ _ Hv Hk0).
      right. exact Hne.
Qed.

Lemma resolve_lifecycle_ok k val raw raw' evs :
  has_in "lifecycle" k val raw ->
  Config.resolve_lifecycle env root raw = (raw', evs, Ok tt) ->
  exists rs,
    Forall2 (resolved_as env root) (Lodash.flatten [val]) rs
    /\ has_in "lifecycle" k (VArr rs) raw'.
Proof.
  intros Hv. pose proof Hv as (p & rf & q & gs & -> & Hl & Hk).
  unfold Config.resolve_lifecycle. intros H.
  apply bind_ok_inv in H. destruct H as (s1 & e1 & raw0 & e2 & Hg & H & _).
  inversion Hg; subst. clear Hg.
  apply bind_ok_inv in H. destruct H as (s2 & e3 & lc & e4 & Hg & H & _).
  apply lift_ok_inv in Hg. destruct Hg as (Hg & -> & _).
  simpl in Hg. rewrite Hl in Hg. inversion Hg; subst. clear Hg.
  destruct (Lodash.isArrayLike gs); [discriminate|].
  apply (forM_lifecycle_ok (keys gs) _ _ _ (NoDup_nodup _ _) H k val);
    [|exact Hv].
  apply lookup_in_keys. congruence.
Qed.
End Lifecycle.

(** X6.  After a successful [update()] every configured entry of
    [lifecycle] holds an array: the configured value flattened by one level
    (a single hook counts as a list of one), with every string replaced by
    the module of that name found from the root. *)
Theorem update_lifecycle_resolved env this this' evs merged k val :
  Config.update env this = (this', evs, Ok tt) ->
  configured env (Config.root this) = Ok merged ->
  has_in "lifecycle" k val merged ->
  exists rs,
    has_in "lifecycle" k (VArr rs) (Config._raw this')
    /\ Forall2 (resolved_as env (Config.root this)) (Lodash.flatten [val]) rs.
Proof.
  intros Hup Hm Hv.
  destruct (update_ok_normalize _ _ _ _ Hup) as (merged' & evs' & Hm' & Hn).
  rewrite Hm in Hm'. inversion Hm'; subst merged'. clear Hm'.
  destruct (normalize_steps _ _ _ _ _ Hn)
    as (r1 & r2 & r3 & r4 & r5 & r6 & e1 & e2 & e3 & e4 & e5 & e6 & e7
        & H1 & H2 & H3 & H4 & H5 & H6 & H7 & _).
  assert (Hv5 : has_in "lifecycle" k val r5).
  { eapply nested_resolve_middlewares; [discriminate| |exact H5].
    eapply nested_coerce_ignore; [discriminate| |exact H4].
    eapply nested_sort_defaults; [left; discriminate| |exact H3].
    refine (nested_paths env (Config.root this) "lifecycle" k val _
              _ _ _ _ Hv (bind_intro _ _ _ _ _ _ _ _ _ H1 H2)).
    discriminate. }
  destruct (resolve_lifecycle_ok _ _ _ _ _ _ _ Hv5 H6) as (rs & HF & Hv6).
  exists rs. split; [|exact HF].
  eapply nested_convert_assets; [discriminate|exact Hv6|exact H7].
Qed.

Lemma update_lifecycle_resolved_witness :
  exists rs,
    has_in "lifecycle" "willBuild" (VArr rs) (Config._raw Sample.updated)
    /\ Forall2 (resolved_as (Sample.env true Sample.config) "/srv/site")
         (Lodash.flatten [VFunc 3]) rs.
Proof.
  apply (update_lifecycle_resolved (Sample.env true Sample.config)
           (Config.new "/srv/site") Sample.updated
           [Config.Required "reptar-excerpt" "/srv/site"]
           (Sample.fill Sample.config Sample.defaults)).
  - vm_compute. reflexivity.
  - reflexivity.
  - eexists _, _, _, _. repeat split; reflexivity.
Defined.

(** ** Where modules are looked up *)

Section EmitFacts.
Context {S E : Type}.
Variable Q : E -> Prop.

Lemma emits_bind {A B} (m : Eff.M S E A) (f : A -> Eff.M S E B) :
  emits Q m -> (forall a, emits Q (f a)) -> emits Q (bind m f).
Proof.
  intros Hm Hf s s' evs r. unfold bind.
  destruct (m s) as [[s1 e1] o] eqn:Hms.
  pose proof (Hm _ _ _ _ Hms) as H1.
  destruct o as [a| |]; try (intros H; inversion H; subst; exact H1).
  destruct (f a s1) as [[s2 e2] r2] eqn:Hfs.
  intros H. inversion H; subst.
  apply Forall_app. split; [exact H1 | exact (Hf a _ _ _ _ Hfs)].
Qed.

Lemma emits_ret {A} (a : A) : emits Q (ret (S := S) a).
Proof. intros s s' evs r H. inversion H; subst. constructor. Qed.

Lemma emits_lift {A} (o : outcome A) : emits Q (lift (S := S) o).
Proof. intros s s' evs r H. inversion H; subst. constructor. Qed.

Lemma emits_get : emits Q (Eff.get (S := S)).
Proof. intros s s' evs r H. inversion H; subst. constructor. Qed.

Lemma emits_put (x : S) : emits Q (put x).
Proof. intros s s' evs r H. inversion H; subst. constructor. Qed.

Lemma emits_tell (e : E) : Q e -> emits Q (tell (S := S) e).
Proof. intros He s s' evs r H. inversion H; subst. now constructor. Qed.

Lemma emits_mapM {A B} (f : A -> Eff.M S E B) l :
  (forall a, emits Q (f a)) -> emits Q (mapM f l).
Proof.
  intros Hf. induction l as [|x l IH]; simpl.
  - apply emits_ret.
  - apply emits_bind; [apply Hf|]. intros y.
    apply emits_bind; [exact IH|]. intros ys. apply emits_ret.
Qed.

Lemma emits_forM_ {A} (f : A -> Eff.M S E unit) l :
  (forall a, emits Q (f a)) -> emits Q (forM_ l f).
Proof.
  intros Hf. induction l as [|x l IH]; simpl.
  - apply emits_ret.
  - apply emits_bind; [apply Hf|]. intros _. exact IH.
Qed.
End EmitFacts.

Ltac emit :=
  repeat first
    [ apply emits_ret
    | apply emits_lift
    | apply emits_get
    | apply emits_put
    | apply emits_tell; simpl; solve [reflexivity | exact I]
    | apply emits_mapM; intros ?
    | apply emits_forM_; intros ?
    | apply emits_bind; [|intros ?]
    | match goal with
      | |- emits _ (match ?x with _ => _ end) => destruct x
      | |- emits _ (let (_, _) := ?x in _) => destruct x
      end ].

Lemma update_body_from_root env root :
  emits (from_root root) (Config.update_body env root).
Proof.
  unfold Config.update_body, Config.load_and_validate, Config.normalize,
    Config.resolve_source, Config.each_path, Config.resolve_path_key,
    Config.sort_defaults, Config.absolute_scope, Config.write_rule,
    Config.coerce_ignore, Config.resolve_middlewares,
    Config.resolve_lifecycle, Config.resolve_lifecycle_key,
    Config.convert_assets, Config.convert_asset, Config.resolve_use,
    Config.resolveMiddlewareModules, Config.requireLocalModule,
    Config.array_map, Config.assign_in, Config.assign_raw,
    Config.get_raw, Config.set_raw, throw.
  emit.
Qed.

(** X7.  Every module that [update()] looks up, for a middleware, a
    lifecycle hook or an asset processor, is looked up from [this.root],
    whether the update succeeds or not. *)
Theorem update_lookups_from_root env this :
  Forall (from_root (Config.root this)) (snd (fst (Config.update env this))).
Proof.
  unfold Config.update.
  destruct (Config.update_body env (Config.root this) (Config._raw this))
    as [[raw' evs] r] eqn:H.
  simpl. exact (update_body_from_root env (Config.root this) _ _ _ _ H).
Qed.

(** ** More on [valueToFunction] *)

(** X8.  Whatever [valueToFunction] answers is a function, and handing that
    function to [valueToFunction] again answers the very same function:
    nothing is wrapped twice. *)
Theorem valueToFunction_settles v f :
  Config.valueToFunction v = Ok f ->
  isFunction f = true /\ Config.valueToFunction f = Ok f.
Proof. exact (valueToFunction_result v f). Qed.

Lemma valueToFunction_settles_witness :
  isFunction (VMatcher (VRegExp "^_drafts")) = true
  /\ Config.valueToFunction (VMatcher (VRegExp "^_drafts"))
     = Ok (VMatcher (VRegExp "^_drafts")).
Proof.
  apply (valueToFunction_settles (VStr "_drafts")). reflexivity.
Defined.

(** X9.  A string that begins with [*], [+] or [?] is no pattern once [^]
    is put before it: [valueToFunction] throws a SyntaxError, whatever
    follows. *)
Theorem valueToFunction_leading_quantifier c s :
  RegExp.is_quantifier c = true ->
  Config.valueToFunction (VStr (String c s)) = Throw SyntaxError.
Proof.
  intros Hq. unfold Config.valueToFunction, RegExp.compile.
  change ("^" ++ String c s)%string with (String "^"%char (String c s)).
  cbn [RegExp.parse]. simpl RegExp.is_quantifier at 1. cbv iota.
  rewrite Ascii.eqb_refl. cbn [RegExp.parse]. rewrite Hq. reflexivity.
Qed.

Lemma valueToFunction_leading_quantifier_witness :
  Config.valueToFunction (VStr "*.md") = Throw SyntaxError.
Proof.
  apply (valueToFunction_leading_quantifier "*"%char ".md"). reflexivity.
Defined.

(** ** More on [get] *)

Lemma baseGet_undefined path : Lodash.baseGet VUndefined path = Ok VUndefined.
Proof. destruct path; reflexivity. Qed.

Lemma split_on_cons sep s : exists k rest, split_on sep s = k :: rest.
Proof.
  induction s as [|c s (k & rest & IH)]; simpl; eauto.
  destruct (Ascii.eqb c sep); [eauto|]. rewrite IH. eauto.
Qed.

Lemma castPath_cons p o path :
  Lodash.castPath p o = Ok path -> exists k rest, path = k :: rest.
Proof.
  unfold Lodash.castPath.
  destruct (contains_char "[" p); [discriminate|].
  destruct (negb (contains_char "." p)); [intros H; inversion H; eauto|].
  destruct (split_on_cons "." p) as (k & rest & Hs).
  destruct o; try solve [intros H; inversion H; subst; eauto].
  destruct (lookup p fields); intros H; inversion H; subst; eauto.
Qed.

(** X10.  On a store that was never updated [get(p)] throws the
    "does not exist" error for every path without brackets, and [get()]
    hands out an object without any entry. *)
Theorem get_before_update root :
  Config.get (Config.new root) None = Ok (VObj false [])
  /\ forall p,
       contains_char "[" p = false ->
       Config.get (Config.new root) (Some p)
       = Throw (Error (not_found_message p)).
Proof.
  split; [reflexivity|]. intros p Hb.
  unfold Config.get, Config.get_body, Config.new, Lodash.get. simpl.
  destruct (Lodash.castPath p (VObj false [])) as [path| |] eqn:Hc.
  - destruct (castPath_cons _ _ _ Hc) as (k & rest & ->).
    simpl. now rewrite baseGet_undefined.
  - unfold Lodash.castPath in Hc. rewrite Hb in Hc.
    destruct (negb (contains_char "." p)); discriminate.
  - unfold Lodash.castPath in Hc. rewrite Hb in Hc.
    destruct (negb (contains_char "." p)); discriminate.
Qed.

Lemma get_before_update_witness :
  Config.get (Config.new "/srv/site") (Some "path.source")
  = Throw (Error (not_found_message "path.source")).
Proof.
  apply (proj2 (get_before_update "/srv/site") "path.source"). reflexivity.
Defined.

Lemma js_get_throws o k e :
  js_get o k = Throw e -> is_nullish o = true.
Proof.
  destruct o; simpl; try discriminate; try reflexivity.
  - destruct (String.eqb k "length"); discriminate.
  - destruct (String.eqb k "length"); [discriminate|].
    destruct (array_index k); discriminate.
  - destruct (lookup k fields); discriminate.
Qed.

Lemma baseGet_never_throws path : forall o e, Lodash.baseGet o path <> Throw e.
Proof.
  induction path as [|k rest IH]; intros o e; simpl; [discriminate|].
  destruct (is_nullish o) eqn:Hn; [discriminate|].
  destruct (js_get o k) as [v| |] eqn:Hg; simpl.
  - apply IH.
  - apply js_get_throws in Hg. congruence.
  - discriminate.
Qed.

(** X11.  The only exception that [get(p)] throws is its own
    "does not exist" error, with [p] in the message: a path that leads
    through a missing entry raises no TypeError. *)
Theorem get_throws_only_not_found this p e :
  Config.get this (Some p) = Throw e -> e = Error (not_found_message p).
Proof.
  unfold Config.get, Config.get_body, Lodash.get.
  destruct (is_nullish (Config._raw this)) eqn:Hn; simpl.
  - intros H. now inversion H.
  - destruct (Lodash.castPath p (Config._raw this)) as [path| |] eqn:Hc; simpl.
    + destruct (Lodash.baseGet (Config._raw this) path) as [r| |] eqn:Hb; simpl.
      * destruct (is_nullish
                    match r with VUndefined => VUndefined | _ => r end);
          intros H; now inversion H.
      * exfalso. exact (baseGet_never_throws _ _ _ Hb).
      * discriminate.
    + unfold Lodash.castPath in Hc.
      repeat match type of Hc with
             | context [if ?b then _ else _] => destruct b
             | context [match ?x with _ => _ end] => destruct x
             end; discriminate.
    + discriminate.
Qed.

Lemma get_throws_only_not_found_witness :
  Config.get Sample.updated (Some "site.nothing.here")
  = Throw (Error (not_found_message "site.nothing.here"))
  /\ Error (not_found_message "site.nothing.here")
     = Error (not_found_message "site.nothing.here").
Proof.
  split; [reflexivity|].
  apply (get_throws_only_not_found Sample.updated "site.nothing.here").
  reflexivity.
Defined.

(** ** Absolute entries of [path] *)

Lemma resolve_absolute_last cwd base q :
  Path.is_absolute q = true ->
  Path.resolve cwd [base; VStr q]
  = Ok ("/" ++ Path.normalizeString (q ++ "/") false)%string.
Proof.
  intros Hq. unfold Path.resolve. simpl.
  destruct (String.eqb_spec q "") as [->|_]; [discriminate|].
  rewrite Hq. reflexivity.
Qed.

(** X12.  An entry of [path] other than [source] that is configured as an
    absolute path is stored normalised and nothing more: neither the root,
    nor the source, nor the working directory has a part in it. *)
Theorem update_absolute_path_entry env this this' evs merged k q :
  Config.update env this = (this', evs, Ok tt) ->
  configured env (Config.root this) = Ok merged ->
  has_in "path" k (VStr q) merged ->
  k <> "source" ->
  Path.is_absolute q = true ->
  exists r,
    has_in "path" k (VStr r) (Config._raw this')
    /\ forall cwd base, Path.resolve cwd [base; VStr q] = Ok r.
Proof.
  intros Hup Hm (p0 & rf0 & q0 & gs & Hraw & Hl0 & Hk0) Hk Hq.
  destruct (update_ok_normalize _ _ _ _ Hup) as (merged' & evs' & Hm' & Hn).
  rewrite Hm in Hm'. inversion Hm'; subst merged'. clear Hm'.
  destruct (normalize_paths _ _ _ _ _ Hn)
    as (p & rf & pp & fields & fields' & src & source
        & Hmerged & Hl & Hs & Hp & Hr & Hs' & Hkeys & Hres).
  rewrite Hraw in Hmerged. inversion Hmerged; subst p0 rf0. clear Hmerged.
  rewrite Hl in Hl0. inversion Hl0; subst q0 gs. clear Hl0.
  destruct (Hres k _ Hk Hk0) as (q' & r & Hq' & Hrq & Hk').
  inversion Hq'; subst q'. clear Hq'.
  exists r. split.
  - destruct Hp as (p' & rf' & -> & Hl').
    exists p', rf', pp, fields'. auto.
  - intros cwd base. rewrite (resolve_absolute_last _ _ _ Hq) in Hrq.
    rewrite (resolve_absolute_last _ _ _ Hq). exact Hrq.
Qed.

Lemma update_absolute_path_entry_witness :
  exists r,
    has_in "path" "destination" (VStr r) (Config._raw More.absolute_updated)
    /\ forall cwd base,
         Path.resolve cwd [base; VStr "/var/www//site/"] = Ok r.
Proof.
  apply (update_absolute_path_entry (Sample.env true More.absolute)
           (Config.new "/srv/site") More.absolute_updated
           [Config.Required "reptar-excerpt" "/srv/site"]
           (Sample.fill More.absolute Sample.defaults) "destination").
  - vm_compute. reflexivity.
  - reflexivity.
  - eexists _, _, _, _. repeat split; reflexivity.
  - discriminate.
  - reflexivity.
Defined.

Example absolute_destination :
  Config.get More.absolute_updated (Some "path.destination")
  = Ok (VStr "/var/www/site").
Proof. vm_compute. reflexivity. Qed.

(** ** [renderFileWithPlugins]: failures and odd results *)

Section RenderFailures.
Import Renderer.
Variable World : Type.
Variable processEventHandlers :
  rvalue -> list rvalue -> World -> World * outcome rvalue.
Variable render : rvalue -> rvalue -> World -> World * outcome rvalue.

Lemma pre_fails file siteData eb ea w w0 e :
  given eb = true ->
  processEventHandlers eb [file] w = (w0, Throw e) ->
  renderFileWithPlugins World processEventHandlers render
    file siteData eb ea w
  = (w0, [Dispatched eb [file]], Throw e).
Proof.
  intros Hb Hp. unfold renderFileWithPlugins. rewrite Hb.
  cbv [bind ret call_render await_dispatch lift]. rewrite Hp. reflexivity.
Qed.

Lemma render_fails file siteData eb ea w w0 w1 e :
  pre_done processEventHandlers eb file w w0 ->
  render file siteData w0 = (w1, Throw e) ->
  renderFileWithPlugins World processEventHandlers render
    file siteData eb ea w
  = (w1, pre_calls eb file ++ [Rendered file siteData], Throw e).
Proof.
  intros [[Hb ->]|[Hb [ignored Hp]]] Hr;
    unfold renderFileWithPlugins, pre_calls; rewrite Hb;
    cbv [bind ret call_render await_dispatch lift];
    [|rewrite Hp]; rewrite Hr; reflexivity.
Qed.

Lemma post_decides file siteData eb ea w w0 w1 r w2 o :
  pre_done processEventHandlers eb file w w0 ->
  render file siteData w0 = (w1, Ok r) ->
  given ea = true ->
  processEventHandlers ea [file; r] w1 = (w2, o) ->
  renderFileWithPlugins World processEventHandlers render
    file siteData eb ea w
  = (w2,
     pre_calls eb file ++ [Rendered file siteData; Dispatched ea [file; r]],
     obind o destructure2).
Proof.
  intros [[Hb ->]|[Hb [ignored Hp]]] Hr Ha Hq;
    unfold renderFileWithPlugins, pre_calls; rewrite Hb, Ha;
    cbv [bind ret call_render await_dispatch lift];
    [|rewrite Hp]; rewrite Hr, Hq; destruct o as [res| |]; simpl;
    try reflexivity; destruct (destructure2 res); reflexivity.
Qed.
End RenderFailures.

(** X13.  A failure ends [renderFileWithPlugins] where it happens: when the
    PRE dispatch rejects, the file is not rendered and nothing else is
    dispatched; when the render throws, POST is not dispatched.  The call
    rejects with that very failure. *)
Theorem renderFileWithPlugins_stops_at_failure
  (World : Type)
  (processEventHandlers :
     Renderer.rvalue -> list Renderer.rvalue -> World
     -> World * outcome Renderer.rvalue)
  (render : Renderer.rvalue -> Renderer.rvalue -> World
            -> World * outcome Renderer.rvalue)
  (file siteData eb ea : Renderer.rvalue) (w : World) :
  (forall w0 e,
     Renderer.given eb = true ->
     processEventHandlers eb [file] w = (w0, Throw e) ->
     Renderer.renderFileWithPlugins World processEventHandlers render
       file siteData eb ea w
     = (w0, [Renderer.Dispatched eb [file]], Throw e))
  /\ (forall w0 w1 e,
        pre_done processEventHandlers eb file w w0 ->
        render file siteData w0 = (w1, Throw e) ->
        Renderer.renderFileWithPlugins World processEventHandlers render
          file siteData eb ea w
        = (w1, pre_calls eb file ++ [Renderer.Rendered file siteData],
           Throw e)).
Proof.
  split.
  - intros. now apply pre_fails.
  - intros. eapply render_fails; eassumption.
Qed.

Lemma renderFileWithPlugins_stops_at_failure_witness :
  RenderFailing.run (Renderer.Ref 1) (Renderer.Plain VNull)
    (Renderer.Plain (VStr "broken")) (Renderer.Plain (VStr "after")) 0
  = (1, [Renderer.Dispatched (Renderer.Plain (VStr "broken"))
           [Renderer.Ref 1]],
     Throw (Error "hook failed"))
  /\ RenderFailing.run (Renderer.Ref 0) (Renderer.Plain VNull)
       (Renderer.Plain (VStr "before")) (Renderer.Plain (VStr "after")) 0
     = (1, [Renderer.Dispatched (Renderer.Plain (VStr "before"))
              [Renderer.Ref 0];
            Renderer.Rendered (Renderer.Ref 0) (Renderer.Plain VNull)],
        Throw (Error "cannot render")).
Proof.
  split.
  - apply (proj1 (renderFileWithPlugins_stops_at_failure nat
                    RenderFailing.processEventHandlers RenderFailing.render
                    (Renderer.Ref 1) (Renderer.Plain VNull)
                    (Renderer.Plain (VStr "broken"))
                    (Renderer.Plain (VStr "after")) 0));
      reflexivity.
  - apply (proj2 (renderFileWithPlugins_stops_at_failure nat
                    RenderFailing.processEventHandlers RenderFailing.render
                    (Renderer.Ref 0) (Renderer.Plain VNull)
                    (Renderer.Plain (VStr "before"))
                    (Renderer.Plain (VStr "after")) 0) 1 1).
    + right. split; [reflexivity|].
      exists (Renderer.Arr [Renderer.Ref 0]). reflexivity.
    + reflexivity.
Defined.

(** X14.  With an [eventAfter], what the POST dispatch ends in decides how
    the call ends: a rejection is passed on; a result that cannot be
    iterated (undefined, null, a boolean, a number) is a TypeError; of an
    array the first two places are handed out, [undefined] standing in for
    a place that is not there, so that an empty array loses both the file
    and the rendered page. *)
Theorem renderFileWithPlugins_post_result
  (World : Type)
  (processEventHandlers :
     Renderer.rvalue -> list Renderer.rvalue -> World
     -> World * outcome Renderer.rvalue)
  (render : Renderer.rvalue -> Renderer.rvalue -> World
            -> World * outcome Renderer.rvalue)
  (file siteData eb ea : Renderer.rvalue) (w w0 w1 w2 : World)
  (r : Renderer.rvalue) (o : outcome Renderer.rvalue) :
  pre_done processEventHandlers eb file w w0 ->
  render file siteData w0 = (w1, Ok r) ->
  Renderer.given ea = true ->
  processEventHandlers ea [file; r] w1 = (w2, o) ->
  let result :=
    snd (Renderer.renderFileWithPlugins World processEventHandlers render
           file siteData eb ea w) in
  (forall e, o = Throw e -> result = Throw e)
  /\ (forall v, o = Ok (Renderer.Plain v) ->
        In v [VUndefined; VNull] \/ (exists b, v = VBool b)
        \/ (exists n, v = VNum n) ->
        result = Throw TypeError)
  /\ (o = Ok (Renderer.Arr []) ->
      result = Ok (Renderer.undefined, Renderer.undefined))
  /\ (forall f', o = Ok (Renderer.Arr [f']) ->
        result = Ok (f', Renderer.undefined))
  /\ (forall f' r' rest, o = Ok (Renderer.Arr (f' :: r' :: rest)) ->
        result = Ok (f', r')).
Proof.
  intros Hpre Hr Ha Hq result. unfold result.
  rewrite (post_decides _ _ _ _ _ _ _ _ _ _ _ _ _ Hpre Hr Ha Hq). simpl.
  split; [|split; [|split; [|split]]].
  - intros e ->. reflexivity.
  - intros v -> [[<-|[<-|[]]]|[[b ->]|[n ->]]]; reflexivity.
  - intros ->. reflexivity.
  - intros f' ->. reflexivity.
  - intros f' r' rest ->. reflexivity.
Qed.

Lemma renderFileWithPlugins_post_result_witness :
  snd (RenderFailing.run (Renderer.Ref 1) (Renderer.Plain VNull)
         Renderer.undefined (Renderer.Plain (VStr "empty")) 0)
  = Ok (Renderer.undefined, Renderer.undefined)
  /\ snd (RenderFailing.run (Renderer.Ref 1) (Renderer.Plain VNull)
            Renderer.undefined (Renderer.Plain (VStr "nothing")) 0)
     = Throw TypeError
  /\ snd (RenderFailing.run (Renderer.Ref 1) (Renderer.Plain VNull)
            Renderer.undefined (Renderer.Plain (VStr "one")) 0)
     = Ok (Renderer.Ref 5, Renderer.undefined).
Proof.
  split; [|split].
  - refine (proj1 (proj2 (proj2
      (renderFileWithPlugins_post_result nat
         RenderFailing.processEventHandlers RenderFailing.render
         (Renderer.Ref 1) (Renderer.Plain VNull) Renderer.undefined
         (Renderer.Plain (VStr "empty")) 0 0 0 1
         (Renderer.Plain (VStr "<html>")) (Ok (Renderer.Arr []))
         _ _ _ _))) _); try reflexivity.
    left. split; reflexivity.
  - refine (proj1 (proj2
      (renderFileWithPlugins_post_result nat
         RenderFailing.processEventHandlers RenderFailing.render
         (Renderer.Ref 1) (Renderer.Plain VNull) Renderer.undefined
         (Renderer.Plain (VStr "nothing")) 0 0 0 1
         (Renderer.Plain (VStr "<html>")) (Ok Renderer.undefined)
         _ _ _ _)) VUndefined _ _); try reflexivity.
    + left. split; reflexivity.
    + left. simpl. auto.
  - refine (proj1 (proj2 (proj2 (proj2
      (renderFileWithPlugins_post_result nat
         RenderFailing.processEventHandlers RenderFailing.render
         (Renderer.Ref 1) (Renderer.Plain VNull) Renderer.undefined
         (Renderer.Plain (VStr "one")) 0 0 0 1
         (Renderer.Plain (VStr "<html>")) (Ok (Renderer.Arr [Renderer.Ref 5]))
         _ _ _ _)))) (Renderer.Ref 5) _); try reflexivity.
    left. split; reflexivity.
Defined.

(** ** Finding the configuration file *)

Lemma prefix_refl s : String.prefix s s = true.
Proof.
  induction s as [|c s IH]; simpl; [reflexivity|].
  destruct (ascii_dec c c); [exact IH|congruence].
Qed.

Lemma prefix_empty s : String.prefix "" s = true.
Proof. destruct s; reflexivity. Qed.

Lemma prefix_app n : forall rest, String.prefix n (n ++ rest) = true.
Proof.
  induction n as [|c n IH]; intros rest; simpl; [apply prefix_empty|].
  destruct (ascii_dec c c); [apply IH|congruence].
Qed.
Lemma drop_app n : forall rest, drop (String.length n) (n ++ rest) = rest.
Proof.
  induction n as [|c n IH]; intros rest; simpl; [reflexivity|apply IH].
Qed.

(** A name without separator that begins [x/y] begins [x]. *)
Lemma prefix_before_slash n :
  contains_char "/" n = false ->
  forall x y,
    String.prefix n (x ++ String "/" y) = true -> String.prefix n x = true.
Proof.
  induction n as [|c n IH]; intros Hn x y H; [apply prefix_empty|].
  simpl in Hn. apply orb_false_iff in Hn. destruct Hn as [Hc Hn].
  destruct x as [|d x]; simpl in *.
  - destruct (ascii_dec c "/") as [->|]; [|discriminate].
    rewrite Ascii.eqb_refl in Hc. discriminate.
  - destruct (ascii_dec c d); [|discriminate]. eapply IH; eassumption.
Qed.

Lemma occurs_false_prefix n x :
  occurs n x = false -> String.prefix n x = false.
Proof.
  destruct x; simpl; intros H; apply orb_false_iff in H; tauto.
Qed.

Lemma string_app_assoc (a b c : string) :
  ((a ++ b) ++ c)%string = (a ++ b ++ c)%string.
Proof. induction a as [|x a IH]; simpl; [reflexivity|now rewrite IH]. Qed.

Lemma replace_first_eq n s :
  replace_first n s
  = if String.prefix n s then drop (String.length n) s
    else match s with
         | EmptyString => EmptyString
         | String c r => String c (replace_first n r)
         end.
Proof. destruct s; reflexivity. Qed.

Lemma replace_first_skip n :
  n <> "" -> contains_char "/" n = false ->
  forall x y,
    occurs n x = false ->
    replace_first n (x ++ String "/" y)
    = (x ++ String "/" (replace_first n y))%string.
Proof.
  intros Hne Hn x. induction x as [|c x IH]; intros y Hx.
  - change ("" ++ String "/" y)%string with (String "/" y).
    assert (Hp : String.prefix n (String "/" y) = false).
    { destruct n as [|d n]; [congruence|]. simpl in *.
      apply orb_false_iff in Hn. destruct Hn as [Hd _].
      destruct (ascii_dec d "/") as [->|]; [|reflexivity].
      rewrite Ascii.eqb_refl in Hd. discriminate. }
    rewrite replace_first_eq, Hp. reflexivity.
  - assert (Hx' : occurs n x = false).
    { simpl in Hx. apply orb_false_iff in Hx. tauto. }
    assert (Hp : String.prefix n (String c x ++ String "/" y) = false).
    { destruct (String.prefix n (String c x ++ String "/" y)) eqn:E;
        [|reflexivity].
      apply (prefix_before_slash n Hn) in E.
      rewrite (occurs_false_prefix _ _ Hx) in E. discriminate. }
    change (String c x ++ String "/" y)%string
      with (String c (x ++ String "/" y)) in *.
    rewrite replace_first_eq, Hp, (IH y Hx'). reflexivity.
Qed.

Lemma segment_name_facts s :
  segment_name s = true ->
  s <> "" /\ String.eqb s "" = false /\ String.eqb s "." = false
  /\ String.eqb s ".." = false /\ contains_char "/" s = false.
Proof.
  unfold segment_name. intros H.
  repeat (apply andb_true_iff in H; destruct H as [H ?]).
  repeat match goal with
         | H : negb _ = true |- _ => apply negb_true_iff in H
         end.
  repeat split; try assumption.
  intros ->. discriminate.
Qed.

Lemma replace_first_directory n dirs rest :
  segment_name n = true ->
  Forall (fun d => occurs n d = false) dirs ->
  replace_first n (directory dirs ++ n ++ rest)
  = (directory dirs ++ rest)%string.
Proof.
  intros Hn Hd. destruct (segment_name_facts _ Hn) as (Hne & _ & _ & _ & Hs).
  unfold directory.
  change (("/" ++ ?a) ++ ?b)%string with ("" ++ String "/" (a ++ b))%string.
  rewrite (replace_first_skip n Hne Hs "" _).
  2:{ destruct n; [congruence|reflexivity]. }
  simpl. f_equal.
  induction Hd as [|d dirs Hd0 Hd IH]; simpl.
  - rewrite replace_first_eq, prefix_app. apply drop_app.
  - rewrite !string_app_assoc. simpl.
    rewrite (replace_first_skip n Hne Hs d _ Hd0). rewrite IH. reflexivity.
Qed.

Lemma ends_with_slash_app x n :
  n <> "" -> Path.ends_with_slash (x ++ n) = Path.ends_with_slash n.
Proof.
  intros Hn. induction x as [|c x IH]; [reflexivity|].
  change (String c x ++ n)%string with (String c (x ++ n)).
  destruct (x ++ n)%string as [|d r] eqn:E.
  - destruct x; simpl in E; [congruence|discriminate].
  - exact IH.
Qed.

Lemma ends_with_slash_name n :
  contains_char "/" n = false -> Path.ends_with_slash n = false.
Proof.
  induction n as [|c n IH]; [reflexivity|]. simpl.
  intros H. apply orb_false_iff in H. destruct H as [Hc Hn].
  destruct n; [exact Hc|exact (IH Hn)].
Qed.

Lemma segments_directory dirs tail :
  Forall (fun d => segment_name d = true) dirs ->
  split_on "/" (directories dirs ++ tail)
  = dirs ++ split_on "/" tail.
Proof.
  induction 1 as [|d dirs Hd _ IH]; [reflexivity|].
  destruct (segment_name_facts _ Hd) as (_ & _ & _ & _ & Hs).
  change (directories (d :: dirs))
    with (d ++ String "/" (directories dirs))%string.
  rewrite string_app_assoc.
  change (String "/" (directories dirs) ++ tail)%string
    with (String "/" (directories dirs ++ tail)).
  rewrite (split_on_app "/" d _ Hs), IH. reflexivity.
Qed.

Lemma push_segment_name stack d :
  segment_name d = true -> Path.push_segment false stack d = d :: stack.
Proof.
  intros Hd. destruct (segment_name_facts _ Hd) as (_ & H1 & H2 & H3 & _).
  unfold Path.push_segment. now rewrite H1, H2, H3.
Qed.

Lemma fold_push_names dirs :
  Forall (fun d => segment_name d = true) dirs ->
  forall stack,
    fold_left (Path.push_segment false) dirs stack = rev dirs ++ stack.
Proof.
  induction 1 as [|d dirs Hd _ IH]; intros stack; [reflexivity|]. simpl.
  rewrite (push_segment_name _ _ Hd), IH, <- app_assoc. reflexivity.
Qed.

Lemma concat_directory n dirs :
  String.concat "/" (dirs ++ [n])
  = (directories dirs ++ n)%string.
Proof.
  induction dirs as [|d dirs IH]; [reflexivity|].
  change ((d :: dirs) ++ [n]) with (d :: (dirs ++ [n])).
  change (directories (d :: dirs))
    with (d ++ "/" ++ directories dirs)%string.
  rewrite !string_app_assoc, <- IH.
  destruct dirs; reflexivity.
Qed.

Lemma app_not_empty (a n : string) : n <> "" -> String.eqb (a ++ n) "" = false.
Proof.
  intros Hn. destruct a; simpl; [|reflexivity].
  destruct n; [congruence|reflexivity].
Qed.

(** Joining a directory and a file name gives the path of the file. *)
Lemma join_directory dirs n :
  Forall (fun d => segment_name d = true) dirs ->
  segment_name n = true ->
  Path.join [directory dirs; n] = (directory dirs ++ n)%string.
Proof.
  intros Hd Hn.
  destruct (segment_name_facts _ Hn) as (Hne & He & _ & _ & Hs).
  unfold Path.join. cbn [filter]. rewrite He.
  change (String.eqb (directory dirs) "") with false. cbn [negb].
  cbv beta iota.
  change (String.concat "/" [directory dirs; n])
    with (directory dirs ++ "/" ++ n)%string.
  unfold directory, Path.normalize.
  change (("/" ++ ?a) ++ ?b)%string with (String "/" (a ++ b)).
  change (String.eqb (String "/" ?a) "") with false. cbv iota.
  change (Path.is_absolute (String "/" ?a)) with true. cbn [negb].
  assert (Hq : Path.normalizeString
                 (String "/"
                    (directories dirs
                     ++ "/" ++ n)) false
               = (directories dirs
                  ++ n)%string).
  { unfold Path.normalizeString, Path.segments.
    change (split_on "/" (String "/" ?a)) with ("" :: split_on "/" a).
    rewrite (segments_directory _ _ Hd).
    change ("/" ++ n)%string with ("" ++ String "/" n)%string.
    rewrite (split_on_app "/" "" n eq_refl), (split_on_simple _ _ Hs).
    cbn [fold_left]. change (Path.push_segment false [] "") with (@nil string).
    rewrite fold_left_app, (fold_push_names _ Hd). cbn [fold_left].
    change (Path.push_segment false (rev dirs ++ []) "")
      with (rev dirs ++ []).
    rewrite (push_segment_name _ _ Hn), app_nil_r.
    change (rev (n :: rev dirs)) with (rev (rev dirs) ++ [n]).
    rewrite rev_involutive. apply concat_directory. }
  cbv zeta. rewrite Hq, (app_not_empty _ _ Hne).
  change (String "/" ?a) with ("/" ++ a)%string at 1.
  change (String "/" (?a ++ "/" ++ n)) with (("/" ++ a) ++ "/" ++ n)%string.
  rewrite (ends_with_slash_app _ ("/" ++ n)) by discriminate.
  change ("/" ++ n)%string with (String "/" n).
  assert (He' : Path.ends_with_slash (String "/" n) = false).
  { destruct n; [congruence|]. exact (ends_with_slash_name _ Hs). }
  rewrite He'. reflexivity.
Qed.

Lemma directory_not_empty dirs x :
  String.eqb (directory dirs ++ x) "" = false.
Proof. reflexivity. Qed.

(** X15.  [findLocalDir] throws "No '<file name>' file found." when the
    search finds nothing.  Otherwise it cuts the first occurrence of the
    file name out of the path that was found, wherever that occurrence is:
    when the name first shows up as the beginning of a directory's name,
    what follows it stays in the result, which is then not the directory
    of the file. *)
Theorem findLocalDir_cuts_first_occurrence
  (env : Config.Env) (findUp_sync : string -> option string)
  (dirs : list string) (rest : string) :
  (findUp_sync (Config.ConfigFilename env) = None ->
   Locate.findLocalDir env findUp_sync
   = Throw (Error ("No '" ++ Config.ConfigFilename env ++ "' file found.")))
  /\ (segment_name (Config.ConfigFilename env) = true ->
      Forall (fun d => occurs (Config.ConfigFilename env) d = false) dirs ->
      findUp_sync (Config.ConfigFilename env)
      = Some (directory dirs ++ Config.ConfigFilename env ++ rest)%string ->
      Locate.findLocalDir env findUp_sync
      = Ok (directory dirs ++ rest)%string).
Proof.
  unfold Locate.findLocalDir, Locate.findLocal. split.
  - intros ->. reflexivity.
  - intros Hn Hd ->. rewrite directory_not_empty.
    cbn [obind]. now rewrite replace_first_directory.
Qed.

Lemma findLocalDir_cuts_first_occurrence_witness :
  Locate.findLocalDir (Sample.env true Sample.config) (fun _ => None)
  = Throw (Error "No 'reptar.config.js' file found.")
  /\ Locate.findLocalDir (Sample.env true Sample.config)
       (fun _ => Some "/srv/reptar.config.js.d/site/reptar.config.js")
     = Ok "/srv/.d/site/reptar.config.js".
Proof.
  split.
  - apply (proj1 (findLocalDir_cuts_first_occurrence
                    (Sample.env true Sample.config) (fun _ => None) [] "")).
    reflexivity.
  - apply (proj2 (findLocalDir_cuts_first_occurrence
                    (Sample.env true Sample.config)
                    (fun _ => Some
                       "/srv/reptar.config.js.d/site/reptar.config.js")
                    ["srv"] ".d/site/reptar.config.js")).
    + reflexivity.
    + repeat constructor.
    + reflexivity.
Defined.

(** X16.  A [Config] made without a root loads, on [update()], the very
    file that the search found: when the file lies in a directory none of
    whose parts contains the file name, the root is that directory with its
    closing separator, and joining it with the file name gives back the
    path that was found. *)
Theorem construct_loads_found_file
  (env : Config.Env) (findUp_sync : string -> option string)
  (dirs : list string) :
  segment_name (Config.ConfigFilename env) = true ->
  Forall (fun d => segment_name d = true) dirs ->
  Forall (fun d => occurs (Config.ConfigFilename env) d = false) dirs ->
  findUp_sync (Config.ConfigFilename env)
  = Some (directory dirs ++ Config.ConfigFilename env)%string ->
  exists this,
    Locate.construct env findUp_sync None = Ok this
    /\ Config.root this = directory dirs
    /\ Path.join [Config.root this; Config.ConfigFilename env]
       = (directory dirs ++ Config.ConfigFilename env)%string
    /\ Config.loadConfigFile env (Config.root this)
       = match Config.require env
                 (directory dirs ++ Config.ConfigFilename env)%string with
         | Some exported => Ok exported
         | None =>
             Throw (ModuleNotFound
                      (directory dirs ++ Config.ConfigFilename env)%string "")
         end.
Proof.
  intros Hn Hd Ho Hf. exists (Config.new (directory dirs)).
  assert (Hdir : Locate.findLocalDir env findUp_sync = Ok (directory dirs)).
  { unfold Locate.findLocalDir, Locate.findLocal.
    rewrite Hf, directory_not_empty. cbn [obind].
    assert (Hr := replace_first_directory _ dirs "" Hn Ho).
    assert (He : forall s : string, (s ++ "")%string = s).
    { induction s as [|c s IH]; simpl; [reflexivity|now rewrite IH]. }
    rewrite !He in Hr. now rewrite Hr. }
  unfold Locate.construct. rewrite Hdir. simpl.
  repeat split; try apply (join_directory _ _ Hd Hn).
  unfold Config.loadConfigFile. now rewrite (join_directory _ _ Hd Hn).
Qed.

Lemma construct_loads_found_file_witness :
  exists this,
    Locate.construct (Sample.env true Sample.config)
      (fun _ => Some "/srv/site/reptar.config.js") None = Ok this
    /\ Config.root this = "/srv/site/"
    /\ Path.join [Config.root this; "reptar.config.js"]
       = "/srv/site/reptar.config.js"
    /\ Config.loadConfigFile (Sample.env true Sample.config)
         (Config.root this)
       = Ok Sample.config.
Proof.
  apply (construct_loads_found_file (Sample.env true Sample.config)
           (fun _ => Some "/srv/site/reptar.config.js") ["srv"; "site"]).
  - reflexivity.
  - repeat constructor.
  - repeat constructor.
  - reflexivity.
Defined.

(** ** The renderer's engines *)

Lemma get_new_not_found root p :
  contains_char "[" p = false ->
  Config.get (Config.new root) (Some p) = Throw (Error (not_found_message p)).
Proof.
  intros Hb.
  unfold Config.get, Config.get_body, Config.new, Lodash.get. simpl.
  destruct (Lodash.castPath p (VObj false [])) as [path| |] eqn:Hc.
  - destruct (castPath_cons _ _ _ Hc) as (k & rest & ->).
    simpl. now rewrite baseGet_undefined.
  - unfold Lodash.castPath in Hc. rewrite Hb in Hc.
    destruct (negb (contains_char "." p)); discriminate.
  - unfold Lodash.castPath in Hc. rewrite Hb in Hc.
    destruct (negb (contains_char "." p)); discriminate.
Qed.

Section RendererEngines.
Import RendererClass.
Variable World : Type.
Variable Engine Environment PluginManager : Type.
Variable createMarkdownEngine : value -> World -> World * outcome Engine.
Variable configureTemplateEngine :
  option Config.Config -> value -> value -> World
  -> World * outcome Environment.

(** Where [update] stops when the config has no markdown options. *)
Lemma update_no_options arg nc tp w r c e :
  js_get arg "noTemplateCache" = Ok nc ->
  js_get arg "templatePaths" = Ok tp ->
  _config _ _ _ r = Some c ->
  Config.get c (Some "markdown.options") = Throw e ->
  update World Engine Environment PluginManager
    createMarkdownEngine configureTemplateEngine arg (w, r) = ((w, r), [], Throw e).
Proof.
  intros Hnc Htp Hc Hg. unfold update.
  cbv [Eff.bind Eff.lift Eff.ret Eff.throw this_config this assign
       call_createMarkdownEngine call_configureTemplateEngine fst snd].
  rewrite Hnc, Htp, Hc. cbv [Eff.ret]. rewrite Hg. reflexivity.
Qed.

(** Where [update] stops when the template engine cannot be configured. *)
Lemma update_no_environment arg nc tp w r c options w1 md w2 e :
  js_get arg "noTemplateCache" = Ok nc ->
  js_get arg "templatePaths" = Ok tp ->
  _config _ _ _ r = Some c ->
  Config.get c (Some "markdown.options") = Ok options ->
  createMarkdownEngine options w = (w1, Ok md) ->
  configureTemplateEngine (Some c) tp nc w1 = (w2, Throw e) ->
  update World Engine Environment PluginManager
    createMarkdownEngine configureTemplateEngine arg (w, r)
  = ((w2,
      {| _config := _config _ _ _ r;
         _pluginManager := _pluginManager _ _ _ r;
         _md := Some md; renderMarkdown := Some md;
         _nunjucksEnv := _nunjucksEnv _ _ _ r;
         renderTemplate := renderTemplate _ _ _ r;
         renderTemplateString := renderTemplateString _ _ _ r;
         addTemplateFilter := addTemplateFilter _ _ _ r |}),
     [CreateMarkdownEngine options; ConfigureTemplateEngine (Some c) tp nc],
     Throw e).
Proof.
  intros Hnc Htp Hc Hg Hm He. unfold update.
  cbv [Eff.bind Eff.lift Eff.ret Eff.throw this_config this assign
       call_createMarkdownEngine call_configureTemplateEngine fst snd].
  rewrite Hnc, Htp, Hc. cbv [Eff.ret]. rewrite Hg, Hm.
  cbn [_config app]. rewrite Hc, He. reflexivity.
Qed.

(** What a call of [update] that gets as far as the markdown engine
    does first. *)
Lemma update_creates_engine arg nc tp w r c options :
  js_get arg "noTemplateCache" = Ok nc ->
  js_get arg "templatePaths" = Ok tp ->
  _config _ _ _ r = Some c ->
  Config.get c (Some "markdown.options") = Ok options ->
  hd_error (snd (fst (update World Engine Environment PluginManager
    createMarkdownEngine configureTemplateEngine arg (w, r))))
  = Some (CreateMarkdownEngine options)
  /\ forall w1 md,
       createMarkdownEngine options w = (w1, Ok md) ->
       getMarkdownEngine _ _ _ (snd (fst (fst (update World Engine Environment PluginManager
    createMarkdownEngine configureTemplateEngine arg (w, r)))))
       = Some md.
Proof.
  intros Hnc Htp Hc Hg. unfold update.
  cbv [Eff.bind Eff.lift Eff.ret Eff.throw this_config this assign
       call_createMarkdownEngine call_configureTemplateEngine fst snd].
  rewrite Hnc, Htp, Hc. cbv [Eff.ret]. rewrite Hg.
  destruct (createMarkdownEngine options w) as [w1 [md| |]] eqn:Hm;
    cbn [_config app]; try (split; [reflexivity|intros ? ? [=]]).
  rewrite Hc.
  destruct (configureTemplateEngine (Some c) tp nc w1) as [w2 [ev| |]];
    (split; [reflexivity|intros ? ? [= _ ->]; reflexivity]).
Qed.

Lemma update_bound_to_stored arg w r :
  bound_to_stored r ->
  bound_to_stored (snd (fst (fst (update World Engine Environment PluginManager
    createMarkdownEngine configureTemplateEngine arg (w, r))))).
Proof.
  intros Hr. unfold update.
  cbv [Eff.bind Eff.lift Eff.ret Eff.throw this_config this assign
       call_createMarkdownEngine call_configureTemplateEngine fst snd].
  destruct (js_get arg "noTemplateCache") as [nc| |]; try exact Hr.
  destruct (js_get arg "templatePaths") as [tp| |]; try exact Hr.
  destruct (_config _ _ _ r) as [c|] eqn:Hc; try exact Hr.
  cbv [Eff.ret].
  destruct (Config.get c (Some "markdown.options")) as [options| |];
    try exact Hr.
  destruct Hr as (H1 & H2 & H3 & H4).
  destruct (createMarkdownEngine options w) as [w1 [md| |]];
    try (repeat split; assumption).
  cbn [_config app].
  destruct (configureTemplateEngine (_config _ _ _ r) tp nc w1)
    as [w2 [ev| |]]; repeat split; assumption.
Qed.

Lemma updates_bound_to_stored args : forall s,
  bound_to_stored (snd s) ->
  bound_to_stored
    (snd (updates World Engine Environment PluginManager
            createMarkdownEngine configureTemplateEngine args s)).
Proof.
  induction args as [|arg args IH]; intros [w r] Hs; [exact Hs|].
  simpl. apply IH. destruct (update_bound_to_stored arg w r Hs) as (?&?&?&?).
  repeat split; assumption.
Qed.
End RendererEngines.

(** X17.  [Renderer.update] is not all or nothing.  When the config has
    no [markdown.options] (as before any [Config.update()]), it throws the
    error of [Config.get] and has changed nothing and created no engine.
    When the markdown engine is made and the template engine cannot be
    configured, it throws that failure with the new markdown engine already
    stored and bound, and the template members as they were. *)
Theorem renderer_update_failures
  (World Engine Environment PluginManager : Type)
  (createMarkdownEngine : value -> World -> World * outcome Engine)
  (configureTemplateEngine :
     option Config.Config -> value -> value -> World
     -> World * outcome Environment)
  (arg nc tp : value) (w : World)
  (r : RendererClass.Renderer Engine Environment PluginManager)
  (c : Config.Config) :
  js_get arg "noTemplateCache" = Ok nc ->
  js_get arg "templatePaths" = Ok tp ->
  RendererClass._config _ _ _ r = Some c ->
  (forall root,
     c = Config.new root ->
     RendererClass.update World Engine Environment PluginManager
       createMarkdownEngine configureTemplateEngine arg (w, r)
     = ((w, r), [], Throw (Error (not_found_message "markdown.options"))))
  /\ (forall e,
        Config.get c (Some "markdown.options") = Throw e ->
        RendererClass.update World Engine Environment PluginManager
          createMarkdownEngine configureTemplateEngine arg (w, r)
        = ((w, r), [], Throw e))
  /\ (forall options w1 md w2 e,
        Config.get c (Some "markdown.options") = Ok options ->
        createMarkdownEngine options w = (w1, Ok md) ->
        configureTemplateEngine (Some c) tp nc w1 = (w2, Throw e) ->
        RendererClass.update World Engine Environment PluginManager
          createMarkdownEngine configureTemplateEngine arg (w, r)
        = ((w2,
            {| RendererClass._config := RendererClass._config _ _ _ r;
               RendererClass._pluginManager :=
                 RendererClass._pluginManager _ _ _ r;
               RendererClass._md := Some md;
               RendererClass.renderMarkdown := Some md;
               RendererClass._nunjucksEnv :=
                 RendererClass._nunjucksEnv _ _ _ r;
               RendererClass.renderTemplate :=
                 RendererClass.renderTemplate _ _ _ r;
               RendererClass.renderTemplateString :=
                 RendererClass.renderTemplateString _ _ _ r;
               RendererClass.addTemplateFilter :=
                 RendererClass.addTemplateFilter _ _ _ r |}),
           [RendererClass.CreateMarkdownEngine options;
            RendererClass.ConfigureTemplateEngine (Some c) tp nc],
           Throw e)).
Proof.
  intros Hnc Htp Hc. split; [|split].
  - intros root ->.
    eapply update_no_options; try eassumption.
    now apply get_new_not_found.
  - intros e Hg. eapply update_no_options; eassumption.
  - intros options w1 md w2 e Hg Hm He.
    eapply update_no_environment; eassumption.
Qed.

Lemma renderer_update_failures_witness :
  EngineSample.update EngineSample.templates
    (0, EngineSample.new (Some (Config.new "/srv/site")))
  = ((0, EngineSample.new (Some (Config.new "/srv/site"))), [],
     Throw (Error (not_found_message "markdown.options")))
  /\ snd (EngineSample.update EngineSample.no_templates
            (0, EngineSample.new (Some Sample.updated)))
     = Throw (Error "no template paths").
Proof.
  split.
  - apply (proj1 (renderer_update_failures nat value nat unit
                    EngineSample.createMarkdownEngine
                    EngineSample.configureTemplateEngine
                    EngineSample.templates (VBool true)
                    (VArr [VStr "/srv/site/_templates"]) 0
                    (EngineSample.new (Some (Config.new "/srv/site")))
                    (Config.new "/srv/site")
                    eq_refl eq_refl eq_refl) "/srv/site" eq_refl).
  - unfold EngineSample.update.
    rewrite (proj2 (proj2 (renderer_update_failures nat value nat unit
                    EngineSample.createMarkdownEngine
                    EngineSample.configureTemplateEngine
                    EngineSample.no_templates (VBool true) VUndefined 0
                    (EngineSample.new (Some Sample.updated))
                    Sample.updated
                    eq_refl eq_refl eq_refl))
               (Sample.obj [("preset", VStr "commonmark");
                            ("highlight", VBool true)])
               1
               (Sample.obj [("preset", VStr "commonmark");
                            ("highlight", VBool true)])
               1 (Error "no template paths")
               eq_refl eq_refl eq_refl).
    reflexivity.
Defined.

(** X18.  However many times [update] has been called on a renderer, and
    whether the calls returned or threw, the bound members follow the
    stored engines: [renderMarkdown] is bound to the engine that
    [getMarkdownEngine()] returns, and [renderTemplate],
    [renderTemplateString] and [addTemplateFilter] are bound to the stored
    template environment. *)
Theorem renderer_members_bound_to_stored
  (World Engine Environment PluginManager : Type)
  (createMarkdownEngine : value -> World -> World * outcome Engine)
  (configureTemplateEngine :
     option Config.Config -> value -> value -> World
     -> World * outcome Environment)
  (config : option Config.Config) (pluginManager : option PluginManager)
  (args : list value) (w : World) :
  let r :=
    snd (RendererClass.updates World Engine Environment PluginManager
           createMarkdownEngine configureTemplateEngine args
           (w, RendererClass.new Engine Environment PluginManager
                 config pluginManager)) in
  bound_to_stored r
  /\ RendererClass.renderMarkdown _ _ _ r
     = RendererClass.getMarkdownEngine _ _ _ r.
Proof.
  intros r.
  assert (H : bound_to_stored r).
  { apply updates_bound_to_stored. repeat split. }
  split; [exact H|]. exact (proj1 H).
Qed.

(** X19.  The markdown engine is made from the [markdown.options] of the
    configured tree: [Config.update()] leaves that entry as it was
    validated, however it ends, and a following [Renderer.update] hands
    just that value to [createMarkdownEngine] before it does anything
    else; when an engine is made from it, that engine is what
    [getMarkdownEngine()] returns after the call, whether or not the
    template engine could be configured. *)
Theorem renderer_uses_configured_markdown_options
  (World Engine Environment PluginManager : Type)
  (createMarkdownEngine : value -> World -> World * outcome Engine)
  (configureTemplateEngine :
     option Config.Config -> value -> value -> World
     -> World * outcome Environment)
  (env : Config.Env) (cfg : Config.Config) (merged options : value)
  (arg nc tp : value) (w : World)
  (r : RendererClass.Renderer Engine Environment PluginManager) :
  configured env (Config.root cfg) = Ok merged ->
  has_in "markdown" "options" options merged ->
  entry_is "markdown.options" None merged ->
  is_nullish options = false ->
  RendererClass._config _ _ _ r = Some (fst (fst (Config.update env cfg))) ->
  js_get arg "noTemplateCache" = Ok nc ->
  js_get arg "templatePaths" = Ok tp ->
  hd_error
    (snd (fst (RendererClass.update World Engine Environment PluginManager
                 createMarkdownEngine configureTemplateEngine arg (w, r))))
  = Some (RendererClass.CreateMarkdownEngine options)
  /\ forall w1 md,
       createMarkdownEngine options w = (w1, Ok md) ->
       RendererClass.getMarkdownEngine _ _ _
         (snd (fst (fst
            (RendererClass.update World Engine Environment PluginManager
               createMarkdownEngine configureTemplateEngine arg (w, r)))))
       = Some md.
Proof.
  intros Hm (p & rf & q & gs & -> & Hmd & Hopt) Hnone Hnn Hc Hnc Htp.
  eapply update_creates_engine; try eassumption.
  unfold Config.update, Config.get.
  rewrite update_body_stages, Hm.
  destruct (Config.normalize env (Config.root cfg) (VObj p rf))
    as [[raw' evs] res] eqn:Hn. simpl.
  assert (H1 : entry_is "markdown" (Some (VObj q gs)) raw').
  { refine (keep_normalize env (Config.root cfg) "markdown" _ _ _ _ _ _ _ Hn).
    - unfold normalised_keys. simpl. intuition discriminate.
    - exists p, rf. split; [reflexivity|exact Hmd]. }
  assert (H2 : entry_is "markdown.options" None raw').
  { refine (keep_normalize env (Config.root cfg) "markdown.options"
              _ _ _ _ _ _ Hnone Hn).
    unfold normalised_keys. simpl. intuition discriminate. }
  destruct H1 as (p1 & rf1 & -> & Hl1).
  destruct H2 as (p2 & rf2 & [= <- <-] & Hl2).
  unfold Config.get_body.
  change "markdown.options" with ("markdown" ++ "." ++ "options")%string.
  rewrite (get_two_levels p1 rf1 "markdown" "options" q gs options
             eq_refl eq_refl Hl2 Hl1 Hopt).
  simpl. now rewrite Hnn.
Qed.

Lemma renderer_uses_configured_markdown_options_witness :
  hd_error
    (snd (fst (EngineSample.update EngineSample.templates
                 (0, EngineSample.new (Some Sample.updated)))))
  = Some (RendererClass.CreateMarkdownEngine
            (Sample.obj [("preset", VStr "commonmark");
                         ("highlight", VBool true)])).
Proof.
  refine (proj1 (renderer_uses_configured_markdown_options nat value nat unit
            EngineSample.createMarkdownEngine
            EngineSample.configureTemplateEngine
            (Sample.env true Sample.config) (Config.new "/srv/site")
            (Sample.fill Sample.config Sample.defaults)
            (Sample.obj [("preset", VStr "commonmark");
                         ("highlight", VBool true)])
            EngineSample.templates (VBool true)
            (VArr [VStr "/srv/site/_templates"]) 0
            (EngineSample.new (Some Sample.updated))
            eq_refl _ _ eq_refl eq_refl eq_refl eq_refl)).
  - do 4 eexists. split; [reflexivity|]. split; reflexivity.
  - do 2 eexists. split; reflexivity.
Defined.
